(** * A shallow embedding of the schema compiler of webappbot (src/src/webapp.ts)

    JavaScript values are modelled as [val]; numbers are IEEE-754 binary64
    numbers, as in JavaScript, through Rocq's primitive floats.  A plain
    JavaScript object is an association list in [Object.keys] order, with
    assignment updating a present key in place and appending a new one. *)

From Stdlib Require Import String Ascii Floats.
From stdpp Require Import base list gmap strings.

Local Set Warnings "-inexact-float -register-all".
Open Scope string_scope.
Open Scope list_scope.

(* ------------------------------------------------------------------ *)
(** ** JavaScript values and objects *)

Inductive val : Type :=
| VStr (s : string)
| VNum (f : float)
| VBool (b : bool)
| VObj (o : list (string * val))
| VArr (a : list val).

Abbreviation obj := (list (string * val)).

(** Property access [o[k]] on an own property. *)
Fixpoint get {V} (k : string) (o : list (string * V)) : option V :=
  match o with
  | [] => None
  | (k', v) :: o' => if String.eqb k k' then Some v else get k o'
  end.

(** Assignment [o[k] = v]: a present key keeps its position. *)
Fixpoint set {V} (k : string) (v : V) (o : list (string * V)) : list (string * V) :=
  match o with
  | [] => [(k, v)]
  | (k', v') :: o' => if String.eqb k k' then (k, v) :: o' else (k', v') :: set k v o'
  end.

(** [delete o[k]]. *)
Fixpoint del {V} (k : string) (o : list (string * V)) : list (string * V) :=
  match o with
  | [] => []
  | (k', v') :: o' => if String.eqb k k' then del k o' else (k', v') :: del k o'
  end.

(** [Object.keys o]. *)
Definition keys {V} (o : list (string * V)) : list string := map fst o.

(** JavaScript truthiness of a value that is present. *)
Definition truthy (v : val) : bool :=
  match v with
  | VStr s => negb (String.eqb s "")
  | VNum f => negb (PrimFloat.eqb f 0%float || PrimFloat.is_nan f)
  | VBool b => b
  | VObj _ | VArr _ => true
  end.

(** [String.prototype.toLowerCase] (and [toLocaleLowerCase]) on ASCII text. *)
Definition lower_ascii (c : ascii) : ascii :=
  let n := nat_of_ascii c in
  if (65 <=? n)%nat && (n <=? 90)%nat then ascii_of_nat (n + 32) else c.

Fixpoint lower (s : string) : string :=
  match s with
  | EmptyString => EmptyString
  | String c s' => String (lower_ascii c) (lower s')
  end.

(** [s.match(/\./)] *)
Fixpoint has_dot (s : string) : bool :=
  match s with
  | EmptyString => false
  | String c s' => if Ascii.eqb c "." then true else has_dot s'
  end.

(** [s.split('.')] *)
Fixpoint split_dot (s : string) : list string :=
  match s with
  | EmptyString => [EmptyString]
  | String c s' =>
      if Ascii.eqb c "." then EmptyString :: split_dot s'
      else match split_dot s' with
           | [] => [String c EmptyString]
           | w :: ws => String c w :: ws
           end
  end.

(** [a[i]] on an array of strings, [undefined] as [None]. *)
Definition nth_str (i : nat) (l : list string) : option string := nth_error l i.

(* ------------------------------------------------------------------ *)
(** ** Workbooks

    [XLSX.readFile] and [XLSX.utils.sheet_to_json] are library code.  A
    workbook here carries its sheet names (the field [SheetNames], possibly
    absent) and, per sheet, the row objects [sheet_to_json] returns for it:
    one object per data row, keyed by column header, in [Object.keys] order
    (cells left empty are not keys).  For a sheet that is not in the
    workbook [sheet_to_json] returns no rows. *)

Abbreviation row := obj.

Record workbook := mkWorkbook {
  SheetNames : option (list string);
  Sheets : list (string * list row)
}.

Definition sheet_to_json (wb : workbook) (sheetName : string) : list row :=
  match get sheetName (Sheets wb) with
  | Some rows => rows
  | None => []
  end.

(** [Object.keys(data[0] || {})[0]] *)
Definition firstFieldName (data : list row) : option string :=
  match data with
  | [] => None
  | r :: _ => head (keys r)
  end.

Definition isModelSheet (data : list row) : bool :=
  match firstFieldName data with
  | Some k => String.eqb k "Model"
  | None => false
  end.

(** [getSheetsHavingModels]: the names are visited in order and a name is
    pushed when its first row's first key is ["Model"]. *)
Definition getSheetsHavingModels (wb : workbook) : list string :=
  fold_left
    (fun acc sheetName =>
       if isModelSheet (sheet_to_json wb sheetName) then (acc ++ [sheetName])%list else acc)
    (default [] (SheetNames wb)) [].

(* ------------------------------------------------------------------ *)
(** ** Extraction of models and partials (getModelsDataAndPartialsFromWorkbook) *)

Section Extraction.

(** [String(n)] for a number used as a property key; the decimal printing
    of binary64 numbers is left abstract. *)
Variable num_to_string : float -> string.

(** The property key a cell value (or [undefined]) is converted to. *)
Definition to_key (v : option val) : string :=
  match v with
  | None => "undefined"
  | Some (VStr s) => s
  | Some (VNum f) => num_to_string f
  | Some (VBool b) => if b then "true" else "false"
  | Some (VObj _) => "[object Object]"
  | Some (VArr _) => ""
  end.

(** [modelsData]: sheet name -> model name -> field name -> row object;
    [partials]: partial name -> field name -> row object; [modelKey] is the
    variable shared by every sheet of the loop. *)
Record extraction := mkExtraction {
  modelsData : list (string * list (string * list (string * obj)));
  partials : list (string * list (string * obj));
  modelKey : string
}.

(** The [if (Model) { ... }] block of the row loop for sheet [sheetName]. *)
Definition open_model (sheetName : string) (st : extraction) (Model : option val)
  : extraction :=
  match Model with
  | Some m =>
      if truthy m then
        let mk := to_key (Some m) in
        if String.eqb sheetName "partials" then
          mkExtraction (modelsData st) (set mk [] (partials st)) mk
        else
          let md1 := match get sheetName (modelsData st) with
                     | None => set sheetName [] (modelsData st)
                     | Some _ => modelsData st
                     end in
          let pkg := default [] (get sheetName md1) in
          mkExtraction (set sheetName (set mk [] pkg) md1) (partials st) mk
      else st
  | None => st
  end.

(** The store of the row object under [Field] in the current model or
    partial; [None] is the [TypeError] of a write into an [undefined]
    container. *)
Definition store_item (sheetName : string) (st1 : extraction) (Field : option val)
  (item' : row) : option extraction :=
  let mk := modelKey st1 in
  if String.eqb sheetName "partials" then
    match get mk (partials st1) with
    | None => None
    | Some p =>
        Some (mkExtraction (modelsData st1)
                (set mk (set (to_key Field) item' p) (partials st1)) mk)
    end
  else
    match get sheetName (modelsData st1) with
    | None => None
    | Some pkg =>
        match get mk pkg with
        | None => None
        | Some m =>
            Some (mkExtraction
                    (set sheetName (set mk (set (to_key Field) item' m) pkg)
                       (modelsData st1))
                    (partials st1) mk)
        end
    end.

(** The body of [data.map((item) => ...)]: [let { Model, Field } = item],
    the [if (Model)] block, [delete item.Model], the store. *)
Definition extract_item (sheetName : string) (st : extraction) (item : row)
  : option extraction :=
  let Model := get "Model" item in
  let Field := get "Field" item in
  let st1 := open_model sheetName st Model in
  store_item sheetName st1 Field (del "Model" item).

Fixpoint foldM {A B} (f : A -> B -> option A) (l : list B) (a : A) : option A :=
  match l with
  | [] => Some a
  | b :: l' => match f a b with Some a' => foldM f l' a' | None => None end
  end.

Definition extract_sheet (wb : workbook) (st : extraction) (sheetName : string)
  : option extraction :=
  foldM (extract_item sheetName) (sheet_to_json wb sheetName) st.

Definition getModelsDataAndPartialsFromWorkbook (wb : workbook)
  : option (list (string * list (string * list (string * obj)))
            * list (string * list (string * obj))) :=
  match foldM (extract_sheet wb) (getSheetsHavingModels wb) (mkExtraction [] [] "") with
  | Some st => Some (modelsData st, partials st)
  | None => None
  end.

End Extraction.

(** A concrete printing of numbers for concrete runs whose keys are strings. *)
Definition sample_num_to_string (f : float) : string := "NaN".

Definition users_sheet : list row :=
  [ [("Model", VStr "User"); ("Field", VStr "id"); ("Type", VStr "uuid"); ("Primary", VBool true)];
    [("Field", VStr "name"); ("Type", VStr "string"); ("Create", VStr "required"); ("Read", VStr "required")];
    [("Field", VStr "createdAt"); ("Type", VStr "time"); ("AutoCreate", VBool true)] ].

Definition users_wb : workbook := mkWorkbook (Some ["users"]) [("users", users_sheet)].

(** [modelsData[s][k][x]] and [partials[k][x]] *)
Definition lookup3 {V} (md : list (string * list (string * list (string * V))))
  (s k x : string) : option V :=
  match get s md with
  | Some pkg => match get k pkg with Some m => get x m | None => None end
  | None => None
  end.

Definition lookup2 {V} (ps : list (string * list (string * V))) (k x : string)
  : option V :=
  match get k ps with Some m => get x m | None => None end.

(* ------------------------------------------------------------------ *)
(** ** The object store of xlsxToJSON

    From [fillPartials] on, objects are shared: a partial's field objects
    are stored in every model that includes the partial, and
    [Object.assign({}, modelsData)] copies only the root, so the package
    objects and every model and field object below them are reached from
    both [modelsData] and [routesData].  Model objects and field objects
    therefore live in a store; the root and the package objects are
    association lists of references (they are not mutated once shared). *)

Abbreviation loc := nat.

Record heap := mkHeap {
  models : gmap loc (list (string * loc));
  fields : gmap loc obj
}.

(** [modelsData]: sheet name -> model name -> model object. *)
Abbreviation root := (list (string * list (string * loc))).

(** A computation on the store; [None] is a thrown [TypeError]. *)
Definition M (A : Type) : Type := heap -> option (A * heap).

Definition ret {A} (a : A) : M A := fun h => Some (a, h).
Definition bind {A B} (m : M A) (f : A -> M B) : M B :=
  fun h => match m h with Some (a, h') => f a h' | None => None end.
Definition throw {A} : M A := fun _ => None.

Notation "'let*' x ':=' m 'in' k" := (bind m (fun x => k))
  (at level 200, x name, m at level 100, k at level 200).

Fixpoint foldlM {A B} (f : A -> B -> M A) (l : list B) (a : A) : M A :=
  match l with
  | [] => ret a
  | b :: l' => bind (f a b) (foldlM f l')
  end.

Definition alloc_model (m : list (string * loc)) : M loc :=
  fun h => let l := fresh (dom (models h)) in
           Some (l, mkHeap (<[l := m]> (models h)) (fields h)).

Definition alloc_field (o : obj) : M loc :=
  fun h => let l := fresh (dom (fields h)) in
           Some (l, mkHeap (models h) (<[l := o]> (fields h))).

(** Reading an object that is not there is [undefined]; every use below
    ([Object.keys], a property access) then throws. *)
Definition read_model (l : loc) : M (list (string * loc)) :=
  fun h => match models h !! l with Some m => Some (m, h) | None => None end.

Definition read_field (l : loc) : M obj :=
  fun h => match fields h !! l with Some o => Some (o, h) | None => None end.

Definition write_model (l : loc) (m : list (string * loc)) : M unit :=
  fun h => Some (tt, mkHeap (<[l := m]> (models h)) (fields h)).

Definition write_field (l : loc) (o : obj) : M unit :=
  fun h => Some (tt, mkHeap (models h) (<[l := o]> (fields h))).

(** The row objects of the extraction become objects of the store. *)
Definition alloc_fields (m : list (string * obj)) : M (list (string * loc)) :=
  foldlM (fun acc '(x, o) => let* l := alloc_field o in ret (acc ++ [(x, l)])) m [].

Definition materialize_models (md : list (string * list (string * list (string * obj))))
  : M root :=
  foldlM (fun acc '(s, pkg) =>
            let* pkg' := foldlM (fun acc' '(k, m) =>
                              let* fl := alloc_fields m in
                              let* ml := alloc_model fl in
                              ret (acc' ++ [(k, ml)])) pkg [] in
            ret (acc ++ [(s, pkg')])) md [].

Definition materialize_partials (ps : list (string * list (string * obj)))
  : M (list (string * list (string * loc))) :=
  foldlM (fun acc '(k, m) => let* fl := alloc_fields m in ret (acc ++ [(k, fl)])) ps [].

(* ------------------------------------------------------------------ *)
(** ** fillPartials *)

(** [key.match(/^partials\./)] and [key.replace(/partials\./, '')] *)
Definition partials_prefix : string := "partials.".

Definition strip_partials (key : string) : option string :=
  if String.prefix partials_prefix key
  then Some (substring (String.length partials_prefix)
                       (String.length key - String.length partials_prefix) key)
  else None.

(** Property names a plain object inherits from [Object.prototype]; a
    lookup of one of them yields a function (or the prototype itself),
    whose [Object.keys] is empty. *)
Definition object_prototype_names : list string :=
  ["constructor"; "__defineGetter__"; "__defineSetter__"; "hasOwnProperty";
   "__lookupGetter__"; "__lookupSetter__"; "isPrototypeOf";
   "propertyIsEnumerable"; "toString"; "valueOf"; "__proto__"; "toLocaleString"].

(** The body of [for (let key in model)], accumulating [retModel]. *)
Definition fill_key (partials : list (string * list (string * loc)))
  (model retModel : list (string * loc)) (key : string) : M (list (string * loc)) :=
  match strip_partials key with
  | None =>
      match get key model with
      | Some l => ret (set key l retModel)
      | None => ret retModel
      end
  | Some name =>
      match get name partials with
      | Some partialsData =>
          ret (fold_left (fun r '(partialKey, l) => set partialKey l r) partialsData retModel)
      | None =>
          if existsb (String.eqb name) object_prototype_names then ret retModel
          else throw (* Object.keys(undefined) *)
      end
  end.

Definition fill_model (partials : list (string * list (string * loc)))
  (pkg : list (string * loc)) (modelName : string) : M (list (string * loc)) :=
  match get modelName pkg with
  | None => ret pkg
  | Some ml =>
      let* model := read_model ml in
      let* retModel := foldlM (fill_key partials model) (keys model) [] in
      let* l := alloc_model retModel in
      ret (set modelName l pkg)
  end.

Definition fillPartials (modelsData : root)
  (partials : list (string * list (string * loc))) : M root :=
  foldlM (fun md sheetName =>
            match get sheetName md with
            | None => ret md
            | Some pkg =>
                let* pkg' := foldlM (fill_model partials) (keys pkg) pkg in
                ret (set sheetName pkg' md)
            end) (keys modelsData) modelsData.

(* ------------------------------------------------------------------ *)
(** ** Walking every field of every model *)

(** [for (let packageName in modelsData) for (let modelName in packageData)
    for (let field in modelData) body(field object)]: the body reads the
    field's object, and its [None] is a thrown error. *)
Definition forFields (body : loc -> M unit) (modelsData : root) : M unit :=
  foldlM (fun _ '(_, pkg) =>
    foldlM (fun _ '(_, ml) =>
      let* modelData := read_model ml in
      foldlM (fun _ field =>
        match get field modelData with
        | Some fl => body fl
        | None => ret tt
        end) (keys modelData) tt) pkg tt) modelsData tt.

(* ------------------------------------------------------------------ *)
(** ** replaceWebAppTypesWithModelType *)

Section Types.

(** The registry [config/types.json]: [types[t]] for a lower-cased type name. *)
Variable types : string -> option val.

Definition replace_type (fl : loc) : M unit :=
  let* o := read_field fl in
  match get "Type" o with
  | Some T =>
      if truthy T then
        match T with
        | VStr t =>
            match types (lower t) with
            | Some typeFromTypes =>
                if truthy typeFromTypes
                then write_field fl (set "typeFromTypes" typeFromTypes o)
                else ret tt
            | None => ret tt
            end
        | _ => throw (* Type.toLowerCase is not a function *)
        end
      else ret tt
  | None => ret tt
  end.

Definition replaceWebAppTypesWithModelType (modelsData : root) : M unit :=
  forFields replace_type modelsData.

End Types.

(* ------------------------------------------------------------------ *)
(** ** segregateAPISections *)

Definition crud_actions : list string := ["create"; "read"; "update"; "delete"].

(** One key of [keys.map((key) => ...)]: the field object and [apiData]. *)
Definition segregate_key (acc : obj * obj) (key : string) : M (obj * obj) :=
  let '(o, apiData) := acc in
  if existsb (String.eqb (lower key)) crud_actions then
    match get key o with
    | Some (VStr bby) =>
        if existsb (String.eqb (lower bby)) ["required"; "optional"]
        then ret (del key o, set (lower key) (VStr (lower bby)) apiData)
        else ret (o, apiData)
    | _ => throw (* bby.toLocaleLowerCase is not a function *)
    end
  else ret (o, apiData).

Definition segregate_field (fl : loc) : M unit :=
  let* o := read_field fl in
  let* r := foldlM segregate_key (keys o) (o, []) in
  let '(o', apiData) := r in
  match apiData with
  | [] => write_field fl o'
  | _ => write_field fl (set "api" (VObj apiData) o')
  end.

Definition segregateAPISections (modelsData : root) : M unit :=
  forFields segregate_field modelsData.

(* ------------------------------------------------------------------ *)
(** ** processRoutesDataFromModelsData *)

(** Decimal digits of an array index, [String(i)]. *)
Definition digit (n : nat) : ascii := ascii_of_nat (48 + n).

Fixpoint dec_string (fuel n : nat) : string :=
  match fuel with
  | 0 => EmptyString
  | S fuel' =>
      if (n <? 10)%nat then String (digit n) EmptyString
      else (dec_string fuel' (n / 10) ++ String (digit (n mod 10)) EmptyString)%string
  end.

Definition index_key (i : nat) : string := dec_string (S i) i.

(** [Object.keys(v)] of a value: the indices of a string or array, the
    keys of an object, nothing for a number or boolean. *)
Definition js_keys (v : val) : list string :=
  match v with
  | VStr s => map index_key (seq 0 (String.length s))
  | VArr a => map index_key (seq 0 (length a))
  | VObj o => keys o
  | VNum _ | VBool _ => []
  end.

(** The route schema: package -> model -> action -> field names. *)
Abbreviation routes := (list (string * list (string * list (string * list string)))).

(** The field object once every key but [api] is deleted. *)
Definition api_only (o : obj) : obj :=
  List.filter (fun kv => String.eqb (fst kv) "api") o.

(** [for (let field in modelData)]: keep only the [api] property, drop the
    field when nothing is left. *)
Definition strip_field (modelData : list (string * loc)) (field : string)
  : M (list (string * loc)) :=
  match get field modelData with
  | None => ret modelData
  | Some fl =>
      let* o := read_field fl in
      let o' := api_only o in
      let* _ := write_field fl o' in
      match o' with
      | [] => ret (del field modelData)
      | _ => ret modelData
      end
  end.

(** [Object.keys(modelData[field]['api']).includes(action)] *)
Definition has_action (action : string) (modelData : list (string * loc))
  (field : string) : M bool :=
  match get field modelData with
  | None => throw
  | Some fl =>
      let* o := read_field fl in
      match get "api" o with
      | None => throw (* Object.keys(undefined) *)
      | Some api => ret (existsb (String.eqb action) (js_keys api))
      end
  end.

Fixpoint filterM (p : string -> M bool) (l : list string) : M (list string) :=
  match l with
  | [] => ret []
  | x :: l' =>
      let* b := p x in
      let* r := filterM p l' in
      ret (if b then x :: r else r)
  end.

(** The [['create', 'read', 'update', 'delete'].map((action) => ...)] loop. *)
Definition route_action (modelData : list (string * loc))
  (entry : list (string * list string)) (action : string)
  : M (list (string * list string)) :=
  let* lst := filterM (has_action action modelData) (keys modelData) in
  let entry' := set action lst entry in
  match lst with
  | [] => ret (del action entry')
  | _ => ret entry'
  end.

Definition route_model (pkg : list (string * loc))
  (reorg : list (string * list (string * list string))) (modelName : string)
  : M (list (string * list (string * list string))) :=
  match get modelName pkg with
  | None => ret reorg
  | Some ml =>
      let* modelData0 := read_model ml in
      let* modelData := foldlM strip_field (keys modelData0) modelData0 in
      let* _ := write_model ml modelData in
      let entry0 := [("create", []); ("read", []); ("update", []); ("delete", [])] in
      let* entry := foldlM (route_action modelData) crud_actions entry0 in
      ret (set modelName entry reorg)
  end.

(** The function mutates the objects below [routesData] and returns
    [reorganized], which [Object.assign] copies over every package of
    [routesData]. *)
Definition processRoutesDataFromModelsData (routesData : root) : M routes :=
  foldlM (fun reorganized packageName =>
            match get packageName routesData with
            | None => ret reorganized
            | Some packageData =>
                let* pkgRoutes := foldlM (route_model packageData) (keys packageData) [] in
                ret (set packageName pkgRoutes reorganized)
            end) (keys routesData) [].

(* ------------------------------------------------------------------ *)
(** ** The two output documents of xlsxToJSON *)

(** [JSON.parse(JSON.stringify(modelsData))]: the compiled schema as a value. *)
Definition serialize_models (h : heap) (modelsData : root) : option val :=
  let ser_model (ml : loc) : option val :=
    match models h !! ml with
    | None => None
    | Some m =>
        let fs := map (fun '(x, fl) => match fields h !! fl with
                                       | Some o => Some (x, VObj o)
                                       | None => None
                                       end) m in
        match mapM id fs with Some l => Some (VObj l) | None => None end
    end in
  let ser_pkg (pkg : list (string * loc)) : option val :=
    match mapM (fun '(k, ml) => match ser_model ml with
                                | Some v => Some (k, v) | None => None end) pkg with
    | Some l => Some (VObj l) | None => None
    end in
  match mapM (fun '(s, pkg) => match ser_pkg pkg with
                               | Some v => Some (s, v) | None => None end) modelsData with
  | Some l => Some (VObj l)
  | None => None
  end.

Definition serialize_routes (r : routes) : val :=
  VObj (map (fun '(s, pkg) =>
    (s, VObj (map (fun '(k, entry) =>
      (k, VObj (map (fun '(a, l) => (a, VArr (map VStr l))) entry))) pkg))) r).

(** [xlsxToJSON] from the workbook to the two documents [models.json] and
    [routesFromModels.json]; [None] when a step throws. *)
Definition xlsxToJSON (num_to_string : float -> string) (types : string -> option val)
  (wb : workbook) : option (val * val) :=
  match getModelsDataAndPartialsFromWorkbook num_to_string wb with
  | None => None
  | Some (md, ps) =>
      let run : M (root * routes) :=
        let* modelsData := materialize_models md in
        let* partials := materialize_partials ps in
        let* modelsData' := fillPartials modelsData partials in
        let* _ := replaceWebAppTypesWithModelType types modelsData' in
        let* _ := segregateAPISections modelsData' in
        let routesData := modelsData' in (* Object.assign({}, modelsData) *)
        let* r := processRoutesDataFromModelsData routesData in
        ret (modelsData', r) in
      match run (mkHeap empty empty) with
      | None => None
      | Some ((modelsData', r), h) =>
          match serialize_models h modelsData' with
          | Some mj => Some (mj, serialize_routes r)
          | None => None
          end
      end
  end.

(** Well-formed route input: every model object referenced from the root
    is in the store, has distinct keys, and references field objects that
    are in the store. *)
Fixpoint nodup_keys {V} (o : list (string * V)) : bool :=
  match o with
  | [] => true
  | (k, _) :: o' => negb (existsb (String.eqb k) (keys o')) && nodup_keys o'
  end.

Definition model_ok (h : heap) (ml : loc) : bool :=
  match models h !! ml with
  | Some m =>
      nodup_keys m &&
      forallb (fun kv => match fields h !! snd kv with Some _ => true | None => false end) m
  | None => false
  end.

Definition routes_wf (h : heap) (rd : root) : bool :=
  forallb (fun pe => forallb (fun me => model_ok h (snd me)) (snd pe)) rd.

(** The route projection read off the store [h0] the projection starts
    from: a field is kept when its object has an [api] property, and an
    action lists the kept fields whose [api] value has the action as a key. *)
Definition has_api (o : obj) : bool :=
  match get "api" o with Some _ => true | None => false end.

Definition keep0 (h0 : heap) (fl : loc) : bool :=
  match fields h0 !! fl with Some o => has_api o | None => false end.

Definition strip0 (h0 : heap) (m : list (string * loc)) : list (string * loc) :=
  List.filter (fun kv => keep0 h0 (snd kv)) m.

Definition lists_action (h0 : heap) (md : list (string * loc)) (a x : string) : bool :=
  match get x md with
  | Some fl =>
      match fields h0 !! fl with
      | Some o => match get "api" o with
                  | Some api => existsb (String.eqb a) (js_keys api)
                  | None => false
                  end
      | None => false
      end
  | None => false
  end.

Definition action_list (h0 : heap) (md : list (string * loc)) (a : string) : list string :=
  List.filter (lists_action h0 md a) (keys md).

Definition nonempty {A} (al : string * list A) : bool :=
  match snd al with [] => false | _ => true end.

Definition route_entry (h0 : heap) (md : list (string * loc)) : list (string * list string) :=
  List.filter nonempty (map (fun a => (a, action_list h0 md a)) crud_actions).

Definition model_route (h0 : heap) (pkg : list (string * loc)) (k : string)
  : list (string * list string) :=
  match get k pkg with
  | Some ml => match models h0 !! ml with
               | Some m0 => route_entry h0 (strip0 h0 m0)
               | None => []
               end
  | None => []
  end.

Definition pkg_routes (h0 : heap) (pkg : list (string * loc)) :=
  fold_left (fun r k => set k (model_route h0 pkg k) r) (keys pkg) [].

(** During the projection every field object is the one of [h0] or its
    [api]-only part, and every model object the one of [h0] or its kept part. *)
Definition route_inv (h0 h : heap) : Prop :=
  (forall fl o0, fields h0 !! fl = Some o0 ->
     fields h !! fl = Some o0 \/ fields h !! fl = Some (api_only o0)) /\
  (forall ml m0, models h0 !! ml = Some m0 ->
     models h !! ml = Some m0 \/ models h !! ml = Some (strip0 h0 m0)).

(** A small store for the route projection: [name] has an [api] object,
    [bio] has none. *)
Definition route_heap : heap :=
  mkHeap (<[1 := [("name", 1); ("bio", 2)]]> empty)
         (<[2 := [("Type", VStr "string")]]>
            (<[1 := [("api", VObj [("create", VStr "required"); ("read", VStr "required")])]]> empty)).

Definition route_root : root := [("users", [("User", 1)])].

(* ------------------------------------------------------------------ *)
(** ** processModels

    [processModels] reads [models.json] back (a fresh [JSON.parse], so no
    object is shared), and for each package and model runs two
    [for (let fieldKey in fields)] loops over the field map before it
    renders the Go file.  A [for-in] loop enumerates the keys the object has
    when the loop starts, skips a key deleted before it is reached, and
    does not visit keys added during the loop.  Rendering and file writing
    are output only and are left out. *)

Section ProcessModels.

(** [_.camelCase] (lodash) and the module path read from [go.mod]. *)
Variable camelCase : string -> string.
Variable modulePath : string.
(** [ToNumber] of a value that is not a number, and [String(v)]. *)
Variable num_of : val -> float.
Variable to_str : val -> string.

Definition dq : string := String (ascii_of_nat 34) EmptyString.

(** [if (!imports.includes(s)) imports.push(s)] *)
Definition push_new (x : string) (l : list string) : list string :=
  if existsb (String.eqb x) l then l else l ++ [x].

(** [addToImports(type, imports)] with the default [importStrType]. *)
Definition addToImports (type : option val) (imports : list string) : list string :=
  match type with
  | Some (VStr t) =>
      if String.eqb t "uuid.UUID" then push_new ("uuid " ++ dq ++ "github.com/google/uuid" ++ dq)%string imports
      else if String.eqb t "time.Time" then push_new (dq ++ "time" ++ dq)%string imports
      else imports
  | _ => imports
  end.

Definition getLocalModelPackageStr (packageName : string) : string :=
  (packageName ++ " " ++ dq ++ modulePath ++ "/src/models/" ++ lower packageName ++ dq)%string.

Definition float_of_nat (n : nat) : float := PrimFloat.of_uint63 (Uint63.of_Z (Z.of_nat n)).

(** [typeof v === 'object'] for a value that is present. *)
Definition is_object (v : val) : bool :=
  match v with VObj _ | VArr _ => true | _ => false end.

(** Property [k] of an object-typed value. *)
Definition obj_prop (v : val) (k : string) : option val :=
  match v with
  | VObj o => get k o
  | VArr a => if String.eqb k "length" then Some (VNum (float_of_nat (length a))) else None
  | _ => None
  end.

Definition truthy_opt (v : option val) : bool :=
  match v with Some v => truthy v | None => false end.

(** [v === s] for a string [s]. *)
Definition is_str (v : option val) (s : string) : bool :=
  match v with Some (VStr t) => String.eqb t s | _ => false end.

(** [createFieldVariables(field)]: the field object, which receives
    [length] from an object [typeFromTypes], and [type]. *)
Definition createFieldVariables (field : obj) : obj * option val :=
  let typeFromTypes := get "typeFromTypes" field in
  let Type_ := get "Type" field in
  match typeFromTypes with
  | Some t =>
      if truthy t then
        if is_object t then
          let field' := if truthy_opt (obj_prop t "length")
                         then match obj_prop t "length" with
                              | Some l => set "length" l field
                              | None => field
                              end
                         else field in
          (field', obj_prop t "type")
        else (field, Some t)
      else (field, Type_)
  | None => (field, Type_)
  end.

(** [o[k] = v] where [v] may be [undefined]; an undefined property reads
    back as [undefined] like an absent one, and is modelled as absent. *)
Definition set_opt (k : string) (v : option val) (o : obj) : obj :=
  match v with Some x => set k x o | None => del k o end.

Definition setDefaultFieldType (field : obj) : obj :=
  match get "typeFromTypes" field with
  | Some t =>
      if is_object t then
        let type := obj_prop t "type" in
        let length := obj_prop t "length" in
        let field1 := if truthy_opt type then set_opt "type" type field else field in
        if truthy_opt length then set_opt "Length" length field1 else field1
      else set "type" t field
  | None => set_opt "type" None field
  end.

(** [setPrimarykey] assigns only its own parameter [primary]; what remains
    is the import of the default key type. *)
Definition setPrimarykey (field : obj) (imports : list string) : list string :=
  if truthy_opt (get "Primary" field) then imports
  else addToImports (Some (VStr "uuid.UUID")) imports.

Definition setDefaultValue (field : obj) : obj :=
  match get "DefaultValue" field with
  | Some dv =>
      let dv' := if is_str (get "typeFromTypes" field) "string"
                 then VStr ("'" ++ to_str dv ++ "'")%string else dv in
      set "DefaultValue" dv' field
  | None => field
  end.

Definition setFieldLength (field : obj) : obj :=
  let length := get "length" field in
  let MaximumLength := get "MaximumLength" field in
  let field1 := match MaximumLength with Some v => set "Length" v field | None => field end in
  match length with Some v => set "Length" v field1 | None => field1 end.

Definition setTimeType (field : obj) : obj :=
  if is_str (get "typeFromTypes" field) "time.Time" then
    let NotNull := get "NotNull" field in
    let AutoCreate := get "AutoCreate" field in
    let field1 := if truthy_opt NotNull then field else set "type" (VStr "*time.Time") field in
    if truthy_opt AutoCreate then set "misc" (VStr "autoCreateTime") field1 else field1
  else field.

(** [ToNumber] of a property; [undefined] gives NaN. *)
Definition to_number (v : option val) : float :=
  match v with Some (VNum f) => f | Some v => num_of v | None => PrimFloat.nan end.

Definition setIntType (field : obj) : obj :=
  if is_str (get "typeFromTypes" field) "int" then
    let Minimum := get "Minimum" field in
    let Maximum := get "Maximum" field in
    let Maximum := match Minimum, Maximum with
                   | Some _, None => Some (VNum 18446744073709551615%float)
                   | _, _ => Maximum
                   end in
    let Minimum := match Maximum, Minimum with
                   | Some _, None => Some (VNum (-1)%float)
                   | _, _ => Minimum
                   end in
    match Maximum, Minimum with
    | None, None => set "type" (VStr "int64") field
    | _, _ =>
        let mn := to_number Minimum in
        let mx := to_number Maximum in
        if PrimFloat.leb 0%float mn && PrimFloat.leb mx 4294967295%float then
          set "type" (VStr "uint32") field
        else if PrimFloat.leb 0%float mn && PrimFloat.ltb 4294967295%float mx then
          set "type" (VStr "uint64") field
        else if PrimFloat.ltb mn 0%float && PrimFloat.leb mx 2147483647%float then
          set "type" (VStr "int32") field
        else if PrimFloat.ltb mn 0%float && PrimFloat.ltb 2147483647%float mx then
          set "type" (VStr "int64") field
        else field
    end
  else field.

(** The literal [3.402823466e385] of the source is above the largest
    double and reads as [Infinity]. *)
Definition setFloatType (field : obj) : obj :=
  if is_str (get "typeFromTypes" field) "float" then
    match get "Maximum" field with
    | None => set "type" (VStr "float64") field
    | Some m =>
        let a := PrimFloat.abs (to_number (Some m)) in
        if PrimFloat.leb a 3.402823466e385%float then set "type" (VStr "float32") field
        else if PrimFloat.leb a 1.7976931348623157e308%float then set "type" (VStr "float64") field
        else field
    end
  else field.

(** The body of the second field loop on one field object, up to
    [updateField]: the resolved object and the imports. *)
Definition resolve_field (field : obj) (imports : list string) : obj * list string :=
  let '(field1, type) := createFieldVariables field in
  let imports1 := addToImports type imports in
  let field2 := setDefaultFieldType field1 in
  let imports2 := setPrimarykey field2 imports1 in
  let field3 := setDefaultValue field2 in
  let field4 := setFieldLength field3 in
  let field5 := setTimeType field4 in
  let field6 := setIntType field5 in
  let field7 := setFloatType field6 in
  (field7, imports2).

(** The per-model variables [fields], [imports] and [parentModel.value]
    ([false] as [None]). *)
Record model_state := mkModelState {
  mfields : list (string * obj);
  imports : list string;
  parentModel : option string
}.

Definition updateField (st : model_state) (field : obj) (fieldKey : string) : model_state :=
  if negb (has_dot fieldKey)
  then mkModelState (set fieldKey field (mfields st)) (imports st) (parentModel st)
  else mkModelState (del fieldKey (mfields st)) (imports st) (Some fieldKey).

(** [fieldKey.split('.')[0]] and [fieldKey.split('.')[1]]. *)
Definition related_package (fieldKey : string) : string :=
  match nth_str 0 (split_dot fieldKey) with Some s => s | None => "undefined" end.

Definition related_model (fieldKey : string) : string :=
  match nth_str 1 (split_dot fieldKey) with Some s => s | None => "undefined" end.

Definition cascade_field (relatedModelType : string) : obj :=
  [("typeFromTypes", VStr relatedModelType); ("misc", VStr "constraint:OnDelete:CASCADE;")].

(** [createRelationShips]: the field object is stored under
    [relatedModel + 'Id'] and, still being the object under [fieldKey],
    then receives [typeFromTypes = 'uuid.UUID'] under both keys. *)
Definition createRelationShips (st : model_state) (fieldKey packageCamelCase : string)
  : model_state :=
  match get fieldKey (mfields st) with
  | Some field =>
      if has_dot fieldKey then
        let relatedModelPackage := related_package fieldKey in
        let relatedModel := related_model fieldKey in
        let relatedFieldName := (relatedModel ++ "Id")%string in
        let same := String.eqb relatedModelPackage packageCamelCase in
        let relatedModelType := if same then relatedModel else fieldKey in
        let imports' := if same then imports st
                        else push_new (getLocalModelPackageStr relatedModelPackage) (imports st) in
        let fs1 := set relatedModel (cascade_field relatedModelType) (mfields st) in
        let fs2 := set relatedFieldName field fs1 in
        let field' := set "typeFromTypes" (VStr "uuid.UUID") field in
        let fs3 := set relatedFieldName field' (set fieldKey field' fs2) in
        mkModelState fs3 imports' (parentModel st)
      else st
  | None => st (* not reached: the loop has just stored the field *)
  end.

(** One iteration of the first field loop. *)
Definition loop1_step (packageCamelCase : string) (st : model_state) (fieldKey : string)
  : model_state :=
  match get fieldKey (mfields st) with
  | None => st
  | Some o =>
      let '(field, _) := createFieldVariables o in
      let st1 := mkModelState (set fieldKey field (mfields st)) (imports st) (parentModel st) in
      let st2 := createRelationShips st1 fieldKey packageCamelCase in
      updateField st2 field fieldKey
  end.

(** One iteration of the second field loop. *)
Definition loop2_step (st : model_state) (fieldKey : string) : model_state :=
  match get fieldKey (mfields st) with
  | None => st
  | Some o =>
      let '(field, imports') := resolve_field o (imports st) in
      let st1 := mkModelState (set fieldKey field (mfields st)) imports' (parentModel st) in
      updateField st1 field fieldKey
  end.

(** [allModelsWithHierarchyData[parent]]: create or push. *)
Definition record_child (parent child : string) (table : list (string * list string))
  : list (string * list string) :=
  match get parent table with
  | None => set parent [child] table
  | Some l => set parent (l ++ [child]) table
  end.

(** One model of [processModels]: both field loops and the side-table
    entry for [parentModel.value]. *)
Definition process_model (packageCamelCase model : string) (fields : list (string * obj))
  (table : list (string * list string)) : model_state * list (string * list string) :=
  let st0 := mkModelState fields [] None in
  let st1 := fold_left (loop1_step packageCamelCase) (keys fields) st0 in
  let st2 := fold_left loop2_step (keys (mfields st1)) st1 in
  let table' := match parentModel st2 with
                | Some p => if truthy (VStr p)
                            then record_child p (packageCamelCase ++ "." ++ model)%string table
                            else table
                | None => table
                end in
  (st2, table').

(** [s.replace(pat, rep)] for a regular expression matching the literal
    [pat]: the first occurrence only. *)
Fixpoint replace_first (pat rep s : string) : string :=
  if String.prefix pat s then (rep ++ substring (String.length pat) (String.length s - String.length pat) s)%string
  else match s with
       | EmptyString => EmptyString
       | String c s' => String c (replace_first pat rep s')
       end.

Definition includes (l : list string) (x : string) : bool := existsb (String.eqb x) l.

Definition isChild (table : list (string * list string)) (model : string) : bool :=
  existsb (fun item => includes item (replace_first "Models." "." model)) (map snd table).

Definition sortModelsByHierarchy (allModelStrs : list string)
  (table : list (string * list string)) : list string :=
  let phase1 := fold_left (fun sorted model =>
                  if isChild table model then sorted else sorted ++ [model]) allModelStrs [] in
  let pass (sorted : list string) :=
    fold_left (fun sorted model =>
      let '(numParents, parent) :=
        fold_left (fun '(n, p) kv =>
                     if includes (snd kv) (replace_first "Models." "." model)
                     then (S n, fst kv) else (n, p)) table (0%nat, "") in
      if (numParents =? 1)%nat && includes sorted (replace_first "." "Models." parent)
         && negb (includes sorted model)
      then sorted ++ [model] else sorted) allModelStrs sorted in
  let phase2 := Nat.iter 6 pass phase1 in
  fold_left (fun sorted model => if includes sorted model then sorted else sorted ++ [model])
    allModelStrs phase2.

Record processed := mkProcessed {
  rendered : list (string * string * model_state);
  allModelStrs : list string;
  allModelsWithHierarchyData : list (string * list string);
  sortedModels : list string
}.

(** The package and model loops of [processModels] on the parsed
    [models.json]; [None] when [packageCamelCase[0].toUpperCase()] throws
    on an empty camel-cased package name. *)
Definition processModels (modelsData : list (string * list (string * list (string * obj))))
  : option processed :=
  let res := foldM (fun acc package_ =>
    let '(rs, strs, table) := acc in
    let packageCamelCase := camelCase package_ in
    if String.eqb packageCamelCase "" then None else
    match get package_ modelsData with
    | None => Some acc
    | Some packageData =>
        Some (fold_left (fun acc model =>
          let '(rs, strs, table) := acc in
          match get model packageData with
          | None => acc
          | Some fields =>
              let '(st, table') := process_model packageCamelCase model fields table in
              (rs ++ [(package_, model, st)], strs ++ [(packageCamelCase ++ "Models." ++ model)%string], table')
          end) (keys packageData) (rs, strs, table))
    end) (keys modelsData) ([], [], []) in
  match res with
  | None => None
  | Some (rs, strs, table) =>
      let strs' := rev strs in
      Some (mkProcessed rs strs' table (sortModelsByHierarchy strs' table))
  end.

End ProcessModels.

(** Library stand-ins for the examples. *)
Definition sample_camelCase (s : string) : string := s.
Definition sample_num_of (v : val) : float := PrimFloat.nan.
Definition sample_to_str (v : val) : string := "".

(** [processModels]' per-model step with the stand-ins above. *)
Definition sample_process_model :=
  process_model "example.com/app" sample_num_of sample_to_str.

Definition sample_resolve_field (field : obj) : obj :=
  fst (resolve_field sample_num_of sample_to_str field []).

(** The last key of a list that contains a dot. *)
Definition last_dotted (ks : list string) : option string :=
  fold_left (fun p x => if has_dot x then Some x else p) ks None.

(* ------------------------------------------------------------------ *)
(** ** The fields reached by [forFields]

    [forFields] visits, for every sheet and every model of it, the values
    of the model's keys.  The same field object can be reached more than
    once (a partial's fields are shared by every model that includes it). *)

Definition model_fields (ms : gmap loc (list (string * loc))) (ml : loc) : list loc :=
  match ms !! ml with
  | Some modelData =>
      flat_map (fun x => match get x modelData with Some fl => [fl] | None => [] end)
        (keys modelData)
  | None => []
  end.

Definition reached (modelsData : root) (ms : gmap loc (list (string * loc))) : list loc :=
  flat_map (fun '(_, pkg) => flat_map (fun '(_, ml) => model_fields ms ml) pkg) modelsData.

(** Every model named by [modelsData] is in the store. *)
Definition models_present (modelsData : root) (ms : gmap loc (list (string * loc))) : bool :=
  forallb (fun '(_, pkg) => forallb (fun '(_, ml) => bool_decide (is_Some (ms !! ml))) pkg)
    modelsData.

(** The effect of [segregate_field] on one field object: the CRUD keys set
    to ["required"] or ["optional"] (in any case) leave the object and are
    gathered, lower-cased, in its new [api] object. *)
Definition is_crud (k : string) : bool := existsb (String.eqb (lower k)) crud_actions.

Definition api_moved (kv : string * val) : bool :=
  let '(k, v) := kv in
  is_crud k &&
  match v with
  | VStr b => existsb (String.eqb (lower b)) ["required"; "optional"]
  | _ => false
  end.

Definition lower_val (v : val) : val :=
  match v with VStr b => VStr (lower b) | _ => v end.

Definition api_of (moved : obj) : obj :=
  fold_left (fun a '(k, v) => set (lower k) (lower_val v) a) moved [].

Definition segregated (o : obj) : obj :=
  let rest := List.filter (fun kv => negb (api_moved kv)) o in
  match List.filter api_moved o with
  | [] => rest
  | moved => set "api" (VObj (api_of moved)) rest
  end.

(** A field object [segregate_field] can handle: every CRUD-named key holds
    a string (the code calls [toLocaleLowerCase] on it). *)
Definition crud_ok (o : obj) : bool :=
  forallb (fun '(k, v) => negb (is_crud k) || match v with VStr _ => true | _ => false end) o.

(** The effect of [replace_type] on one field object. *)
Definition typed (types : string -> option val) (o : obj) : obj :=
  match get "Type" o with
  | Some (VStr t) =>
      if truthy (VStr t) then
        match types (lower t) with
        | Some v => if truthy v then set "typeFromTypes" v o else o
        | None => o
        end
      else o
  | _ => o
  end.

(** A field object [replace_type] can handle: its [Type], when truthy, is a
    string. *)
Definition type_ok (o : obj) : bool :=
  match get "Type" o with
  | Some (VStr _) | None => true
  | Some T => negb (truthy T)
  end.

(** Sample stores: two models sharing the field object [1]; field [3] is
    not reached in [sample_store] and reached in [sample_bad_store]. *)
Definition sample_modelsData : root := [("users", [("User", 1%nat); ("Admin", 2%nat)])].

Definition sample_store : heap :=
  mkHeap (<[1%nat := [("id", 1%nat); ("name", 2%nat)]]> (<[2%nat := [("id", 1%nat)]]> ∅))
    (<[1%nat := [("Type", VStr "UUID"); ("Create", VStr "Required");
                 ("read", VStr "optional"); ("update", VStr "no")]]>
    (<[2%nat := [("Type", VStr "string"); ("Delete", VStr "OPTIONAL")]]>
    (<[3%nat := [("Type", VNum 1%float)]]> ∅))).

Definition sample_bad_store : heap :=
  mkHeap (<[1%nat := [("id", 1%nat); ("name", 2%nat)]]> (<[2%nat := [("id", 1%nat); ("age", 3%nat)]]> ∅))
    (fields sample_store).

Definition sample_types (t : string) : option val :=
  if String.eqb t "uuid" then Some (VStr "uuid.UUID")
  else if String.eqb t "string" then Some (VStr "string") else None.

(* ------------------------------------------------------------------ *)
(** ** Reading [go.mod], [config/config.go] and [docs/docs.go]

    A JavaScript string is a sequence of UTF-16 code units; a Rocq [string]
    here holds code units below 256.  On those, the class [\s] of a regular
    expression and the characters [String.prototype.trim] removes are the
    same: tab, line feed, vertical tab, form feed, carriage return, space and
    no-break space (160). *)

Definition is_ws (c : ascii) : bool :=
  let n := nat_of_ascii c in
  ((9 <=? n)%nat && (n <=? 13)%nat) || (n =? 32)%nat || (n =? 160)%nat.

(** The line terminators after which [^] matches in a multiline expression. *)
Definition is_line_terminator (c : ascii) : bool :=
  let n := nat_of_ascii c in (n =? 10)%nat || (n =? 13)%nat.

Definition LF : string := String (ascii_of_nat 10) EmptyString.
Definition CR : string := String (ascii_of_nat 13) EmptyString.

(** [s.split('\n')] *)
Fixpoint split_nl (s : string) : list string :=
  match s with
  | EmptyString => [EmptyString]
  | String c s' =>
      if Ascii.eqb c (ascii_of_nat 10) then EmptyString :: split_nl s'
      else match split_nl s' with
           | [] => [String c EmptyString]
           | w :: ws => String c w :: ws
           end
  end.

(** Regular expressions, matched as ECMAScript's backtracking matcher does:
    a matcher takes the input left and a continuation for the rest of the
    pattern, and returns the input left after the whole pattern. *)
Definition matcher : Type := string -> (string -> option string) -> option string.

(** [[...]*], greedy: the longest run is tried first, then shorter ones. *)
Fixpoint star (p : ascii -> bool) (s : string) (k : string -> option string) : option string :=
  match s with
  | String c s' =>
      if p c then match star p s' k with Some r => Some r | None => k s end
      else k s
  | EmptyString => k s
  end.

(** [[...]+] *)
Definition plus (p : ascii -> bool) : matcher := fun s k =>
  match s with
  | String c s' => if p c then star p s' k else None
  | EmptyString => None
  end.

(** A literal. *)
Definition lit (w : string) : matcher := fun s k =>
  if String.prefix w s
  then k (substring (String.length w) (String.length s - String.length w) s)
  else None.

(** [$] without the [m] flag. *)
Definition eoi : matcher := fun s k =>
  match s with EmptyString => k s | String _ _ => None end.

(** [s.replace(/^re/, '')]: the prefix the anchored expression matches is
    dropped; no match leaves [s] as it is. *)
Definition replace_anchored (re : matcher) (s : string) : string :=
  match re s Some with Some r => r | None => s end.

(** [s.replace(/re/, '')]: the first position where [re] matches. *)
Fixpoint replace_unanchored (re : matcher) (s : string) : string :=
  match re s Some with
  | Some r => r
  | None => match s with
            | String c s' => String c (replace_unanchored re s')
            | EmptyString => EmptyString
            end
  end.

Definition not_space (c : ascii) : bool := negb (Ascii.eqb c " ").

(** [removeModuleStrAndSpaces]: [line.replace(/^[^ ]+\s+/, '')]. *)
Definition removeModuleStrAndSpaces (line : string) : string :=
  replace_anchored (fun s k => plus not_space s (fun r => plus is_ws r k)) line.

(** [readFirstLine('./go.mod')]: the file's content, [None] when it cannot
    be read ([readFirstLine] then returns [null]). *)
Definition readFirstLine (data : option string) : option string :=
  option_map (fun d => hd EmptyString (split_nl d)) data.

Definition readModulePath (go_mod : option string) : string :=
  match readFirstLine go_mod with
  | Some firstLine =>
      if String.eqb firstLine "" then "" else removeModuleStrAndSpaces firstLine
  | None => ""
  end.

(** [String.prototype.trim] *)
Fixpoint ltrim (s : string) : string :=
  match s with
  | String c s' => if is_ws c then ltrim s' else s
  | EmptyString => EmptyString
  end.

Fixpoint rtrim (s : string) : string :=
  match s with
  | String c s' =>
      let r := rtrim s' in
      if String.eqb r "" && is_ws c then EmptyString else String c r
  | EmptyString => EmptyString
  end.

Definition trim (s : string) : string := rtrim (ltrim s).

Definition sp_tab (c : ascii) : bool := Ascii.eqb c " " || Ascii.eqb c (ascii_of_nat 9).

(** [/^[ \t]*cfgFileName[ \t]*=[ \t]*/] *)
Definition cfg_assign : matcher := fun s k =>
  star sp_tab s (fun r => lit "cfgFileName" r (fun r =>
    star sp_tab r (fun r => lit "=" r (fun r => star sp_tab r k)))).

(** [/[ \t]*$/] *)
Definition trailing_sp_tab : matcher := fun s k => star sp_tab s (fun r => eoi r k).

(** [s.replace(/\x22/g, '')]: every double quote removed. *)
Fixpoint remove_dq (s : string) : string :=
  match s with
  | String c s' => if Ascii.eqb c (ascii_of_nat 34) then remove_dq s' else String c (remove_dq s')
  | EmptyString => EmptyString
  end.

Definition cfg_value (line : string) : string :=
  replace_unanchored trailing_sp_tab (remove_dq (replace_anchored cfg_assign line)).

Fixpoint find_cfg (lines : list string) : option string :=
  match lines with
  | [] => None
  | line :: lines' =>
      if String.prefix "cfgFileName = " (trim line) then Some (cfg_value line) else find_cfg lines'
  end.

(** [findLinesStartingWithCfgFileName] on the content of
    [config/config.go]; [None] is the thrown ['cfgFileName not found']. *)
Definition findLinesStartingWithCfgFileName (fileContent : string) : option string :=
  find_cfg (split_nl fileContent).

(** [linesToComment] of [removeDelims]. *)
Definition right_delim : string := ("RightDelim:       " ++ dq ++ "}}" ++ dq ++ ",")%string.
Definition left_delim : string := ("LeftDelim:        " ++ dq ++ "{{" ++ dq ++ ",")%string.

(** [^\s*(RightDelim: ...|LeftDelim: ...)] *)
Definition delim_re : matcher := fun s k =>
  star is_ws s (fun r => match lit right_delim r k with
                         | Some x => Some x
                         | None => lit left_delim r k
                         end).

(** [content.replace(new RegExp(..., 'gm'), (match) => `// ${match}`)]:
    the scan goes left to right; [bol] says that the position is the start
    of the input or follows a line terminator (where [^] matches); after a
    match the scan resumes at its end ([skip] characters are copied). *)
Fixpoint comment_delims (skip : nat) (bol : bool) (s : string) : string :=
  let here := match skip with
              | O => if bol then delim_re s Some else None
              | S _ => None
              end in
  let skip' := match here with
               | Some r => String.length s - String.length r
               | None => skip
               end in
  ((if here then "// " else "") ++
   match s with
   | EmptyString => EmptyString
   | String c s' => String c (comment_delims (pred skip') (is_line_terminator c) s')
   end)%string.

(** [removeDelims] on the content of [docs/docs.go]. *)
Definition removeDelims (fileContent : string) : string := comment_delims 0 true fileContent.

(* ------------------------------------------------------------------ *)
(** ** [listModelPackages] and [createPackageVariables] *)

Definition modelImportStr (modulePath package_ : string) : string :=
  (package_ ++ "Models " ++ dq ++ modulePath ++ "/src/models/" ++ lower package_ ++ dq)%string.

(** [listModelPackages], given [Object.keys(readModelsData())] and
    [readModulePath()]. *)
Definition listModelPackages (packages : list string) (modulePath : string) : list string :=
  let modelImportStrs := fold_left (fun acc package_ => push_new (modelImportStr modulePath package_) acc)
                           packages [] in
  (dq ++ modulePath ++ "/config" ++ dq)%string :: modelImportStrs.

(** [String.prototype.toUpperCase] on ASCII text. *)
Definition upper_ascii (c : ascii) : ascii :=
  let n := nat_of_ascii c in
  if (97 <=? n)%nat && (n <=? 122)%nat then ascii_of_nat (n - 32) else c.

Fixpoint upper (s : string) : string :=
  match s with
  | EmptyString => EmptyString
  | String c s' => String (upper_ascii c) (upper s')
  end.

(** [s.slice(start)] *)
Definition js_slice (s : string) (start : Z) : string :=
  let n := Z.of_nat (String.length s) in
  let st := if (start <? 0)%Z then Z.max 0 (n + start) else Z.min start n in
  substring (Z.to_nat st) (String.length s - Z.to_nat st) s.

(** [packageTitleCase] of [createPackageVariables]:
    [packageCamelCase[0].toUpperCase() + packageCamelCase.slice(-(packageCamelCase.length - 1))];
    [None] on the empty string, where [packageCamelCase[0]] is [undefined]
    and the call throws. *)
Definition packageTitleCase (packageCamelCase : string) : option string :=
  match packageCamelCase with
  | EmptyString => None
  | String c _ =>
      Some (upper (String c EmptyString) ++
            js_slice packageCamelCase (- (Z.of_nat (String.length packageCamelCase) - 1)))%string
  end.

(** Every character of [s] satisfies [p]. *)
Fixpoint str_forall (p : ascii -> bool) (s : string) : bool :=
  match s with
  | EmptyString => true
  | String c s' => p c && str_forall p s'
  end.

(** A line of [docs.go] that [linesToComment] lists: after its indentation
    it starts with one of the two delimiter lines. *)
Definition is_delim_line (l : string) : bool :=
  String.prefix right_delim (ltrim l) || String.prefix left_delim (ltrim l).

Definition comment_line (l : string) : string :=
  if is_delim_line l then ("// " ++ l)%string else l.

(** Helpers for string shapes used by the properties below. *)
Definition head_not (p : ascii -> bool) (s : string) : Prop :=
  match s with String c _ => p c = false | EmptyString => True end.

Definition no_lf (s : string) : bool := str_forall (fun c => negb (Ascii.eqb c (ascii_of_nat 10))) s.

Definition no_dq (c : ascii) : bool := negb (Ascii.eqb c (ascii_of_nat 34)).

Definition no_trailing (v : string) : Prop :=
  forall u c, v = (u ++ String c "")%string -> sp_tab c = false.

Definition no_lt (s : string) : bool := str_forall (fun c => negb (is_line_terminator c)) s.

Definition tail_ok (t : string) : Prop :=
  t = "" \/ exists c t', t = String c t' /\ is_line_terminator c = true.

Definition delim_alt (r : string) : option string :=
  match lit right_delim r Some with Some x => Some x | None => lit left_delim r Some end.

(* ================================================================== *)
(** * Properties *)

(** The spec's end-to-end example, run with a registry without entries. *)
Example users_wb_json :
  xlsxToJSON sample_num_to_string (fun _ => None) users_wb = Some (VObj
    [("users", VObj [("User", VObj
       [("name", VObj [("api", VObj [("create", VStr "required"); ("read", VStr "required")])])])])],
   VObj [("users", VObj [("User", VObj
       [("create", VArr [VStr "name"]); ("read", VArr [VStr "name"])])])]).
Proof. vm_compute. reflexivity. Qed.

Example users_wb_extract :
  getModelsDataAndPartialsFromWorkbook sample_num_to_string users_wb =
  Some ([("users", [("User",
     [("id", [("Field", VStr "id"); ("Type", VStr "uuid"); ("Primary", VBool true)]);
      ("name", [("Field", VStr "name"); ("Type", VStr "string"); ("Create", VStr "required"); ("Read", VStr "required")]);
      ("createdAt", [("Field", VStr "createdAt"); ("Type", VStr "time"); ("AutoCreate", VBool true)])])])], []).
Proof. reflexivity. Qed.

(** ** Object lemmas *)

Lemma get_set {V} (k k' : string) (v : V) (o : list (string * V)) :
  get k (set k' v o) = if String.eqb k k' then Some v else get k o.
Proof.
  induction o as [|[k0 v0] o IH]; simpl; [reflexivity|].
  destruct (String.eqb_spec k' k0) as [->|Hne]; simpl.
  - destruct (String.eqb k k0); reflexivity.
  - destruct (String.eqb_spec k k0) as [->|Hne2].
    + destruct (String.eqb_spec k0 k') as [->|]; [congruence|reflexivity].
    + exact IH.
Qed.

Lemma keys_del {V} (k : string) (o : list (string * V)) :
  keys (del k o) = List.filter (fun c => negb (String.eqb k c)) (keys o).
Proof.
  induction o as [|[k0 v0] o IH]; simpl; [reflexivity|].
  destruct (String.eqb k k0); simpl; rewrite ?IH; reflexivity.
Qed.

Lemma fold_push (f : string -> bool) (l acc : list string) :
  fold_left (fun acc x => if f x then (acc ++ [x])%list else acc) l acc
  = (acc ++ List.filter f l)%list.
Proof.
  revert acc; induction l as [|x l IH]; intros acc; simpl.
  - rewrite app_nil_r; reflexivity.
  - destruct (f x); rewrite IH; [|reflexivity].
    rewrite <- app_assoc; reflexivity.
Qed.

Lemma foldM_ind {A B} (P : A -> Prop) (Q : B -> Prop) (f : A -> B -> option A)
  (l : list B) (a a' : A) :
  (forall x y y', Q y -> P x -> f x y = Some y' -> P y') ->
  (forall y, In y l -> Q y) ->
  P a -> foldM f l a = Some a' -> P a'.
Proof.
  intros Hstep; revert a; induction l as [|y l IH]; intros a HQ Ha Hf; simpl in Hf.
  - congruence.
  - destruct (f a y) as [a1|] eqn:E; [|discriminate].
    eapply IH; [intros; apply HQ; simpl; auto| |exact Hf].
    eapply Hstep; [apply HQ; simpl; auto|exact Ha|exact E].
Qed.

(** ** Sheet classification *)

(** C10: classifying sheets is total: with no sheet names nothing is a
    model sheet, a sheet without rows is never one, and a sheet is one
    exactly when the first key of its first row is ["Model"]. *)
Theorem getSheetsHavingModels_classification (wb : workbook) (n : string) :
  (default [] (SheetNames wb) = [] -> getSheetsHavingModels wb = []) /\
  (sheet_to_json wb n = [] -> ~ In n (getSheetsHavingModels wb)) /\
  (In n (getSheetsHavingModels wb) <->
     In n (default [] (SheetNames wb)) /\
     firstFieldName (sheet_to_json wb n) = Some "Model").
Proof.
  unfold getSheetsHavingModels; rewrite fold_push; simpl.
  assert (Hcl : isModelSheet (sheet_to_json wb n) = true <->
                firstFieldName (sheet_to_json wb n) = Some "Model").
  { unfold isModelSheet; destruct (firstFieldName _) as [k|].
    - rewrite String.eqb_eq; split; congruence.
    - split; discriminate. }
  split; [|split].
  - intros ->; reflexivity.
  - intros Hrows Hin. apply filter_In in Hin as [_ Hm].
    unfold isModelSheet in Hm; rewrite Hrows in Hm; discriminate.
  - rewrite filter_In, Hcl; tauto.
Qed.

(** ** Extraction *)

Section ExtractionProps.

Variable num_to_string : float -> string.
Variable wb : workbook.

(** A stored object comes from a row of sheet [s], stored under its
    [Field] key, with only the [Model] column deleted. *)
Definition from_row (s x : string) (o : obj) : Prop :=
  exists item, In item (sheet_to_json wb s) /\ o = del "Model" item /\
               x = to_key num_to_string (get "Field" item).

Definition ext_inv (st : extraction) : Prop :=
  (forall s k x o, lookup3 (modelsData st) s k x = Some o -> from_row s x o) /\
  (forall k x o, lookup2 (partials st) k x = Some o -> from_row "partials" x o).

Ltac eqb_cases :=
  repeat match goal with
         | |- context [String.eqb ?a ?b] => destruct (String.eqb_spec a b); subst
         | H : context [String.eqb ?a ?b] |- _ => destruct (String.eqb_spec a b); subst
         end.

Lemma open_model_inv (s : string) (st : extraction) (M : option val) :
  ext_inv st -> ext_inv (open_model num_to_string s st M).
Proof.
  intros [Hm Hp]. unfold open_model.
  destruct M as [m|]; [|split; assumption].
  destruct (truthy m); [|split; assumption].
  destruct (String.eqb s "partials").
  - split; [exact Hm|]. intros k x o; unfold lookup2; simpl.
    rewrite get_set. destruct (String.eqb k _); [discriminate|apply Hp].
  - split; [|exact Hp]. intros s' k x o; unfold lookup3; simpl.
    rewrite get_set. destruct (String.eqb_spec s' s) as [->|Hne].
    + rewrite get_set. destruct (String.eqb k _); [discriminate|].
      intros H. apply (Hm s k x o). unfold lookup3.
      destruct (get s (modelsData st)) as [pkg|] eqn:E; simpl in *.
      * rewrite E in H; exact H.
      * rewrite get_set, String.eqb_refl in H; discriminate.
    + intros H; apply (Hm s' k x o). unfold lookup3.
      destruct (get s (modelsData st)) as [pkg|] eqn:E; [exact H|].
      rewrite get_set in H. apply String.eqb_neq in Hne; rewrite Hne in H; exact H.
Qed.

Lemma store_item_inv (s : string) (st1 st' : extraction) (F : option val) (it : row) :
  ext_inv st1 ->
  (exists item, In item (sheet_to_json wb s) /\ it = del "Model" item /\
                F = get "Field" item) ->
  store_item num_to_string s st1 F it = Some st' -> ext_inv st'.
Proof.
  intros [Hm Hp] (item & Hin & -> & ->). unfold store_item.
  destruct (String.eqb_spec s "partials") as [->|Hne].
  - destruct (get (modelKey st1) (partials st1)) as [p|] eqn:E; [|discriminate].
    intros Heq; injection Heq as <-. split; [exact Hm|].
    intros k x o; unfold lookup2; simpl. rewrite get_set.
    destruct (String.eqb_spec k (modelKey st1)) as [->|Hk].
    + rewrite get_set. destruct (String.eqb_spec x (to_key num_to_string (get "Field" item))) as [->|Hx].
      * intros H; injection H as <-. exists item; auto.
      * intros H; apply (Hp (modelKey st1) x o); unfold lookup2; rewrite E; exact H.
    + apply Hp.
  - destruct (get s (modelsData st1)) as [pkg|] eqn:E1; [|discriminate].
    destruct (get (modelKey st1) pkg) as [m|] eqn:E2; [|discriminate].
    intros Heq; injection Heq as <-. split; [|exact Hp].
    intros s' k x o; unfold lookup3; simpl. rewrite get_set.
    destruct (String.eqb_spec s' s) as [->|Hs].
    + rewrite get_set. destruct (String.eqb_spec k (modelKey st1)) as [->|Hk].
      * rewrite get_set. destruct (String.eqb_spec x (to_key num_to_string (get "Field" item))) as [->|Hx].
        -- intros H; injection H as <-. exists item; auto.
        -- intros H; apply (Hm s (modelKey st1) x o); unfold lookup3; rewrite E1, E2; exact H.
      * intros H; apply (Hm s k x o); unfold lookup3; rewrite E1; exact H.
    + apply Hm.
Qed.

Lemma extract_item_inv (s : string) (st st' : extraction) (item : row) :
  In item (sheet_to_json wb s) -> ext_inv st ->
  extract_item num_to_string s st item = Some st' -> ext_inv st'.
Proof.
  intros Hin Hinv. unfold extract_item.
  apply store_item_inv; [apply open_model_inv; exact Hinv|].
  exists item; auto.
Qed.

Lemma extraction_inv (md : list (string * list (string * list (string * obj))))
  (ps : list (string * list (string * obj))) :
  getModelsDataAndPartialsFromWorkbook num_to_string wb = Some (md, ps) ->
  ext_inv (mkExtraction md ps "").
Proof.
  unfold getModelsDataAndPartialsFromWorkbook.
  destruct (foldM _ _ _) as [st|] eqn:E; [|discriminate].
  intros H; injection H as <- <-.
  assert (Hst : ext_inv st).
  { eapply (foldM_ind ext_inv (fun _ => True)); [| | |exact E].
    - intros st0 s st1 _ Hinv Hs. unfold extract_sheet in Hs.
      eapply (foldM_ind ext_inv (fun it => In it (sheet_to_json wb s))); [| |exact Hinv|exact Hs].
      + intros a it a' Hit Ha Hf. eapply extract_item_inv; eauto.
      + intros; assumption.
    - intros; exact I.
    - split; intros; unfold lookup3, lookup2 in *; simpl in *; discriminate. }
  destruct Hst as [H1 H2]; split; assumption.
Qed.

End ExtractionProps.

(** C2 (counterexample): in the users sheet the map stored under [id]
    still has the [Field] column, so its keys are not the row's columns
    minus [Model] and [Field]. *)
Lemma stored_field_map_keeps_Field :
  exists md ps o,
    getModelsDataAndPartialsFromWorkbook sample_num_to_string users_wb = Some (md, ps) /\
    lookup3 md "users" "User" "id" = Some o /\
    keys o = ["Field"; "Type"; "Primary"] /\
    keys o <> List.filter (fun c => negb (String.eqb c "Model") && negb (String.eqb c "Field"))
                (keys (hd [] users_sheet)).
Proof.
  eexists _, _, _; split; [reflexivity|]. split; [reflexivity|].
  split; [reflexivity|]. simpl. discriminate.
Qed.

(** C2 (amended): every property map stored in the raw schema, or in the
    partial bundle, is a row of that sheet with only its [Model] column
    deleted, stored under the row's [Field] key: its keys are the row's
    column names minus [Model], the [Field] column being kept. *)
Theorem extraction_strips_only_Model (num_to_string : float -> string) (wb : workbook)
  (md : list (string * list (string * list (string * obj))))
  (ps : list (string * list (string * obj)))
  (H : getModelsDataAndPartialsFromWorkbook num_to_string wb = Some (md, ps)) :
  (forall s k x o, lookup3 md s k x = Some o ->
     exists item, In item (sheet_to_json wb s) /\ o = del "Model" item /\
       keys o = List.filter (fun c => negb (String.eqb "Model" c)) (keys item) /\
       x = to_key num_to_string (get "Field" item)) /\
  (forall k x o, lookup2 ps k x = Some o ->
     exists item, In item (sheet_to_json wb "partials") /\ o = del "Model" item /\
       keys o = List.filter (fun c => negb (String.eqb "Model" c)) (keys item) /\
       x = to_key num_to_string (get "Field" item)).
Proof.
  destruct (extraction_inv num_to_string wb md ps H) as [Hm Hp]; simpl in *.
  split.
  - intros s k x o Hl. destruct (Hm s k x o Hl) as (item & Hin & -> & ->).
    exists item; rewrite keys_del; auto.
  - intros k x o Hl. destruct (Hp k x o Hl) as (item & Hin & -> & ->).
    exists item; rewrite keys_del; auto.
Qed.

Lemma extraction_strips_only_Model_witness :
  getModelsDataAndPartialsFromWorkbook sample_num_to_string users_wb =
    Some (modelsData (mkExtraction [("users", [("User",
     [("id", [("Field", VStr "id"); ("Type", VStr "uuid"); ("Primary", VBool true)]);
      ("name", [("Field", VStr "name"); ("Type", VStr "string"); ("Create", VStr "required"); ("Read", VStr "required")]);
      ("createdAt", [("Field", VStr "createdAt"); ("Type", VStr "time"); ("AutoCreate", VBool true)])])])] [] ""), []) /\
  lookup3 (modelsData (mkExtraction [("users", [("User",
     [("id", [("Field", VStr "id"); ("Type", VStr "uuid"); ("Primary", VBool true)]);
      ("name", [("Field", VStr "name"); ("Type", VStr "string"); ("Create", VStr "required"); ("Read", VStr "required")]);
      ("createdAt", [("Field", VStr "createdAt"); ("Type", VStr "time"); ("AutoCreate", VBool true)])])])] [] ""))
     "users" "User" "id" = Some [("Field", VStr "id"); ("Type", VStr "uuid"); ("Primary", VBool true)] /\
  exists item, In item (sheet_to_json users_wb "users") /\
     [("Field", VStr "id"); ("Type", VStr "uuid"); ("Primary", VBool true)] = del "Model" item.
Proof.
  split; [reflexivity|]. split; [reflexivity|].
  destruct (extraction_strips_only_Model sample_num_to_string users_wb _ _ eq_refl) as [Hm _].
  destruct (Hm "users" "User" "id" _ eq_refl) as (item & Hin & Heq & _ & _).
  exists item; split; [exact Hin|exact Heq].
Defined.

(** ** The compiled schema document (models.json) *)

Definition c1_sheet : list row :=
  [ [("Model", VStr "User"); ("Field", VStr "name"); ("MaximumLength", VNum 50%float);
     ("DefaultValue", VStr "anon"); ("Create", VStr "required")];
    [("Field", VStr "bio"); ("MaximumLength", VNum 200%float)] ].

Definition c1_wb : workbook := mkWorkbook (Some ["users"]) [("users", c1_sheet)].

(** C1 (code bug): [Object.assign({}, modelsData)] is a shallow copy, so
    the stripping done for the route schema also strips [modelsData]: in
    models.json the field [name] keeps only its [api] object (its
    [MaximumLength], [DefaultValue] and [Field] are gone) and the field
    [bio], which has no [api] object, is missing; this for every registry. *)
Theorem models_json_keeps_only_api (types : string -> option val) :
  xlsxToJSON sample_num_to_string types c1_wb = Some (VObj
    [("users", VObj [("User", VObj
       [("name", VObj [("api", VObj [("create", VStr "required")])])])])],
   VObj [("users", VObj [("User", VObj [("create", VArr [VStr "name"])])])]).
Proof. vm_compute. reflexivity. Qed.

(** ** Partials *)

Definition c3_sheet : list row :=
  [ [("Model", VStr "User"); ("Field", VStr "partials.Base")];
    [("Field", VStr "name"); ("Create", VStr "required")] ].

Definition c3_wb : workbook := mkWorkbook (Some ["users"]) [("users", c3_sheet)].

(** C3 (counterexample): a model including [partials.Base] while the
    workbook has no partial [Base]: the run throws ([Object.keys(undefined)]
    in fillPartials), whatever the registry. *)
Lemma unresolved_partial_throws_example :
  xlsxToJSON sample_num_to_string (fun _ => None) c3_wb = None /\
  getModelsDataAndPartialsFromWorkbook sample_num_to_string c3_wb =
    Some ([("users", [("User", [("partials.Base", [("Field", VStr "partials.Base")]);
                                ("name", [("Field", VStr "name"); ("Create", VStr "required")])])])], []).
Proof. split; vm_compute; reflexivity. Qed.

Lemma bind_some {A B} (m : M A) (f : A -> M B) (h h' : heap) (b : B) :
  bind m f h = Some (b, h') ->
  exists a h1, m h = Some (a, h1) /\ f a h1 = Some (b, h').
Proof.
  unfold bind. destruct (m h) as [[a h1]|]; [|discriminate]. eauto.
Qed.

Lemma foldlM_inv {A B} (I : A -> heap -> Prop) (f : A -> B -> M A) (l : list B)
  (a a' : A) (h h' : heap) :
  (forall a b h a' h', In b l -> I a h -> f a b h = Some (a', h') -> I a' h') ->
  I a h -> foldlM f l a h = Some (a', h') -> I a' h'.
Proof.
  revert a h; induction l as [|b l IH]; intros a h Hstep Ha Hf; simpl in Hf.
  - unfold ret in Hf; injection Hf as -> ->; exact Ha.
  - apply bind_some in Hf as (a1 & h1 & E1 & E2).
    eapply IH; [intros; eapply Hstep; eauto; right; eauto| |exact E2].
    eapply Hstep; [left; reflexivity|exact Ha|exact E1].
Qed.

(** A fold throws when it reaches a [bad] element with its invariant, the
    steps before keeping the invariant. *)
Lemma foldlM_throws {A B} (I : A -> heap -> Prop) (bad : B -> bool)
  (f : A -> B -> M A) (l : list B) (a : A) (h : heap) :
  (forall a b h a' h', bad b = false -> I a h -> f a b h = Some (a', h') -> I a' h') ->
  (forall a b h, bad b = true -> I a h -> f a b h = None) ->
  existsb bad l = true -> I a h -> foldlM f l a h = None.
Proof.
  intros Hstep Hbad; revert a h; induction l as [|b l IH]; intros a h Hex Ha;
    simpl in Hex; [discriminate|].
  simpl; unfold bind.
  destruct (bad b) eqn:Eb.
  - rewrite (Hbad a b h Eb Ha); reflexivity.
  - destruct (f a b h) as [[a1 h1]|] eqn:E; [|reflexivity].
    apply IH; [exact Hex|]. eapply Hstep; eauto.
Qed.

Lemma get_existsb_keys {V} (k : string) (o : list (string * V)) (v : V) :
  get k o = Some v -> existsb (fun b => String.eqb b k) (keys o) = true.
Proof.
  induction o as [|[k0 v0] o IH]; simpl; [discriminate|].
  destruct (String.eqb_spec k k0) as [->|Hne].
  - rewrite String.eqb_refl; reflexivity.
  - intros H; rewrite (IH H), orb_true_r; reflexivity.
Qed.

Lemma alloc_model_keeps (x : list (string * loc)) (h h' : heap) (l ml : loc)
  (m : list (string * loc)) :
  models h !! ml = Some m -> alloc_model x h = Some (l, h') -> models h' !! ml = Some m.
Proof.
  unfold alloc_model; intros Hm Ha; injection Ha as <- <-; simpl.
  rewrite lookup_insert_ne; [exact Hm|].
  intros Heq. apply (is_fresh (dom (models h))). rewrite Heq.
  apply elem_of_dom; eauto.
Qed.

Lemma fill_key_heap (ps : list (string * list (string * loc))) (model r r' : list (string * loc))
  (key : string) (h h' : heap) :
  fill_key ps model r key h = Some (r', h') -> h' = h.
Proof.
  unfold fill_key, ret, throw.
  destruct (strip_partials key) as [name|].
  - destruct (get name ps); [congruence|].
    destruct (existsb _ _); congruence.
  - destruct (get key model); congruence.
Qed.

Lemma fill_model_keeps (ps : list (string * list (string * loc))) (pkg pkg' : list (string * loc))
  (b : string) (h h' : heap) (ml : loc) (m : list (string * loc)) :
  models h !! ml = Some m -> fill_model ps pkg b h = Some (pkg', h') ->
  models h' !! ml = Some m /\ (forall k, k <> b -> get k pkg' = get k pkg).
Proof.
  intros Hm. unfold fill_model.
  destruct (get b pkg) as [ml'|].
  - intros H. apply bind_some in H as (model & h1 & E1 & H).
    unfold read_model in E1. destruct (models h !! ml'); [|discriminate].
    injection E1 as <- <-.
    apply bind_some in H as (retModel & h2 & E2 & H).
    assert (h2 = h) as ->.
    { apply (foldlM_inv (fun _ h' => h' = h) _ _ _ _ _ _ (fun a b0 h0 a' h0' _ Ha Hf =>
        eq_trans (fill_key_heap _ _ _ _ _ _ _ Hf) Ha) eq_refl E2). }
    apply bind_some in H as (l0 & h3 & E3 & H).
    unfold ret in H; injection H as <- <-.
    split; [eapply alloc_model_keeps; eauto|].
    intros k Hk. rewrite get_set. apply String.eqb_neq in Hk; rewrite Hk; reflexivity.
  - unfold ret; intros H; injection H as <- <-. auto.
Qed.

Lemma fill_model_throws (ps : list (string * list (string * loc))) (pkg : list (string * loc))
  (k key name : string) (h : heap) (ml : loc) (m : list (string * loc)) :
  get k pkg = Some ml -> models h !! ml = Some m -> In key (keys m) ->
  strip_partials key = Some name -> get name ps = None ->
  existsb (String.eqb name) object_prototype_names = false ->
  fill_model ps pkg k h = None.
Proof.
  intros Hk Hm Hkey Hname Hps Hproto. unfold fill_model. rewrite Hk.
  unfold bind at 1, read_model. rewrite Hm.
  unfold bind at 1.
  rewrite (foldlM_throws (fun _ _ => True) (fun b => String.eqb b key)); [reflexivity| | | |exact I].
  - intros; exact I.
  - intros a b h0 Hb _. apply String.eqb_eq in Hb as ->.
    unfold fill_key. rewrite Hname, Hps, Hproto. reflexivity.
  - apply existsb_exists. exists key; split; [exact Hkey|apply String.eqb_refl].
Qed.

(** C3 (amended): a model whose field keys include [partials.X], where [X]
    names no partial of the bundle and is not a property inherited from
    [Object.prototype], makes PartialResolver throw: the run aborts. *)
Theorem fillPartials_throws_on_unresolved (md : root)
  (ps : list (string * list (string * loc))) (h : heap)
  (s k key name : string) (pkg m : list (string * loc)) (ml : loc)
  (Hs : get s md = Some pkg) (Hk : get k pkg = Some ml)
  (Hm : models h !! ml = Some m) (Hkey : In key (keys m))
  (Hname : strip_partials key = Some name) (Hps : get name ps = None)
  (Hproto : ~ In name object_prototype_names) :
  fillPartials md ps h = None.
Proof.
  assert (Hp : existsb (String.eqb name) object_prototype_names = false).
  { apply not_true_iff_false; intros Hx. apply existsb_exists in Hx as (y & Hy & Hey).
    apply String.eqb_eq in Hey as ->. contradiction. }
  unfold fillPartials.
  apply (foldlM_throws (fun mdc hc => get s mdc = Some pkg /\ models hc !! ml = Some m)
           (fun b => String.eqb b s)).
  - intros mdc b hc mdc' hc' Hb [Hgs Hml] Hf.
    destruct (get b mdc) as [pkgb|].
    + apply bind_some in Hf as (pkg' & h1 & E1 & E2).
      unfold ret in E2; injection E2 as <- <-.
      split.
      * rewrite get_set. apply String.eqb_neq in Hb.
        destruct (String.eqb_spec s b); [congruence|exact Hgs].
      * apply (foldlM_inv (fun _ hc => models hc !! ml = Some m) _ _ _ _ _ _
                 (fun a b0 h0 a' h0' _ Ha Hf0 => proj1 (fill_model_keeps _ _ _ _ _ _ _ _ Ha Hf0))
                 Hml E1).
    + unfold ret in Hf; injection Hf as <- <-. auto.
  - intros mdc b hc Hb [Hgs Hml]. apply String.eqb_eq in Hb as ->. rewrite Hgs.
    unfold bind at 1.
    rewrite (foldlM_throws (fun pkgc hc => get k pkgc = Some ml /\ models hc !! ml = Some m)
               (fun b => String.eqb b k)); [reflexivity| | | |auto].
    + intros pkgc b hc0 pkgc' hc0' Hb' [Hgk Hml0] Hf.
      destruct (fill_model_keeps _ _ _ _ _ _ _ _ Hml0 Hf) as [Hml1 Hget].
      split; [|exact Hml1]. rewrite Hget; [exact Hgk|].
      intros ->. rewrite String.eqb_refl in Hb'. discriminate.
    + intros pkgc b hc0 Hb' [Hgk Hml0]. apply String.eqb_eq in Hb' as ->.
      eapply fill_model_throws; eauto.
    + eapply get_existsb_keys; exact Hk.
  - eapply get_existsb_keys; exact Hs.
  - auto.
Qed.

Lemma fillPartials_throws_on_unresolved_witness :
  fillPartials [("users", [("User", 0%nat)])] []
    (mkHeap {[ 0%nat := [("partials.Base", 0%nat); ("name", 1%nat)] ]} empty) = None.
Proof.
  apply (fillPartials_throws_on_unresolved _ _ _ "users" "User" "partials.Base" "Base"
           [("User", 0%nat)] [("partials.Base", 0%nat); ("name", 1%nat)] 0%nat).
  - reflexivity.
  - reflexivity.
  - reflexivity.
  - simpl; left; reflexivity.
  - reflexivity.
  - reflexivity.
  - simpl. intuition discriminate.
Defined.

(** ** Route projection *)

Lemma del_as_filter {V} (k : string) (o : list (string * V)) :
  del k o = List.filter (fun kv => negb (String.eqb k (fst kv))) o.
Proof.
  induction o as [|[k0 v0] o IH]; simpl; [reflexivity|].
  destruct (String.eqb k k0); simpl; rewrite IH; reflexivity.
Qed.

Lemma nodup_keys_NoDup {V} (o : list (string * V)) :
  nodup_keys o = true -> List.NoDup (keys o).
Proof.
  induction o as [|[k v] o IH]; simpl; intros H; [constructor|].
  apply andb_true_iff in H as [H1 H2]. constructor; [|exact (IH H2)].
  intros Hin. apply negb_true_iff in H1.
  assert (existsb (String.eqb k) (keys o) = true) as Hx.
  { apply existsb_exists; exists k; split; [exact Hin|apply String.eqb_refl]. }
  congruence.
Qed.

Lemma in_keys_get {V} (x : string) (o : list (string * V)) :
  In x (keys o) <-> exists v, get x o = Some v.
Proof.
  induction o as [|[k v] o IH]; simpl.
  - split; [intros []|intros (? & ?); discriminate].
  - destruct (String.eqb_spec x k) as [->|Hne].
    + split; [eauto|auto].
    + rewrite <- IH. split; [intros [->|H]; [congruence|exact H]|auto].
Qed.

Lemma get_In {V} (x : string) (o : list (string * V)) (v : V) :
  get x o = Some v -> In (x, v) o.
Proof.
  induction o as [|[k w] o IH]; simpl; [discriminate|].
  destruct (String.eqb_spec x k) as [->|]; [intros H; injection H as ->; auto|].
  intros H; right; exact (IH H).
Qed.

Lemma In_get_nodup {V} (x : string) (o : list (string * V)) (v : V) :
  List.NoDup (keys o) -> In (x, v) o -> get x o = Some v.
Proof.
  induction o as [|[k w] o IH]; simpl; [intros _ []|].
  intros Hnd Hin. inversion Hnd as [|? ? Hk Hnd']; subst.
  destruct Hin as [Heq|Hin].
  - injection Heq as -> ->. rewrite String.eqb_refl; reflexivity.
  - destruct (String.eqb_spec x k) as [->|]; [|exact (IH Hnd' Hin)].
    exfalso; apply Hk. change k with (fst (k, v)). apply in_map; exact Hin.
Qed.

Lemma keys_filter_NoDup {V} (P : string * V -> bool) (o : list (string * V)) :
  List.NoDup (keys o) -> List.NoDup (keys (List.filter P o)).
Proof.
  induction o as [|[k w] o IH]; simpl; intros Hnd; [constructor|].
  inversion Hnd as [|? ? Hk Hnd']; subst.
  destruct (P (k, w)); simpl; [|exact (IH Hnd')].
  constructor; [|exact (IH Hnd')].
  intros Hin; apply Hk. unfold keys in *. apply in_map_iff in Hin as ([k' w'] & <- & Hin).
  apply filter_In in Hin as [Hin _]. change k' with (fst (k', w')). apply in_map; exact Hin.
Qed.

Lemma get_api_only (o : obj) : get "api" (api_only o) = get "api" o.
Proof.
  induction o as [|[k v] o IH]; [reflexivity|]. unfold api_only in *.
  cbn -[String.eqb]. destruct (String.eqb_spec k "api") as [->|Hne]; cbn -[String.eqb].
  - rewrite String.eqb_refl; reflexivity.
  - rewrite IH. destruct (String.eqb_spec "api" k); [congruence|reflexivity].
Qed.

Lemma filter_filter' {A} (p q : A -> bool) (l : list A) :
  List.filter p (List.filter q l) = List.filter (fun x => q x && p x) l.
Proof.
  induction l as [|x l IH]; simpl; [reflexivity|].
  destruct (q x); simpl; [destruct (p x); simpl|]; rewrite IH; reflexivity.
Qed.

Lemma filter_all {A} (p : A -> bool) (l : list A) :
  (forall x, In x l -> p x = true) -> List.filter p l = l.
Proof.
  induction l as [|x l IH]; simpl; intros H; [reflexivity|].
  rewrite (H x (or_introl eq_refl)), IH; [reflexivity|intros; apply H; auto].
Qed.

Lemma api_only_idem (o : obj) : api_only (api_only o) = api_only o.
Proof.
  unfold api_only. rewrite filter_filter'.
  apply filter_ext_in; intros; apply Bool.andb_diag.
Qed.

Lemma api_only_nil (o : obj) : api_only o = [] <-> get "api" o = None.
Proof.
  induction o as [|[k v] o IH]; [split; auto|]. unfold api_only in *.
  cbn -[String.eqb]. destruct (String.eqb_spec k "api") as [->|Hne]; cbn -[String.eqb].
  - rewrite String.eqb_refl. split; discriminate.
  - rewrite IH. destruct (String.eqb_spec "api" k); [congruence|reflexivity].
Qed.

Lemma filterM_ok (p : string -> M bool) (pb : string -> bool) (l : list string) (hc : heap) :
  (forall x, In x l -> p x hc = Some (pb x, hc)) ->
  filterM p l hc = Some (List.filter pb l, hc).
Proof.
  induction l as [|x l IH]; simpl; intros H; [reflexivity|].
  unfold bind. rewrite (H x (or_introl eq_refl)).
  rewrite IH; [|intros; apply H; auto].
  unfold ret; destruct (pb x); reflexivity.
Qed.

Lemma get_fold_set {V} (f : string -> V) (ks : list string) (r : list (string * V)) (k : string) :
  get k (fold_left (fun r k' => set k' (f k') r) ks r) =
  if existsb (String.eqb k) ks then Some (f k) else get k r.
Proof.
  revert r; induction ks as [|k' ks IH]; intros r; simpl; [reflexivity|].
  rewrite IH, get_set. destruct (String.eqb_spec k k') as [->|]; simpl.
  - destruct (existsb _ _); reflexivity.
  - reflexivity.
Qed.

(** The decimal digits of an array index never spell an action name. *)
Lemma dec_string_shape (fuel n : nat) :
  dec_string fuel n = EmptyString \/
  exists d rest, (d < 10)%nat /\ dec_string fuel n = String (digit d) rest.
Proof.
  revert n; induction fuel as [|fuel IH]; intros n; cbn [dec_string]; [left; reflexivity|].
  destruct (Nat.ltb_spec n 10).
  - right. exists n, EmptyString. split; [exact H|reflexivity].
  - right. destruct (IH (n / 10)) as [->|(d & rest & Hd & ->)].
    + exists (n mod 10), EmptyString. split; [apply Nat.mod_upper_bound; lia|reflexivity].
    + exists d, (rest ++ String (digit (n mod 10)) EmptyString)%string. split; [exact Hd|reflexivity].
Qed.

Lemma index_key_not_action (i : nat) (a : string) :
  In a crud_actions -> index_key i <> a.
Proof.
  intros Ha Heq. unfold index_key in Heq.
  destruct (dec_string_shape (S i) i) as [He|(d & rest & Hd & He)]; rewrite He in Heq.
  - subst a. simpl in Ha. intuition discriminate.
  - subst a. assert (Hn : nat_of_ascii (digit d) = (48 + d)%nat).
    { unfold digit. apply nat_ascii_embedding. lia. }
    simpl in Ha. destruct Ha as [Ha|[Ha|[Ha|[Ha|[]]]]]; injection Ha as Hc _;
      rewrite <- Hc in Hn; vm_compute in Hn; lia.
Qed.

Lemma js_keys_action (v : val) (a : string) :
  In a crud_actions ->
  (existsb (String.eqb a) (js_keys v) = true <->
   exists o, v = VObj o /\ In a (keys o)).
Proof.
  intros Ha. rewrite existsb_exists.
  split.
  - intros (y & Hy & Hey). apply String.eqb_eq in Hey as <-.
    destruct v as [s|f|b|o|arr]; simpl in Hy.
    + apply in_map_iff in Hy as (i & Hi & _). exfalso; exact (index_key_not_action i a Ha Hi).
    + destruct Hy.
    + destruct Hy.
    + exists o; auto.
    + apply in_map_iff in Hy as (i & Hi & _). exfalso; exact (index_key_not_action i a Ha Hi).
  - intros (o & -> & Hin). exists a; split; [exact Hin|apply String.eqb_refl].
Qed.

Lemma foldlM_pure {A B} (I : heap -> Prop) (f : A -> B -> M A) (g : A -> B -> A)
  (l : list B) (a : A) (h : heap) :
  (forall a b h, In b l -> I h -> exists h', f a b h = Some (g a b, h') /\ I h') ->
  I h -> exists h', foldlM f l a h = Some (fold_left g l a, h') /\ I h'.
Proof.
  revert a h; induction l as [|b l IH]; intros a h Hstep Hi; simpl.
  - exists h; split; [reflexivity|exact Hi].
  - destruct (Hstep a b h (or_introl eq_refl) Hi) as (h1 & E1 & Hi1).
    unfold bind; rewrite E1.
    apply IH; [intros a' b' h' Hb Hi'; apply Hstep; [right; exact Hb|exact Hi']|exact Hi1].
Qed.

Lemma get_filter_map (f : string -> list string) (l : list string) (a : string) (v : list string) :
  get a (List.filter nonempty (map (fun a => (a, f a)) l)) = Some v <->
  In a l /\ v = f a /\ v <> [].
Proof.
  induction l as [|x l IH]; simpl; [split; [discriminate|intros ([] & _)]|].
  unfold nonempty at 1; simpl.
  destruct (f x) as [|y ys] eqn:Ef.
  - rewrite IH. split.
    + intros (? & ? & ?); auto.
    + intros ([->|Hin] & -> & Hne); [congruence|auto].
  - simpl. destruct (String.eqb_spec a x) as [->|Hne].
    + rewrite Ef. split.
      * intros H; injection H as <-; split; [auto|split; [reflexivity|discriminate]].
      * intros (_ & -> & _); reflexivity.
    + rewrite IH. split.
      * intros (? & ? & ?); auto.
      * intros ([->|Hin] & ? & ?); [congruence|auto].
Qed.

Section RouteProjection.

Variable h0 : heap.

Lemma route_inv_refl : route_inv h0 h0.
Proof. split; intros; left; assumption. Qed.

Lemma route_inv_field (h : heap) (fl : loc) (o0 : obj) :
  route_inv h0 h -> fields h0 !! fl = Some o0 ->
  exists o, fields h !! fl = Some o /\ api_only o = api_only o0.
Proof.
  intros [HF _] E. destruct (HF fl o0 E) as [E'|E']; eexists; split;
    [exact E'|reflexivity|exact E'|apply api_only_idem].
Qed.

Lemma keep0_api (fl : loc) (o0 : obj) :
  fields h0 !! fl = Some o0 -> (keep0 h0 fl = false <-> api_only o0 = []).
Proof.
  unfold keep0, has_api; intros ->. rewrite api_only_nil.
  destruct (get "api" o0); split; intros; congruence.
Qed.

Lemma strip0_idem (m : list (string * loc)) : strip0 h0 (strip0 h0 m) = strip0 h0 m.
Proof.
  unfold strip0. rewrite filter_filter'.
  apply filter_ext_in; intros; apply Bool.andb_diag.
Qed.

Lemma strip_field_ok (x : string) (md : list (string * loc)) (h : heap) :
  route_inv h0 h -> List.NoDup (keys md) ->
  (forall kv, In kv md -> fields h0 !! snd kv <> None) ->
  exists h', strip_field md x h =
    Some (List.filter (fun kv => negb (String.eqb (fst kv) x) || keep0 h0 (snd kv)) md, h')
    /\ route_inv h0 h'.
Proof.
  intros Hi Hnd Hf. unfold strip_field.
  assert (Hsame : forall kv fl, get x md = Some fl -> In kv md -> fst kv = x -> snd kv = fl).
  { intros [k v] fl Eg Hkv Hk; simpl in *; subst k.
    pose proof (In_get_nodup x md v Hnd Hkv). congruence. }
  destruct (get x md) as [fl|] eqn:Eg.
  - pose proof (get_In _ _ _ Eg) as Hin.
    destruct (fields h0 !! fl) as [o0|] eqn:Eo0; [|exfalso; exact (Hf _ Hin Eo0)].
    destruct (route_inv_field h fl o0 Hi Eo0) as (o & Eo & Ea).
    cbv [bind read_field write_field]. rewrite Eo.
    set (h1 := mkHeap (models h) (<[fl := api_only o]> (fields h))).
    assert (Hi1 : route_inv h0 h1).
    { destruct Hi as [HF HM]; split; [|exact HM].
      intros fl' o0' E'. unfold h1; simpl. destruct (decide (fl = fl')) as [<-|Hne].
      - rewrite lookup_insert_eq. right. rewrite Eo0 in E'. injection E' as <-.
        rewrite Ea; reflexivity.
      - rewrite lookup_insert_ne by exact Hne. exact (HF _ _ E'). }
    rewrite Ea. destruct (api_only o0) as [|p o0'] eqn:Eao.
    + exists h1; split; [|exact Hi1]. unfold ret. do 3 f_equal.
      rewrite del_as_filter. apply filter_ext_in. intros [k v] Hkv; simpl.
      destruct (String.eqb_spec k x) as [->|Hne].
      * pose proof (Hsame (x, v) fl eq_refl Hkv eq_refl) as Hv; simpl in Hv; subst v.
        rewrite (proj2 (keep0_api fl o0 Eo0) Eao), String.eqb_refl. reflexivity.
      * destruct (String.eqb_spec x k); [congruence|reflexivity].
    + exists h1; split; [|exact Hi1]. unfold ret. do 3 f_equal.
      symmetry; apply filter_all. intros [k v] Hkv; simpl.
      destruct (String.eqb_spec k x) as [->|]; [|reflexivity]. simpl.
      pose proof (Hsame (x, v) fl eq_refl Hkv eq_refl) as Hv; simpl in Hv; subst v.
      destruct (keep0 h0 fl) eqn:Ek; [reflexivity|].
      apply (keep0_api fl o0 Eo0) in Ek. congruence.
  - exists h; split; [|exact Hi]. unfold ret. do 2 f_equal.
    symmetry; apply filter_all. intros [k v] Hkv; simpl.
    destruct (String.eqb_spec k x) as [->|]; [|reflexivity]. exfalso.
    assert (Hk : In x (keys md)) by (change x with (fst (x, v)); apply in_map; exact Hkv).
    apply in_keys_get in Hk as (w & Ew). congruence.
Qed.

Lemma strip_loop (ks : list string) (md : list (string * loc)) (h : heap) :
  route_inv h0 h -> List.NoDup (keys md) ->
  (forall kv, In kv md -> fields h0 !! snd kv <> None) ->
  exists h', foldlM strip_field ks md h =
    Some (List.filter (fun kv => negb (existsb (String.eqb (fst kv)) ks) || keep0 h0 (snd kv)) md, h')
    /\ route_inv h0 h'.
Proof.
  revert md h; induction ks as [|x ks IH]; intros md h Hi Hnd Hf; simpl.
  - exists h; split; [|exact Hi]. rewrite filter_all; [reflexivity|intros; reflexivity].
  - destruct (strip_field_ok x md h Hi Hnd Hf) as (h1 & E1 & Hi1).
    unfold bind; rewrite E1.
    destruct (IH _ h1 Hi1 (keys_filter_NoDup
      (fun kv => negb (String.eqb (fst kv) x) || keep0 h0 (snd kv)) _ Hnd)) as (h2 & E2 & Hi2).
    { intros kv Hkv; apply filter_In in Hkv as [Hkv _]; exact (Hf _ Hkv). }
    exists h2; split; [|exact Hi2]. rewrite E2, filter_filter'. do 2 f_equal.
    apply filter_ext_in; intros [k v] _; simpl.
    destruct (String.eqb k x), (existsb (String.eqb k) ks), (keep0 h0 v); reflexivity.
Qed.

Lemma strip_loop_model (m : list (string * loc)) (h : heap) :
  route_inv h0 h -> List.NoDup (keys m) ->
  (forall kv, In kv m -> fields h0 !! snd kv <> None) ->
  exists h', foldlM strip_field (keys m) m h = Some (strip0 h0 m, h') /\ route_inv h0 h'.
Proof.
  intros Hi Hnd Hf. destruct (strip_loop (keys m) m h Hi Hnd Hf) as (h' & E & Hi').
  exists h'; split; [|exact Hi']. rewrite E. do 2 f_equal.
  unfold strip0. apply filter_ext_in. intros [k v] Hkv; simpl.
  assert (Hex : existsb (String.eqb k) (keys m) = true).
  { apply existsb_exists. exists k; split; [|apply String.eqb_refl].
    change k with (fst (k, v)); apply in_map; exact Hkv. }
  rewrite Hex; reflexivity.
Qed.

Lemma has_action_ok (a : string) (md : list (string * loc)) (h : heap) (x : string) :
  route_inv h0 h ->
  (forall kv, In kv md -> keep0 h0 (snd kv) = true) ->
  In x (keys md) ->
  has_action a md x h = Some (lists_action h0 md a x, h).
Proof.
  intros Hi Hk Hx. unfold has_action, lists_action.
  apply in_keys_get in Hx as (fl & Eg). rewrite Eg.
  pose proof (Hk _ (get_In _ _ _ Eg)) as Hkf; simpl in Hkf.
  unfold keep0, has_api in Hkf.
  destruct (fields h0 !! fl) as [o0|] eqn:Eo0; [|discriminate].
  destruct (route_inv_field h fl o0 Hi Eo0) as (o & Eo & Ea).
  assert (Hapi : get "api" o = get "api" o0).
  { rewrite <- (get_api_only o), Ea, get_api_only; reflexivity. }
  cbv [bind read_field]. rewrite Eo, Hapi.
  destruct (get "api" o0); [reflexivity|discriminate].
Qed.

Lemma route_action_ok (md : list (string * loc)) (entry : list (string * list string))
  (a : string) (h : heap) :
  route_inv h0 h ->
  (forall kv, In kv md -> keep0 h0 (snd kv) = true) ->
  route_action md entry a h =
    Some (match action_list h0 md a with
          | [] => del a (set a [] entry)
          | l => set a l entry
          end, h).
Proof.
  intros Hi Hk. unfold route_action, bind.
  rewrite (filterM_ok _ (lists_action h0 md a)); [|intros; apply has_action_ok; auto].
  unfold action_list. destruct (List.filter _ _); reflexivity.
Qed.

Lemma route_actions_ok (md : list (string * loc)) (h : heap) :
  route_inv h0 h ->
  (forall kv, In kv md -> keep0 h0 (snd kv) = true) ->
  foldlM (route_action md) crud_actions
    [("create", []); ("read", []); ("update", []); ("delete", [])] h =
  Some (route_entry h0 md, h).
Proof.
  intros Hi Hk. unfold crud_actions; cbn [foldlM]. unfold bind.
  rewrite !route_action_ok by assumption.
  unfold route_entry, crud_actions; cbn [map].
  destruct (action_list h0 md "create"), (action_list h0 md "read"),
    (action_list h0 md "update"), (action_list h0 md "delete"); reflexivity.
Qed.

Lemma route_model_ok (pkg : list (string * loc)) (reorg : list (string * list (string * list string))) (k : string)
  (h : heap) (ml : loc) (m0 : list (string * loc)) :
  route_inv h0 h -> get k pkg = Some ml -> models h0 !! ml = Some m0 ->
  model_ok h0 ml = true ->
  exists h', route_model pkg reorg k h =
    Some (set k (route_entry h0 (strip0 h0 m0)) reorg, h') /\ route_inv h0 h'.
Proof.
  intros Hi Eg Em0 Hok. unfold model_ok in Hok. rewrite Em0 in Hok.
  apply andb_prop in Hok as [Hnd Hf].
  apply nodup_keys_NoDup in Hnd.
  assert (Hf' : forall kv, In kv m0 -> fields h0 !! snd kv <> None).
  { intros kv Hkv. rewrite forallb_forall in Hf. specialize (Hf kv Hkv).
    destruct (fields h0 !! snd kv); [discriminate|discriminate Hf]. }
  assert (Hmc : exists mc, models h !! ml = Some mc /\ List.NoDup (keys mc) /\
            (forall kv, In kv mc -> fields h0 !! snd kv <> None) /\
            strip0 h0 mc = strip0 h0 m0).
  { destruct Hi as [_ HM]. destruct (HM ml m0 Em0) as [E|E]; eexists; split; [exact E| |exact E|].
    - split; [exact Hnd|split; [exact Hf'|reflexivity]].
    - split; [apply keys_filter_NoDup; exact Hnd|].
      split; [|apply strip0_idem].
      intros kv Hkv; apply filter_In in Hkv as [Hkv _]; exact (Hf' _ Hkv). }
  destruct Hmc as (mc & Emc & Hndc & Hfc & Hs).
  unfold route_model. rewrite Eg. cbv [bind read_model]. rewrite Emc.
  destruct (strip_loop_model mc h Hi Hndc Hfc) as (h1 & E1 & Hi1).
  rewrite E1, Hs. cbv [write_model].
  set (h2 := mkHeap (<[ml := strip0 h0 m0]> (models h1)) (fields h1)).
  assert (Hi2 : route_inv h0 h2).
  { destruct Hi1 as [HF HM]; split; [exact HF|].
    intros ml' m0' E'. unfold h2; simpl. destruct (decide (ml = ml')) as [<-|Hne].
    - rewrite lookup_insert_eq. right. rewrite Em0 in E'. injection E' as <-. reflexivity.
    - rewrite lookup_insert_ne by exact Hne. exact (HM _ _ E'). }
  exists h2; split; [|exact Hi2].
  rewrite route_actions_ok; [reflexivity|exact Hi2|].
  intros kv Hkv. apply filter_In in Hkv as [_ Hkv]. exact Hkv.
Qed.

Lemma routes_wf_model (rd : root) (p k : string) (pkg : list (string * loc)) (ml : loc) :
  routes_wf h0 rd = true -> get p rd = Some pkg -> get k pkg = Some ml -> model_ok h0 ml = true.
Proof.
  intros Hwf Ep Ek. unfold routes_wf in Hwf. rewrite forallb_forall in Hwf.
  specialize (Hwf _ (get_In _ _ _ Ep)); simpl in Hwf. rewrite forallb_forall in Hwf.
  exact (Hwf _ (get_In _ _ _ Ek)).
Qed.

Lemma pkg_routes_ok (pkg : list (string * loc)) (h : heap) :
  route_inv h0 h -> (forall k ml, get k pkg = Some ml -> model_ok h0 ml = true) ->
  exists h', foldlM (route_model pkg) (keys pkg) [] h = Some (pkg_routes h0 pkg, h')
    /\ route_inv h0 h'.
Proof.
  intros Hi Hok. apply foldlM_pure; [|exact Hi].
  intros r k h1 Hk Hi1. apply in_keys_get in Hk as (ml & Eg).
  pose proof (Hok k ml Eg) as Hmo. unfold model_ok in Hmo.
  destruct (models h0 !! ml) as [m0|] eqn:Em0; [|discriminate].
  destruct (route_model_ok pkg r k h1 ml m0 Hi1 Eg Em0) as (h2 & E2 & Hi2).
  { unfold model_ok; rewrite Em0; exact Hmo. }
  exists h2; split; [|exact Hi2]. rewrite E2. unfold model_route. rewrite Eg, Em0. reflexivity.
Qed.

Lemma process_routes_ok (rd : root) (h : heap) :
  routes_wf h0 rd = true -> route_inv h0 h ->
  exists h', processRoutesDataFromModelsData rd h =
    Some (fold_left (fun r p => set p (match get p rd with
                                       | Some pkg => pkg_routes h0 pkg
                                       | None => [] end) r) (keys rd) [], h')
    /\ route_inv h0 h'.
Proof.
  intros Hwf Hi. apply foldlM_pure; [|exact Hi].
  intros r p h1 Hp Hi1. apply in_keys_get in Hp as (pkg & Ep). rewrite Ep.
  destruct (pkg_routes_ok pkg h1 Hi1) as (h2 & E2 & Hi2).
  { intros k ml Ek. exact (routes_wf_model rd p k pkg ml Hwf Ep Ek). }
  exists h2; split; [|exact Hi2]. unfold bind; rewrite E2. reflexivity.
Qed.

Lemma action_list_spec (m0 : list (string * loc)) (a x : string) :
  List.NoDup (keys m0) -> In a crud_actions ->
  (In x (action_list h0 (strip0 h0 m0) a) <->
   exists fl o0 api, get x m0 = Some fl /\ fields h0 !! fl = Some o0 /\
     get "api" o0 = Some (VObj api) /\ In a (keys api)).
Proof.
  intros Hnd Ha. set (md := strip0 h0 m0).
  assert (Hndm : List.NoDup (keys md)) by (apply keys_filter_NoDup; exact Hnd).
  unfold action_list. rewrite filter_In. split.
  - intros [_ Hl]. unfold lists_action in Hl.
    destruct (get x md) as [fl|] eqn:Eg; [|discriminate].
    destruct (fields h0 !! fl) as [o0|] eqn:Eo0; [|discriminate].
    destruct (get "api" o0) as [api|] eqn:Ea; [|discriminate].
    apply (js_keys_action api a Ha) in Hl as (o & -> & Hin).
    exists fl, o0, o. split; [|auto].
    apply get_In in Eg. apply filter_In in Eg as [Eg _].
    exact (In_get_nodup _ _ _ Hnd Eg).
  - intros (fl & o0 & api & Eg & Eo0 & Ea & Hin).
    assert (Hmd : In (x, fl) md).
    { apply filter_In; split; [exact (get_In _ _ _ Eg)|].
      simpl; unfold keep0, has_api; rewrite Eo0, Ea; reflexivity. }
    split; [change x with (fst (x, fl)); apply in_map; exact Hmd|].
    unfold lists_action. rewrite (In_get_nodup _ _ _ Hndm Hmd), Eo0, Ea.
    apply js_keys_action; [exact Ha|]. eauto.
Qed.

End RouteProjection.

(** C8: for every package, model and field of a well-formed segregated
    schema, the route projection completes, and the actions under which
    the field's name is listed in the route entry of its model are exactly
    the action keys of the field's [api] object: a field without an [api]
    object is listed under no action, every listed name is a field name of
    the model, and an action whose list is empty has no key in the entry. *)
Theorem routes_partition_api (h0 : heap) (rd : root) (Hwf : routes_wf h0 rd = true) :
  exists r h', processRoutesDataFromModelsData rd h0 = Some (r, h') /\
  forall p pkg k ml m0,
    get p rd = Some pkg -> get k pkg = Some ml -> models h0 !! ml = Some m0 ->
    exists entry, lookup2 r p k = Some entry /\
      (forall a l, get a entry = Some l ->
         In a crud_actions /\ l <> [] /\ (forall x, In x l -> In x (keys m0))) /\
      (forall a x, In a crud_actions ->
         ((exists l, get a entry = Some l /\ In x l) <->
          exists fl o0 api, get x m0 = Some fl /\ fields h0 !! fl = Some o0 /\
            get "api" o0 = Some (VObj api) /\ In a (keys api))).
Proof.
  destruct (process_routes_ok h0 rd h0 Hwf (route_inv_refl h0)) as (h' & E & _).
  eexists _, h'; split; [exact E|].
  intros p pkg k ml m0 Ep Ek Em0.
  pose proof (routes_wf_model h0 rd p k pkg ml Hwf Ep Ek) as Hok.
  assert (Hnd : List.NoDup (keys m0)).
  { unfold model_ok in Hok; rewrite Em0 in Hok. apply andb_prop in Hok as [Hnd _].
    apply nodup_keys_NoDup; exact Hnd. }
  exists (route_entry h0 (strip0 h0 m0)). split.
  { unfold lookup2. rewrite get_fold_set.
    assert (Hp : existsb (String.eqb p) (keys rd) = true).
    { apply existsb_exists. exists p; split; [|apply String.eqb_refl].
      apply in_keys_get; eauto. }
    rewrite Hp, Ep. unfold pkg_routes. rewrite get_fold_set.
    assert (Hk : existsb (String.eqb k) (keys pkg) = true).
    { apply existsb_exists. exists k; split; [|apply String.eqb_refl].
      apply in_keys_get; eauto. }
    rewrite Hk. unfold model_route. rewrite Ek, Em0. reflexivity. }
  split.
  - intros a l El. unfold route_entry in El. apply get_filter_map in El as (Ha & -> & Hne).
    split; [exact Ha|split; [exact Hne|]].
    intros x Hx. apply (action_list_spec h0 m0 a x Hnd Ha) in Hx as (fl & _ & _ & Eg & _).
    apply in_keys_get; eauto.
  - intros a x Ha. rewrite <- (action_list_spec h0 m0 a x Hnd Ha). split.
    + intros (l & El & Hx). unfold route_entry in El.
      apply get_filter_map in El as (_ & -> & _). exact Hx.
    + intros Hx. exists (action_list h0 (strip0 h0 m0) a). split; [|exact Hx].
      unfold route_entry. apply get_filter_map. split; [exact Ha|split; [reflexivity|]].
      intros Hn; rewrite Hn in Hx; destruct Hx.
Qed.

Lemma routes_partition_api_witness :
  routes_wf route_heap route_root = true /\
  exists r h', processRoutesDataFromModelsData route_root route_heap = Some (r, h').
Proof.
  split; [vm_compute; reflexivity|].
  destruct (routes_partition_api route_heap route_root ltac:(vm_compute; reflexivity))
    as (r & h' & E & _).
  exists r, h'; exact E.
Defined.

(* ------------------------------------------------------------------ *)
(** ** Object and string lemmas for processModels *)

Lemma get_set_eq {V} (k : string) (v : V) (o : list (string * V)) : get k (set k v o) = Some v.
Proof. rewrite get_set, String.eqb_refl; reflexivity. Qed.

Lemma get_set_ne {V} (k k' : string) (v : V) (o : list (string * V)) :
  k <> k' -> get k (set k' v o) = get k o.
Proof. intros H; rewrite get_set. destruct (String.eqb_spec k k'); [congruence|reflexivity]. Qed.

Lemma get_del {V} (k k' : string) (o : list (string * V)) :
  get k (del k' o) = if String.eqb k k' then None else get k o.
Proof.
  induction o as [|[k0 v0] o IH]; simpl; [destruct (String.eqb k k'); reflexivity|].
  destruct (String.eqb_spec k' k0) as [E|Hne]; simpl; rewrite ?IH.
  - subst k0. destruct (String.eqb_spec k k'); reflexivity.
  - destruct (String.eqb_spec k k0) as [->|Hk]; [|reflexivity].
    destruct (String.eqb_spec k0 k'); [congruence|reflexivity].
Qed.

Lemma in_keys_set {V} (y k : string) (v : V) (o : list (string * V)) :
  In y (keys (set k v o)) <-> y = k \/ In y (keys o).
Proof.
  rewrite !in_keys_get, get_set. destruct (String.eqb_spec y k) as [->|Hne]; split.
  - intros _; left; reflexivity.
  - intros _; eauto.
  - intros H; right; exact H.
  - intros [->|H]; [congruence|exact H].
Qed.

Lemma in_keys_del {V} (y k : string) (o : list (string * V)) :
  In y (keys (del k o)) <-> y <> k /\ In y (keys o).
Proof.
  rewrite !in_keys_get, get_del. destruct (String.eqb_spec y k); split.
  - intros (? & ?); discriminate.
  - intros [? _]; congruence.
  - intros H; split; auto.
  - intros [_ H]; exact H.
Qed.

Lemma NoDup_keys_set {V} (k : string) (v : V) (o : list (string * V)) :
  List.NoDup (keys o) -> List.NoDup (keys (set k v o)).
Proof.
  induction o as [|[k0 v0] o IH]; simpl; intros H; [constructor; [intros []|constructor]|].
  inversion H as [|? ? Hn Hnd]; subst.
  destruct (String.eqb_spec k k0) as [->|Hne]; simpl; constructor; auto.
  intros Hin. apply in_keys_set in Hin as [->|Hin]; [congruence|exact (Hn Hin)].
Qed.

Lemma NoDup_keys_del {V} (k : string) (o : list (string * V)) :
  List.NoDup (keys o) -> List.NoDup (keys (del k o)).
Proof. intros H; rewrite keys_del; apply List.NoDup_filter; exact H. Qed.

Lemma has_dot_app (s t : string) : has_dot (s ++ t) = has_dot s || has_dot t.
Proof.
  induction s as [|c s IH]; simpl; [reflexivity|].
  destruct (Ascii.eqb c "."); [reflexivity|exact IH].
Qed.

Lemma split_dot_nodot (s w : string) : In w (split_dot s) -> has_dot w = false.
Proof.
  revert w; induction s as [|c s IH]; simpl; intros w Hw.
  - destruct Hw as [<-|[]]; reflexivity.
  - destruct (Ascii.eqb c ".") eqn:Ec.
    + destruct Hw as [<-|Hw]; [reflexivity|exact (IH w Hw)].
    + destruct (split_dot s) as [|w0 ws] eqn:Es.
      * destruct Hw as [<-|[]]; simpl; rewrite Ec; reflexivity.
      * destruct Hw as [<-|Hw]; [simpl; rewrite Ec; apply IH; left; reflexivity|].
        apply IH; right; exact Hw.
Qed.

Lemma related_model_nodot (k : string) : has_dot (related_model k) = false.
Proof.
  unfold related_model, nth_str. destruct (nth_error (split_dot k) 1) eqn:E; [|reflexivity].
  apply (split_dot_nodot k). eapply nth_error_In; exact E.
Qed.

Lemma related_model_id_nodot (k : string) : has_dot (related_model k ++ "Id") = false.
Proof. rewrite has_dot_app, related_model_nodot; reflexivity. Qed.

Lemma string_length_append (s t : string) :
  String.length (s ++ t) = (String.length s + String.length t)%nat.
Proof. induction s as [|c s IH]; simpl; [reflexivity|rewrite IH; reflexivity]. Qed.

Lemma append_Id_neq (s : string) : (s ++ "Id")%string <> s.
Proof.
  intros H. apply (f_equal String.length) in H. rewrite string_length_append in H.
  simpl in H. lia.
Qed.

Lemma append_cancel_r (s1 s2 t : string) : (s1 ++ t)%string = (s2 ++ t)%string -> s1 = s2.
Proof.
  revert s2; induction s1 as [|c s1 IH]; intros [|c2 s2]; simpl; intros H; auto.
  - apply (f_equal String.length) in H; simpl in H; rewrite ?string_length_append in H;
      simpl in H; rewrite ?string_length_append in H; lia.
  - apply (f_equal String.length) in H; simpl in H; rewrite ?string_length_append in H;
      simpl in H; rewrite ?string_length_append in H; lia.
  - injection H as -> H. f_equal. apply IH; exact H.
Qed.

Lemma push_new_In (x y : string) (l : list string) : In y l -> In y (push_new x l).
Proof.
  unfold push_new; destruct (existsb _ _); [auto|intros H; apply in_or_app; left; exact H].
Qed.

Lemma push_new_self (x : string) (l : list string) : In x (push_new x l).
Proof.
  unfold push_new. destruct (existsb (String.eqb x) l) eqn:E.
  - apply existsb_exists in E as (y & Hy & Exy). apply String.eqb_eq in Exy; subst; exact Hy.
  - apply in_or_app; right; left; reflexivity.
Qed.

(** IEEE-754 comparisons: [x < y] excludes [y <= x]. *)
Lemma SFcompare_swap (x y : SpecFloat.spec_float) :
  SpecFloat.SFcompare y x = option_map CompOpp (SpecFloat.SFcompare x y).
Proof.
  destruct x as [sx|sx| |sx mx ex], y as [sy|sy| |sy my ey];
    try destruct sx; try destruct sy; simpl; try reflexivity;
    rewrite (Z.compare_antisym ey ex);
    pose proof (Pos.compare_cont_antisym mx my Eq) as HA; simpl in HA; rewrite <- HA;
    destruct (ey ?= ex)%Z; simpl; try reflexivity;
    destruct (Pos.compare_cont Eq mx my); reflexivity.
Qed.

Lemma flt_lt_not_le (x y : float) : PrimFloat.ltb x y = true -> PrimFloat.leb y x = false.
Proof.
  rewrite FloatAxioms.ltb_spec, FloatAxioms.leb_spec.
  unfold SpecFloat.SFltb, SpecFloat.SFleb. rewrite SFcompare_swap.
  destruct (SpecFloat.SFcompare _ _) as [[]|]; simpl; congruence.
Qed.

(** Every number that is not NaN has its absolute value at most [Infinity]. *)
Lemma flt_abs_le_inf (x : float) :
  PrimFloat.is_nan x = false -> PrimFloat.leb (PrimFloat.abs x) PrimFloat.infinity = true.
Proof.
  intros H. rewrite FloatAxioms.leb_spec, FloatAxioms.abs_spec.
  assert (Hi : Prim2SF PrimFloat.infinity = SpecFloat.S754_infinity false) by reflexivity.
  rewrite Hi. destruct (Prim2SF x) eqn:E; try reflexivity.
  exfalso. unfold PrimFloat.is_nan in H. rewrite FloatAxioms.eqb_spec, E in H. discriminate.
Qed.

Section ModelProps.

Variable modulePath : string.
Variable num_of : val -> float.
Variable to_str : val -> string.
Variable pkg : string.

Lemma loop1_step_some (st : model_state) (x : string) (o : obj) :
  get x (mfields st) = Some o ->
  loop1_step modulePath pkg st x =
    let field := fst (createFieldVariables o) in
    if has_dot x then
      let X := related_model x in
      let field' := set "typeFromTypes" (VStr "uuid.UUID") field in
      let same := String.eqb (related_package x) pkg in
      mkModelState
        (del x (set (X ++ "Id") field' (set x field' (set (X ++ "Id") field
          (set X (cascade_field (if same then X else x)) (set x field (mfields st)))))))
        (if same then imports st
         else push_new (getLocalModelPackageStr modulePath (related_package x)) (imports st))
        (Some x)
    else mkModelState (set x field (set x field (mfields st))) (imports st) (parentModel st).
Proof.
  intros H. unfold loop1_step. rewrite H. destruct (createFieldVariables o) as [field t].
  unfold createRelationShips, updateField; cbn [mfields imports parentModel fst].
  rewrite get_set_eq. destruct (has_dot x); reflexivity.
Qed.

Lemma loop1_step_none (st : model_state) (x : string) :
  get x (mfields st) = None -> loop1_step modulePath pkg st x = st.
Proof. intros H; unfold loop1_step; rewrite H; reflexivity. Qed.

Lemma loop1_parent_step (st : model_state) (x : string) (o : obj) :
  get x (mfields st) = Some o ->
  parentModel (loop1_step modulePath pkg st x) = if has_dot x then Some x else parentModel st.
Proof. intros H; rewrite (loop1_step_some st x o H); destruct (has_dot x); reflexivity. Qed.

Lemma loop1_keys_step (st : model_state) (x y : string) :
  y <> x -> In y (keys (mfields st)) -> In y (keys (mfields (loop1_step modulePath pkg st x))).
Proof.
  intros Hne Hy. destruct (get x (mfields st)) as [o|] eqn:E.
  - rewrite (loop1_step_some st x o E). destruct (has_dot x); cbn [mfields];
      rewrite ?in_keys_del, ?in_keys_set; tauto.
  - rewrite (loop1_step_none st x E); exact Hy.
Qed.

Lemma loop1_dotted_step (st : model_state) (x y : string) :
  In y (keys (mfields (loop1_step modulePath pkg st x))) -> has_dot y = true ->
  In y (keys (mfields st)) /\ y <> x.
Proof.
  destruct (get x (mfields st)) as [o|] eqn:E.
  - rewrite (loop1_step_some st x o E). destruct (has_dot x) eqn:Hx; cbn [mfields];
      rewrite ?in_keys_del, ?in_keys_set; intros Hin Hy.
    + destruct Hin as [Hne [Hin|[Hin|[Hin|[Hin|[Hin|Hin]]]]]]; subst;
        try (rewrite ?related_model_id_nodot, ?related_model_nodot in Hy; discriminate);
        try congruence; auto.
    + destruct Hin as [Hin|[Hin|Hin]]; [subst; congruence|subst; congruence|].
      split; [exact Hin|intros ->; congruence].
  - rewrite (loop1_step_none st x E). intros Hin Hy. split; [exact Hin|].
    intros ->. apply in_keys_get in Hin as (v & Hv). congruence.
Qed.

Lemma loop1_fold_parent (ks : list string) (st : model_state) :
  List.NoDup ks -> (forall y, In y ks -> In y (keys (mfields st))) ->
  parentModel (fold_left (loop1_step modulePath pkg) ks st) =
  fold_left (fun p x => if has_dot x then Some x else p) ks (parentModel st).
Proof.
  revert st; induction ks as [|x ks IH]; intros st Hnd Hin; simpl; [reflexivity|].
  inversion Hnd as [|? ? Hx Hnd']; subst.
  destruct (proj1 (in_keys_get x (mfields st)) (Hin x (or_introl eq_refl))) as (o & Eo).
  rewrite IH; [|exact Hnd'|].
  - rewrite (loop1_parent_step st x o Eo). reflexivity.
  - intros y Hy. apply loop1_keys_step; [intros ->; exact (Hx Hy)|apply Hin; right; exact Hy].
Qed.

Lemma loop1_fold_nodot (ks : list string) (st : model_state) :
  (forall y, In y (keys (mfields st)) -> has_dot y = true -> In y ks) ->
  forall y, In y (keys (mfields (fold_left (loop1_step modulePath pkg) ks st))) ->
  has_dot y = false.
Proof.
  revert st; induction ks as [|x ks IH]; intros st Hinv y Hy; simpl in *.
  - destruct (has_dot y) eqn:E; [exfalso; exact (Hinv y Hy E)|reflexivity].
  - eapply IH; [|exact Hy]. intros z Hz Hd.
    destruct (loop1_dotted_step st x z Hz Hd) as [Hz' Hne].
    destruct (Hinv z Hz' Hd) as [->|H]; [congruence|exact H].
Qed.

Lemma loop1_step_nodup (st : model_state) (x : string) :
  List.NoDup (keys (mfields st)) -> List.NoDup (keys (mfields (loop1_step modulePath pkg st x))).
Proof.
  intros H. destruct (get x (mfields st)) as [o|] eqn:E.
  - rewrite (loop1_step_some st x o E). destruct (has_dot x); cbn [mfields];
      [apply NoDup_keys_del|]; repeat apply NoDup_keys_set; exact H.
  - rewrite (loop1_step_none st x E); exact H.
Qed.

Lemma loop1_fold_nodup (ks : list string) (st : model_state) :
  List.NoDup (keys (mfields st)) ->
  List.NoDup (keys (mfields (fold_left (loop1_step modulePath pkg) ks st))).
Proof.
  revert st; induction ks as [|x ks IH]; intros st H; simpl; [exact H|].
  apply IH, loop1_step_nodup, H.
Qed.

Lemma loop1_get_frame (st : model_state) (x y : string) :
  x <> y -> (has_dot x = true -> related_model x <> y /\ (related_model x ++ "Id")%string <> y) ->
  get y (mfields (loop1_step modulePath pkg st x)) = get y (mfields st).
Proof.
  intros Hne Hd. destruct (get x (mfields st)) as [o|] eqn:E;
    [|rewrite (loop1_step_none st x E); reflexivity].
  rewrite (loop1_step_some st x o E). destruct (has_dot x) eqn:Hx; cbn [mfields].
  - destruct (Hd eq_refl) as [H1 H2]. rewrite get_del, !get_set.
    destruct (String.eqb_spec y x), (String.eqb_spec y (related_model x ++ "Id")),
      (String.eqb_spec y (related_model x)); try congruence; reflexivity.
  - rewrite !get_set. destruct (String.eqb_spec y x); [congruence|reflexivity].
Qed.

Lemma loop1_get_fixed (st : model_state) (y : string) (v : obj) :
  get y (mfields st) = Some v -> has_dot y = false -> fst (createFieldVariables v) = v ->
  get y (mfields (loop1_step modulePath pkg st y)) = Some v.
Proof.
  intros H Hd Hf. rewrite (loop1_step_some st y v H), Hd, Hf. cbv beta iota zeta.
  cbn [mfields]. apply get_set_eq.
Qed.

Lemma loop1_fold_frame (ks : list string) (st : model_state) (y : string) :
  (forall x, In x ks -> x <> y /\
     (has_dot x = true -> related_model x <> y /\ (related_model x ++ "Id")%string <> y)) ->
  get y (mfields (fold_left (loop1_step modulePath pkg) ks st)) = get y (mfields st).
Proof.
  revert st; induction ks as [|x ks IH]; intros st H; simpl; [reflexivity|].
  rewrite IH; [|intros; apply H; right; assumption].
  destruct (H x (or_introl eq_refl)) as [H1 H2]. apply loop1_get_frame; assumption.
Qed.

Lemma loop1_fold_fixed (ks : list string) (st : model_state) (y : string) (v : obj) :
  get y (mfields st) = Some v -> has_dot y = false -> fst (createFieldVariables v) = v ->
  (forall x, In x ks -> has_dot x = true ->
     related_model x <> y /\ (related_model x ++ "Id")%string <> y) ->
  get y (mfields (fold_left (loop1_step modulePath pkg) ks st)) = Some v.
Proof.
  revert st; induction ks as [|x ks IH]; intros st H Hd Hf Hx; simpl; [exact H|].
  apply IH; [|exact Hd|exact Hf|intros; apply Hx; [right|]; assumption].
  destruct (String.eqb_spec x y) as [->|Hne].
  - apply loop1_get_fixed; assumption.
  - rewrite loop1_get_frame; [exact H|exact Hne|]. intros Hdx; apply Hx; [left|]; auto.
Qed.

Lemma loop1_imports_step (st : model_state) (x s : string) :
  In s (imports st) -> In s (imports (loop1_step modulePath pkg st x)).
Proof.
  intros H. destruct (get x (mfields st)) as [o|] eqn:E;
    [|rewrite (loop1_step_none st x E); exact H].
  rewrite (loop1_step_some st x o E). destruct (has_dot x); cbn [imports]; [|exact H].
  destruct (String.eqb _ _); [exact H|apply push_new_In; exact H].
Qed.

Lemma loop1_fold_imports (ks : list string) (st : model_state) (s : string) :
  In s (imports st) -> In s (imports (fold_left (loop1_step modulePath pkg) ks st)).
Proof.
  revert st; induction ks as [|x ks IH]; intros st H; simpl; [exact H|].
  apply IH, loop1_imports_step, H.
Qed.

Lemma loop2_step_some (st : model_state) (x : string) (o : obj) :
  get x (mfields st) = Some o -> has_dot x = false ->
  loop2_step num_of to_str st x =
    mkModelState (set x (fst (resolve_field num_of to_str o (imports st)))
                    (set x (fst (resolve_field num_of to_str o (imports st))) (mfields st)))
                 (snd (resolve_field num_of to_str o (imports st))) (parentModel st).
Proof.
  intros H Hd. unfold loop2_step. rewrite H.
  destruct (resolve_field num_of to_str o (imports st)) as [f i].
  unfold updateField; cbn [mfields imports parentModel fst snd]. rewrite Hd. reflexivity.
Qed.

Lemma loop2_parent_step (st : model_state) (x : string) :
  has_dot x = false -> parentModel (loop2_step num_of to_str st x) = parentModel st.
Proof.
  intros Hd. destruct (get x (mfields st)) as [o|] eqn:E.
  - rewrite (loop2_step_some st x o E Hd); reflexivity.
  - unfold loop2_step; rewrite E; reflexivity.
Qed.

Lemma loop2_fold_parent (ks : list string) (st : model_state) :
  (forall x, In x ks -> has_dot x = false) ->
  parentModel (fold_left (loop2_step num_of to_str) ks st) = parentModel st.
Proof.
  revert st; induction ks as [|x ks IH]; intros st H; simpl; [reflexivity|].
  rewrite IH; [|intros; apply H; right; assumption].
  apply loop2_parent_step, H; left; reflexivity.
Qed.

Lemma loop2_get_frame (st : model_state) (x y : string) :
  x <> y -> get y (mfields (loop2_step num_of to_str st x)) = get y (mfields st).
Proof.
  intros Hne. unfold loop2_step. destruct (get x (mfields st)) as [o|]; [|reflexivity].
  destruct (resolve_field num_of to_str o (imports st)) as [f i].
  unfold updateField. destruct (has_dot x); cbn [negb mfields];
    rewrite ?get_del, ?get_set; destruct (String.eqb_spec y x); congruence.
Qed.

Lemma loop2_fold_frame (ks : list string) (st : model_state) (y : string) :
  ~ In y ks -> get y (mfields (fold_left (loop2_step num_of to_str) ks st)) = get y (mfields st).
Proof.
  revert st; induction ks as [|x ks IH]; intros st H; simpl; [reflexivity|].
  rewrite IH; [|intros Hy; apply H; right; exact Hy].
  apply loop2_get_frame. intros ->; apply H; left; reflexivity.
Qed.

Lemma loop2_fold_resolve (ks : list string) (st : model_state) (y : string) (v : obj) :
  List.NoDup ks -> In y ks -> has_dot y = false -> get y (mfields st) = Some v ->
  exists imp, get y (mfields (fold_left (loop2_step num_of to_str) ks st)) =
              Some (fst (resolve_field num_of to_str v imp)).
Proof.
  revert st; induction ks as [|x ks IH]; intros st Hnd Hin Hd H; simpl; [destruct Hin|].
  inversion Hnd as [|? ? Hx Hnd']; subst.
  destruct (String.eqb_spec x y) as [->|Hne].
  - exists (imports st). rewrite loop2_fold_frame; [|exact Hx].
    rewrite (loop2_step_some st y v H Hd); cbn [mfields]. apply get_set_eq.
  - apply IH; [exact Hnd'| |exact Hd|].
    + destruct Hin as [->|Hin]; [congruence|exact Hin].
    + rewrite loop2_get_frame; [exact H|exact Hne].
Qed.

Lemma cfv_fst_str (f : obj) (s : string) :
  get "typeFromTypes" f = Some (VStr s) -> fst (createFieldVariables f) = f.
Proof. intros H; unfold createFieldVariables; rewrite H; simpl. destruct (negb _); reflexivity. Qed.

Lemma get_setDefaultValue (k : string) (f : obj) :
  k <> "DefaultValue" -> get k (setDefaultValue to_str f) = get k f.
Proof.
  intros H. unfold setDefaultValue. destruct (get "DefaultValue" f); [|reflexivity].
  apply get_set_ne; exact H.
Qed.

Lemma get_setFieldLength (k : string) (f : obj) :
  k <> "Length" -> get k (setFieldLength f) = get k f.
Proof.
  intros H. unfold setFieldLength.
  destruct (get "length" f), (get "MaximumLength" f); rewrite ?get_set_ne by exact H; reflexivity.
Qed.

Lemma setTimeType_id (f : obj) :
  is_str (get "typeFromTypes" f) "time.Time" = false -> setTimeType f = f.
Proof. intros H; unfold setTimeType; rewrite H; reflexivity. Qed.

Lemma setIntType_id (f : obj) :
  is_str (get "typeFromTypes" f) "int" = false -> setIntType num_of f = f.
Proof. intros H; unfold setIntType; rewrite H; reflexivity. Qed.

Lemma setFloatType_id (f : obj) :
  is_str (get "typeFromTypes" f) "float" = false -> setFloatType num_of f = f.
Proof. intros H; unfold setFloatType; rewrite H; reflexivity. Qed.

Lemma get_setIntType (k : string) (f : obj) :
  k <> "type" -> get k (setIntType num_of f) = get k f.
Proof.
  intros H. unfold setIntType. destruct (is_str _ _); [|reflexivity].
  repeat case_match; rewrite ?get_set_ne by exact H; reflexivity.
Qed.

(** With a string [typeFromTypes], the second loop sets [type] to it and
    then runs the remaining setters. *)
Lemma resolve_field_str (f : obj) (imp : list string) (s : string) :
  get "typeFromTypes" f = Some (VStr s) ->
  fst (resolve_field num_of to_str f imp) =
  setFloatType num_of (setIntType num_of (setTimeType
    (setFieldLength (setDefaultValue to_str (set "type" (VStr s) f))))).
Proof.
  intros H. unfold resolve_field.
  destruct (createFieldVariables f) as [f1 t] eqn:E.
  pose proof (cfv_fst_str f s H) as Hf; rewrite E in Hf; simpl in Hf; subst f1.
  cbn [fst]. replace (setDefaultFieldType f) with (set "type" (VStr s) f); [reflexivity|].
  unfold setDefaultFieldType; rewrite H; reflexivity.
Qed.

Lemma resolve_uuid (f : obj) (imp : list string) :
  get "typeFromTypes" f = Some (VStr "uuid.UUID") ->
  get "type" (fst (resolve_field num_of to_str f imp)) = Some (VStr "uuid.UUID").
Proof.
  intros H. rewrite (resolve_field_str f imp "uuid.UUID" H).
  set (g := setFieldLength (setDefaultValue to_str (set "type" (VStr "uuid.UUID") f))).
  assert (Hg : get "typeFromTypes" g = Some (VStr "uuid.UUID")).
  { unfold g. rewrite get_setFieldLength, get_setDefaultValue, get_set_ne; [exact H|discriminate..]. }
  rewrite (setTimeType_id g) by (rewrite Hg; reflexivity).
  rewrite (setIntType_id g) by (rewrite Hg; reflexivity).
  rewrite (setFloatType_id g) by (rewrite Hg; reflexivity).
  unfold g. rewrite get_setFieldLength, get_setDefaultValue by discriminate. apply get_set_eq.
Qed.

End ModelProps.

Section ResolveProps.

Variable num_of : val -> float.
Variable to_str : val -> string.

Lemma resolve_field_int (f : obj) (imp : list string) :
  get "typeFromTypes" f = Some (VStr "int") ->
  fst (resolve_field num_of to_str f imp) =
  setIntType num_of (setFieldLength (setDefaultValue to_str (set "type" (VStr "int") f))).
Proof.
  intros H. rewrite (resolve_field_str num_of to_str f imp "int" H).
  set (g := setFieldLength (setDefaultValue to_str (set "type" (VStr "int") f))).
  assert (Hg : get "typeFromTypes" g = Some (VStr "int")).
  { unfold g. rewrite get_setFieldLength, get_setDefaultValue, get_set_ne; [exact H|discriminate..]. }
  rewrite (setTimeType_id g) by (rewrite Hg; reflexivity).
  apply setFloatType_id. rewrite get_setIntType by discriminate. rewrite Hg; reflexivity.
Qed.

Lemma resolve_field_float (f : obj) (imp : list string) :
  get "typeFromTypes" f = Some (VStr "float") ->
  fst (resolve_field num_of to_str f imp) =
  setFloatType num_of (setFieldLength (setDefaultValue to_str (set "type" (VStr "float") f))).
Proof.
  intros H. rewrite (resolve_field_str num_of to_str f imp "float" H).
  set (g := setFieldLength (setDefaultValue to_str (set "type" (VStr "float") f))).
  assert (Hg : get "typeFromTypes" g = Some (VStr "float")).
  { unfold g. rewrite get_setFieldLength, get_setDefaultValue, get_set_ne; [exact H|discriminate..]. }
  rewrite (setTimeType_id g) by (rewrite Hg; reflexivity).
  rewrite (setIntType_id num_of g) by (rewrite Hg; reflexivity). reflexivity.
Qed.

Lemma get_resolve_prefix (k s : string) (f : obj) :
  k <> "type" -> k <> "DefaultValue" -> k <> "Length" ->
  get k (setFieldLength (setDefaultValue to_str (set "type" (VStr s) f))) = get k f.
Proof.
  intros H1 H2 H3. rewrite get_setFieldLength, get_setDefaultValue, get_set_ne; auto.
Qed.

End ResolveProps.
(** Claim C4 (amended).  For an [int] field with exactly one bound, the
    source defaults a missing [Minimum] to -1 (not 0) and a missing
    [Maximum] to 2^64.  With only [Maximum = m] the field resolves to
    [int32] when [m <= 2^31-1] and to [int64] when [m > 2^31-1], never to an
    unsigned width; with only [Minimum = n] it resolves to [uint64] when
    [n >= 0] and to [int64] when [n < 0]. *)
Theorem resolve_int_one_bound (num_of : val -> float) (to_str : val -> string)
    (field : obj) (imp : list string)
    (Hint : get "typeFromTypes" field = Some (VStr "int")) :
  let ty := get "type" (fst (resolve_field num_of to_str field imp)) in
  (forall m, get "Minimum" field = None -> get "Maximum" field = Some (VNum m) ->
     (PrimFloat.leb m 2147483647%float = true -> ty = Some (VStr "int32")) /\
     (PrimFloat.ltb 2147483647%float m = true -> ty = Some (VStr "int64"))) /\
  (forall n, get "Maximum" field = None -> get "Minimum" field = Some (VNum n) ->
     (PrimFloat.leb 0%float n = true -> ty = Some (VStr "uint64")) /\
     (PrimFloat.ltb n 0%float = true -> ty = Some (VStr "int64"))).
Proof.
  cbv zeta. rewrite (resolve_field_int num_of to_str field imp Hint).
  set (g := setFieldLength (setDefaultValue to_str (set "type" (VStr "int") field))).
  assert (Hg : forall k, k <> "type" -> k <> "DefaultValue" -> k <> "Length" ->
            get k g = get k field) by (intros; apply get_resolve_prefix; assumption).
  assert (Ht : get "typeFromTypes" g = Some (VStr "int")) by (rewrite Hg; [exact Hint|discriminate..]).
  unfold setIntType. rewrite Ht. cbv beta iota zeta. split.
  - intros m Hmin Hmax. rewrite (Hg "Minimum"), (Hg "Maximum"), Hmin, Hmax by discriminate.
    cbn -[get set]. split.
    + intros Hle. rewrite Hle. apply get_set_eq.
    + intros Hlt. rewrite (flt_lt_not_le _ _ Hlt), Hlt. apply get_set_eq.
  - intros n Hmax Hmin. rewrite (Hg "Minimum"), (Hg "Maximum"), Hmin, Hmax by discriminate.
    cbn -[get set]. split.
    + intros Hle. rewrite Hle. apply get_set_eq.
    + intros Hlt. rewrite (flt_lt_not_le _ _ Hlt), Hlt. apply get_set_eq.
Qed.

(** Claim C4, counterexample: an [int] field with [Maximum = 100] and no
    [Minimum] resolves to [int32], not to the unsigned 32-bit width. *)
Lemma int_max_only_not_unsigned :
  get "type" (sample_resolve_field [("typeFromTypes", VStr "int"); ("Maximum", VNum 100%float)])
    = Some (VStr "int32") /\
  get "type" (sample_resolve_field [("typeFromTypes", VStr "int"); ("Maximum", VNum 100%float)])
    <> Some (VStr "uint32").
Proof. split; vm_compute; [reflexivity|discriminate]. Qed.

Lemma resolve_int_one_bound_witness :
  get "type" (sample_resolve_field [("typeFromTypes", VStr "int"); ("Maximum", VNum 100%float)])
    = Some (VStr "int32").
Proof.
  apply (proj1 (resolve_int_one_bound sample_num_of sample_to_str
    [("typeFromTypes", VStr "int"); ("Maximum", VNum 100%float)] [] eq_refl) 100%float);
    vm_compute; reflexivity.
Defined.

(** Claim C7 (as the code stands).  The source compares [|Maximum|] with the
    literal [3.402823466e385], which is [Infinity] as a double: every [float]
    field whose [Maximum] is a number (not NaN) resolves to [float32], so the
    [float64] branch for a present [Maximum] is never taken. *)
Theorem resolve_float_always_32 (num_of : val -> float) (to_str : val -> string)
    (field : obj) (imp : list string) (v : val)
    (Hfl : get "typeFromTypes" field = Some (VStr "float"))
    (Hmax : get "Maximum" field = Some v)
    (Hnum : PrimFloat.is_nan (to_number num_of (Some v)) = false) :
  get "type" (fst (resolve_field num_of to_str field imp)) = Some (VStr "float32").
Proof.
  rewrite (resolve_field_float num_of to_str field imp Hfl).
  unfold setFloatType. rewrite !get_resolve_prefix by discriminate.
  rewrite Hfl, Hmax. cbv beta iota zeta.
  assert (Hi : PrimFloat.leb (PrimFloat.abs (to_number num_of (Some v))) 3.402823466e385%float = true)
    by (apply flt_abs_le_inf; exact Hnum).
  rewrite Hi. apply get_set_eq.
Qed.

Lemma resolve_float_always_32_witness :
  PrimFloat.ltb 3.4028235e38%float 1e39%float = true /\
  get "type" (sample_resolve_field [("typeFromTypes", VStr "float"); ("Maximum", VNum 1e39%float)])
    = Some (VStr "float32").
Proof.
  split; [vm_compute; reflexivity|].
  apply (resolve_float_always_32 sample_num_of sample_to_str
    [("typeFromTypes", VStr "float"); ("Maximum", VNum 1e39%float)] [] (VNum 1e39%float));
    vm_compute; reflexivity.
Defined.

Lemma has_dot_truthy (p : string) : has_dot p = true -> truthy (VStr p) = true.
Proof. destruct p; [discriminate|reflexivity]. Qed.

Lemma last_dotted_fold_dot (ks : list string) (p0 : option string) :
  (forall q, p0 = Some q -> has_dot q = true) ->
  forall q, fold_left (fun p x => if has_dot x then Some x else p) ks p0 = Some q ->
  has_dot q = true.
Proof.
  revert p0; induction ks as [|x ks IH]; intros p0 H; simpl; [exact H|].
  apply IH. intros q Hq. destruct (has_dot x) eqn:E; [injection Hq as <-; exact E|exact (H q Hq)].
Qed.

(** Both loops of [processModels] on one model: after the first loop the
    parent is the last dotted key and no dotted key is left; the second loop
    keeps the parent. *)
Lemma process_model_parent (modulePath : string) (num_of : val -> float) (to_str : val -> string)
    (pkg model : string) (fields : list (string * obj)) (table : list (string * list string)) :
  List.NoDup (keys fields) ->
  parentModel (fst (process_model modulePath num_of to_str pkg model fields table)) =
  last_dotted (keys fields).
Proof.
  intros Hnd. unfold process_model; cbn [fst].
  rewrite loop2_fold_parent.
  - rewrite loop1_fold_parent; [reflexivity|exact Hnd|intros y Hy; exact Hy].
  - apply loop1_fold_nodot. intros y Hy _; exact Hy.
Qed.

(** Claim C5, counterexample: a model [Order] of package [users] with two
    dotted fields [a.P] and [b.Q] is recorded under [b.Q] only; the side
    table has no entry for [a.P]. *)
Lemma two_parents_one_entry :
  snd (sample_process_model "users" "Order"
         [("a.P", [("Type", VStr "string")]); ("b.Q", [("Type", VStr "string")])] [])
    = [("b.Q", ["users.Order"])] /\
  get "a.P" (snd (sample_process_model "users" "Order"
         [("a.P", [("Type", VStr "string")]); ("b.Q", [("Type", VStr "string")])] [])) = None.
Proof. split; vm_compute; reflexivity. Qed.

(** Claim C5 (amended).  The side table receives at most one entry per
    model: the model's qualified name [pkg.model] is appended under the LAST
    dotted key of its field map ([parentModel.value] is overwritten by each
    dotted key); a model with no dotted key leaves the table unchanged. *)
Theorem process_model_records_last_parent (modulePath : string) (num_of : val -> float)
    (to_str : val -> string) (pkg model : string) (fields : list (string * obj))
    (table : list (string * list string)) (Hnd : List.NoDup (keys fields)) :
  snd (process_model modulePath num_of to_str pkg model fields table) =
  match last_dotted (keys fields) with
  | Some p => record_child p (pkg ++ "." ++ model)%string table
  | None => table
  end.
Proof.
  pose proof (process_model_parent modulePath num_of to_str pkg model fields table Hnd) as Hp.
  unfold process_model in *; cbn [fst snd] in *. rewrite Hp.
  destruct (last_dotted (keys fields)) as [p|] eqn:E; [|reflexivity].
  rewrite has_dot_truthy; [reflexivity|].
  apply (last_dotted_fold_dot (keys fields) None); [discriminate|exact E].
Qed.

Lemma process_model_records_last_parent_witness :
  List.NoDup (keys [("a.P", [("Type", VStr "string")]); ("b.Q", [("Type", VStr "string")])]) /\
  snd (sample_process_model "users" "Order"
         [("a.P", [("Type", VStr "string")]); ("b.Q", [("Type", VStr "string")])] [])
    = record_child "b.Q" "users.Order" [].
Proof.
  assert (Hnd : List.NoDup (keys [("a.P", [("Type", VStr "string")]);
                                  ("b.Q", [("Type", VStr "string")])])).
  { simpl. constructor; [simpl; intros [H|[]]; discriminate|constructor; [intros []|constructor]]. }
  split; [exact Hnd|].
  exact (process_model_records_last_parent "example.com/app" sample_num_of sample_to_str
           "users" "Order" _ [] Hnd).
Defined.

Lemma dotted_neq (x y : string) : has_dot x = true -> has_dot y = false -> y <> x.
Proof. intros Hx Hy ->; congruence. Qed.

(** The first loop of [processModels] on the model's own keys, split at a
    dotted key [k] whose expansion no other key collides with. *)
Lemma loop1_expand (modulePath pkg : string) (fields : list (string * obj)) (k : string) (o : obj) :
  List.NoDup (keys fields) -> get k fields = Some o -> has_dot k = true ->
  (forall k', In k' (keys fields) -> k' <> k ->
     k' <> related_model k /\ k' <> (related_model k ++ "Id")%string /\
     (has_dot k' = true -> related_model k' <> related_model k /\
        related_model k' <> (related_model k ++ "Id")%string /\
        (related_model k' ++ "Id")%string <> related_model k)) ->
  let st1 := fold_left (loop1_step modulePath pkg) (keys fields) (mkModelState fields [] None) in
  let X := related_model k in
  let same := String.eqb (related_package k) pkg in
  get k (mfields st1) = None /\
  get X (mfields st1) = Some (cascade_field (if same then X else k)) /\
  get (X ++ "Id") (mfields st1) =
    Some (set "typeFromTypes" (VStr "uuid.UUID") (fst (createFieldVariables o))) /\
  (same = false -> In (getLocalModelPackageStr modulePath (related_package k)) (imports st1)).
Proof.
  intros Hnd Hk Hd Hsep. cbv zeta.
  assert (Hin : In k (keys fields)) by (apply in_keys_get; eauto).
  destruct (in_split k (keys fields) Hin) as (pre & post & Hks).
  rewrite Hks in Hnd. apply NoDup_remove_2 in Hnd as Hk_nin.
  rewrite in_app_iff in Hk_nin.
  assert (Hsep' : forall k', In k' (pre ++ post) ->
     k' <> k /\ k' <> related_model k /\ k' <> (related_model k ++ "Id")%string /\
     (has_dot k' = true -> related_model k' <> related_model k /\
        related_model k' <> (related_model k ++ "Id")%string /\
        (related_model k' ++ "Id")%string <> related_model k)).
  { intros k' Hk'. assert (Hne : k' <> k) by (intros ->; apply Hk_nin; apply in_app_iff in Hk'; exact Hk').
    split; [exact Hne|]. apply Hsep; [|exact Hne].
    rewrite Hks. apply in_app_iff in Hk' as [H|H]; apply in_app_iff; [left|right; right]; exact H. }
  set (X := related_model k). fold X in Hsep'.
  assert (HXk : X <> k) by (apply dotted_neq; [exact Hd|apply related_model_nodot]).
  assert (HXIk : (X ++ "Id")%string <> k) by (apply dotted_neq; [exact Hd|apply related_model_id_nodot]).
  assert (HXI : (X ++ "Id")%string <> X) by apply append_Id_neq.
  rewrite Hks, fold_left_app. cbn [fold_left].
  set (stA := fold_left (loop1_step modulePath pkg) pre (mkModelState fields [] None)).
  assert (HA : get k (mfields stA) = Some o).
  { unfold stA. rewrite loop1_fold_frame; [exact Hk|]. intros x Hx.
    destruct (Hsep' x (in_or_app _ _ _ (or_introl Hx))) as [Hne _]. split; [exact Hne|].
    intros _. split; apply dotted_neq; auto using related_model_nodot, related_model_id_nodot. }
  pose proof (loop1_step_some modulePath pkg stA k o HA) as HB. rewrite Hd in HB. cbv zeta in HB.
  fold X in HB.
  set (stB := loop1_step modulePath pkg stA k) in *.
  assert (Hpost : forall x, In x post -> In x (pre ++ post)) by (intros; apply in_or_app; right; assumption).
  repeat split.
  - rewrite loop1_fold_frame.
    + rewrite HB; cbn [mfields]. rewrite get_del, String.eqb_refl. reflexivity.
    + intros x Hx. destruct (Hsep' x (Hpost x Hx)) as [Hne _]. split; [exact Hne|].
      intros _. split; apply dotted_neq; auto using related_model_nodot, related_model_id_nodot.
  - rewrite loop1_fold_frame.
    + rewrite HB; cbn [mfields]. rewrite get_del, !get_set.
      destruct (String.eqb_spec X k); [congruence|].
      destruct (String.eqb_spec X (X ++ "Id")); [congruence|].
      rewrite String.eqb_refl. reflexivity.
    + intros x Hx. destruct (Hsep' x (Hpost x Hx)) as (_ & HxX & _ & Hdx). split; [exact HxX|].
      intros Hdot. destruct (Hdx Hdot) as (H1 & _ & H3). split; assumption.
  - rewrite loop1_fold_frame.
    + rewrite HB; cbn [mfields]. rewrite get_del, !get_set.
      destruct (String.eqb_spec (X ++ "Id") k); [congruence|].
      rewrite String.eqb_refl. reflexivity.
    + intros x Hx. destruct (Hsep' x (Hpost x Hx)) as (_ & _ & HxXI & Hdx). split; [exact HxXI|].
      intros Hdot. destruct (Hdx Hdot) as (H1 & H2 & _). split; [exact H2|].
      intros E; apply H1; apply (append_cancel_r _ _ "Id"); exact E.
  - intros Hsame. apply loop1_fold_imports. rewrite HB; cbn [imports]. rewrite Hsame.
    apply push_new_self.
Qed.

Lemma keys_del_filter {V} (k : string) (o : list (string * V)) :
  keys (del k o) = List.filter (fun x => negb (String.eqb k x)) (keys o).
Proof.
  induction o as [|[k' v] o IH]; [reflexivity|]. unfold keys in *. cbn [del map fst List.filter].
  destruct (String.eqb k k'); cbn [negb]; [exact IH|]. cbn [map fst]. f_equal. exact IH.
Qed.

Lemma filter_all_true {A} (f : A -> bool) (l : list A) :
  (forall x, In x l -> f x = true) -> List.filter f l = l.
Proof.
  induction l as [|x l IH]; intros H; [reflexivity|]. cbn [List.filter].
  rewrite (H x (or_introl eq_refl)). f_equal. apply IH. intros y Hy; apply H; right; exact Hy.
Qed.

(** Two runs of the first loop that agree on a set of keys keep agreeing
    there after the same step on a key of that set. *)
Lemma loop1_step_sim (modulePath pkg : string) (P : string -> Prop) (sa sb : model_state) (x : string) :
  P x -> (forall y, P y -> get y (mfields sa) = get y (mfields sb)) ->
  forall y, P y ->
  get y (mfields (loop1_step modulePath pkg sa x)) = get y (mfields (loop1_step modulePath pkg sb x)).
Proof.
  intros Px Hy y Py. pose proof (Hy x Px) as Hx.
  destruct (get x (mfields sa)) as [o|] eqn:Ea.
  - rewrite (loop1_step_some modulePath pkg sa x o Ea), (loop1_step_some modulePath pkg sb x o (eq_sym Hx)).
    cbv zeta. destruct (has_dot x); cbn [mfields]; rewrite ?get_del, !get_set;
      repeat match goal with |- context [String.eqb ?a ?b] => destruct (String.eqb a b) end;
      auto.
  - rewrite (loop1_step_none modulePath pkg sa x Ea), (loop1_step_none modulePath pkg sb x (eq_sym Hx)).
    apply Hy, Py.
Qed.

Lemma loop1_fold_sim (modulePath pkg : string) (P : string -> Prop) (ks : list string)
    (sa sb : model_state) :
  (forall x, In x ks -> P x) -> (forall y, P y -> get y (mfields sa) = get y (mfields sb)) ->
  forall y, P y ->
  get y (mfields (fold_left (loop1_step modulePath pkg) ks sa)) =
  get y (mfields (fold_left (loop1_step modulePath pkg) ks sb)).
Proof.
  revert sa sb; induction ks as [|x ks IH]; intros sa sb Hks Hy; [exact Hy|]. cbn [fold_left].
  apply IH; [intros z Hz; apply Hks; right; exact Hz|].
  apply loop1_step_sim; [apply Hks; left; reflexivity|exact Hy].
Qed.

(** The expansion of [k] differs from the run of the first loop on the
    model without [k] exactly at [X] and [XId], both absent from the latter. *)
Lemma loop1_expand_exact (modulePath pkg : string) (fields : list (string * obj)) (k : string) (o : obj) :
  List.NoDup (keys fields) -> get k fields = Some o -> has_dot k = true ->
  (forall k', In k' (keys fields) -> k' <> k ->
     k' <> related_model k /\ k' <> (related_model k ++ "Id")%string /\
     (has_dot k' = true -> related_model k' <> related_model k /\
        related_model k' <> (related_model k ++ "Id")%string /\
        (related_model k' ++ "Id")%string <> related_model k)) ->
  let st1 := fold_left (loop1_step modulePath pkg) (keys fields) (mkModelState fields [] None) in
  let st0 := fold_left (loop1_step modulePath pkg) (keys (del k fields))
               (mkModelState (del k fields) [] None) in
  let X := related_model k in
  get X (mfields st0) = None /\ get (X ++ "Id") (mfields st0) = None /\
  (forall y, y <> X -> y <> (X ++ "Id")%string -> get y (mfields st1) = get y (mfields st0)).
Proof.
  intros Hnd Hk Hd Hsep. cbv zeta.
  assert (Hin : In k (keys fields)) by (apply in_keys_get; eauto).
  destruct (in_split k (keys fields) Hin) as (pre & post & Hks).
  assert (Hnd' := Hnd). rewrite Hks in Hnd'. apply NoDup_remove_2 in Hnd' as Hk_nin.
  rewrite in_app_iff in Hk_nin.
  assert (Hsep' : forall k', In k' (pre ++ post) ->
     k' <> k /\ k' <> related_model k /\ k' <> (related_model k ++ "Id")%string /\
     (has_dot k' = true -> related_model k' <> related_model k /\
        related_model k' <> (related_model k ++ "Id")%string /\
        (related_model k' ++ "Id")%string <> related_model k)).
  { intros k' Hk'. assert (Hne : k' <> k) by (intros ->; apply Hk_nin; apply in_app_iff in Hk'; exact Hk').
    split; [exact Hne|]. apply Hsep; [|exact Hne].
    rewrite Hks. apply in_app_iff in Hk' as [H|H]; apply in_app_iff; [left|right; right]; exact H. }
  assert (Hdel : keys (del k fields) = pre ++ post).
  { rewrite keys_del_filter, Hks, List.filter_app. cbn [List.filter]. rewrite String.eqb_refl.
    cbn [negb]. rewrite !filter_all_true; [reflexivity| |];
    intros x Hx; destruct (String.eqb_spec k x) as [->|]; try reflexivity;
    exfalso; apply Hk_nin; auto. }
  set (X := related_model k) in *.
  assert (HXk : X <> k) by (apply dotted_neq; [exact Hd|apply related_model_nodot]).
  assert (HXIk : (X ++ "Id")%string <> k) by (apply dotted_neq; [exact Hd|apply related_model_id_nodot]).
  assert (HXnin : forall y, y = X \/ y = (X ++ "Id")%string -> get y fields = None).
  { intros y Hy. destruct (get y fields) as [v|] eqn:E; [|reflexivity]. exfalso.
    assert (Hiny : In y (keys fields)) by (apply in_keys_get; eauto).
    destruct (String.eqb_spec y k) as [Eyk|Hyk]; [destruct Hy as [Ey|Ey]; congruence|].
    destruct (Hsep y Hiny Hyk) as (H1 & H2 & _). destruct Hy; congruence. }
  rewrite Hdel. split; [|split].
  - rewrite loop1_fold_frame.
    + cbn [mfields]. rewrite get_del, (proj2 (String.eqb_neq X k) HXk).
      apply HXnin; left; reflexivity.
    + intros x Hx. destruct (Hsep' x Hx) as (_ & HxX & _ & Hdx). split; [exact HxX|].
      intros Hdot. destruct (Hdx Hdot) as (H1 & _ & H3). split; assumption.
  - rewrite loop1_fold_frame.
    + cbn [mfields]. rewrite get_del, (proj2 (String.eqb_neq _ k) HXIk).
      apply HXnin; right; reflexivity.
    + intros x Hx. destruct (Hsep' x Hx) as (_ & _ & HxXI & Hdx). split; [exact HxXI|].
      intros Hdot. destruct (Hdx Hdot) as (H1 & H2 & _). split; [exact H2|].
      intros E; apply H1; apply (append_cancel_r _ _ "Id"); exact E.
  - intros y HyX HyXI. destruct (String.eqb_spec y k) as [->|Hyk].
    + rewrite (proj1 (loop1_expand modulePath pkg fields k o Hnd Hk Hd Hsep)).
      rewrite loop1_fold_frame.
      * cbn [mfields]. rewrite get_del, String.eqb_refl. reflexivity.
      * intros x Hx. destruct (Hsep' x Hx) as [Hne _]. split; [exact Hne|].
        intros _. split; apply dotted_neq; auto using related_model_nodot, related_model_id_nodot.
    + rewrite Hks, fold_left_app, fold_left_app. cbn [fold_left].
      set (P := fun z => z <> k /\ z <> X /\ z <> (X ++ "Id")%string).
      assert (HP : forall x, In x (pre ++ post) -> P x)
        by (intros x Hx; destruct (Hsep' x Hx) as (H1 & H2 & H3 & _); repeat split; assumption).
      apply (loop1_fold_sim modulePath pkg P post);
        [intros x Hx; apply HP, in_or_app; right; exact Hx| |repeat split; assumption].
      intros z Hz. destruct Hz as (Hzk & HzX & HzXI).
      rewrite loop1_get_frame; [| intros E; apply Hzk; symmetry; exact E | intros _; split; intros E; [apply HzX|apply HzXI]; symmetry; exact E].
      apply (loop1_fold_sim modulePath pkg P pre);
        [intros x Hx; apply HP, in_or_app; left; exact Hx| |repeat split; assumption].
      intros w (Hwk & _ & _). cbn [mfields]. rewrite get_del.
      destruct (String.eqb_spec w k); [congruence|reflexivity].
Qed.

(** Claim C6, counterexample: in package [a], the dotted keys [a.X] and
    [b.X] both expand to [X] and [XId]; the second expansion overwrites the
    first, so the reference field for [a.X] has type [b.X] instead of [X], and
    [XId] carries the properties of [b.X], not those of [a.X]. *)
Lemma same_related_model_overwrites :
  get "a.X" [("a.X", [("note", VStr "first")]); ("b.X", [("note", VStr "second")])]
    = Some [("note", VStr "first")] /\
  get "typeFromTypes" (default [] (get "X" (mfields (fst (sample_process_model "a" "M"
    [("a.X", [("note", VStr "first")]); ("b.X", [("note", VStr "second")])] []))))) = Some (VStr "b.X") /\
  get "note" (default [] (get "XId" (mfields (fst (sample_process_model "a" "M"
    [("a.X", [("note", VStr "first")]); ("b.X", [("note", VStr "second")])] []))))) = Some (VStr "second").
Proof. split; [|split]; vm_compute; reflexivity. Qed.

(** Claim C6 (amended).  Let [k] be a dotted key of a model ([pkg.Model]
    form, related model [X]) such that no other key of the model is [X] or
    [XId], and no other dotted key expands to a name among [X] and [XId].
    After the first field loop (relationship expansion) [k] is absent, [X]
    holds the cascade-delete reference whose type is [X] when the related
    package is the current one and the full key [k] otherwise (with the
    package's local import added), and [XId] holds the original field with
    [typeFromTypes = uuid.UUID].  These are exactly the two fields added in
    place of [k]: compared with the first loop run on the same model without
    [k], the field map differs only at [X] and [XId], which that run does
    not have; no other key is added, removed or changed.  In the final field
    map [k] is absent and [XId] has type [uuid.UUID]. *)
Theorem process_model_expands_relationship (modulePath : string) (num_of : val -> float)
    (to_str : val -> string) (pkg model : string) (fields : list (string * obj))
    (table : list (string * list string)) (k : string) (o : obj)
    (Hnd : List.NoDup (keys fields)) (Hk : get k fields = Some o) (Hd : has_dot k = true)
    (Hsep : forall k', In k' (keys fields) -> k' <> k ->
       k' <> related_model k /\ k' <> (related_model k ++ "Id")%string /\
       (has_dot k' = true -> related_model k' <> related_model k /\
          related_model k' <> (related_model k ++ "Id")%string /\
          (related_model k' ++ "Id")%string <> related_model k)) :
  let X := related_model k in
  let same := String.eqb (related_package k) pkg in
  let st1 := fold_left (loop1_step modulePath pkg) (keys fields) (mkModelState fields [] None) in
  let st2 := fst (process_model modulePath num_of to_str pkg model fields table) in
  get k (mfields st1) = None /\
  get X (mfields st1) = Some (cascade_field (if same then X else k)) /\
  get (X ++ "Id") (mfields st1) =
    Some (set "typeFromTypes" (VStr "uuid.UUID") (fst (createFieldVariables o))) /\
  (same = false -> In (getLocalModelPackageStr modulePath (related_package k)) (imports st1)) /\
  (let st0 := fold_left (loop1_step modulePath pkg) (keys (del k fields))
                (mkModelState (del k fields) [] None) in
   get X (mfields st0) = None /\ get (X ++ "Id") (mfields st0) = None /\
   forall y, y <> X -> y <> (X ++ "Id")%string -> get y (mfields st1) = get y (mfields st0)) /\
  get k (mfields st2) = None /\
  exists o2, get (X ++ "Id") (mfields st2) = Some o2 /\ get "type" o2 = Some (VStr "uuid.UUID").
Proof.
  destruct (loop1_expand modulePath pkg fields k o Hnd Hk Hd Hsep) as (H1 & H2 & H3 & H4).
  cbv zeta in *. unfold process_model; cbn [fst].
  set (st1 := fold_left (loop1_step modulePath pkg) (keys fields) (mkModelState fields [] None)) in *.
  split; [exact H1|]. split; [exact H2|]. split; [exact H3|]. split; [exact H4|].
  split; [exact (loop1_expand_exact modulePath pkg fields k o Hnd Hk Hd Hsep)|]. split.
  - rewrite loop2_fold_frame; [exact H1|].
    intros Hin. apply in_keys_get in Hin as (v & Hv). congruence.
  - assert (Hnd1 : List.NoDup (keys (mfields st1))) by (apply loop1_fold_nodup; exact Hnd).
    assert (Hin : In (related_model k ++ "Id")%string (keys (mfields st1)))
      by (apply in_keys_get; eauto).
    destruct (loop2_fold_resolve num_of to_str (keys (mfields st1)) st1 _ _ Hnd1 Hin
                (related_model_id_nodot k) H3) as (imp & Himp).
    eexists; split; [exact Himp|]. apply resolve_uuid. apply get_set_eq.
Qed.

Lemma process_model_expands_relationship_witness :
  get "a.X" [("a.X", [("note", VStr "first")]); ("name", [("Type", VStr "string")])]
    = Some [("note", VStr "first")] /\
  get "X" (mfields (fold_left (loop1_step "example.com/app" "a")
     (keys [("a.X", [("note", VStr "first")]); ("name", [("Type", VStr "string")])])
     (mkModelState [("a.X", [("note", VStr "first")]); ("name", [("Type", VStr "string")])] [] None)))
    = Some (cascade_field "X") /\
  get "name" (mfields (fold_left (loop1_step "example.com/app" "a")
     (keys [("a.X", [("note", VStr "first")]); ("name", [("Type", VStr "string")])])
     (mkModelState [("a.X", [("note", VStr "first")]); ("name", [("Type", VStr "string")])] [] None)))
  = get "name" (mfields (fold_left (loop1_step "example.com/app" "a")
     (keys [("name", [("Type", VStr "string")])])
     (mkModelState [("name", [("Type", VStr "string")])] [] None))).
Proof.
  assert (Hnd : List.NoDup (keys [("a.X", [("note", VStr "first")]);
                                  ("name", [("Type", VStr "string")])])).
  { simpl. constructor; [simpl; intros [H|[]]; discriminate|constructor; [intros []|constructor]]. }
  assert (Hsep : forall k', In k' (keys [("a.X", [("note", VStr "first")]);
                                        ("name", [("Type", VStr "string")])]) -> k' <> "a.X" ->
     k' <> related_model "a.X" /\ k' <> (related_model "a.X" ++ "Id")%string /\
     (has_dot k' = true -> related_model k' <> related_model "a.X" /\
        related_model k' <> (related_model "a.X" ++ "Id")%string /\
        (related_model k' ++ "Id")%string <> related_model "a.X")).
  { intros k' Hk' Hne. simpl in Hk'.
    destruct Hk' as [<-|[<-|[]]]; [congruence|].
    vm_compute. split; [discriminate|split; [discriminate|intros H; discriminate H]]. }
  destruct (process_model_expands_relationship "example.com/app" sample_num_of
              sample_to_str "a" "M" _ [] "a.X" _ Hnd eq_refl eq_refl Hsep)
    as (_ & HX & _ & _ & (_ & _ & Hrest) & _).
  split; [reflexivity|]. split; [exact HX|].
  exact (Hrest "name" ltac:(discriminate) ltac:(discriminate)).
Defined.

(* ------------------------------------------------------------------ *)
(** ** sortModelsByHierarchy *)

Lemma includes_false (s : list string) (m : string) : includes s m = false -> ~ In m s.
Proof.
  unfold includes. intros H Hin. rewrite <- Bool.not_true_iff_false, existsb_exists in H.
  apply H. exists m. split; [exact Hin|apply String.eqb_refl].
Qed.

Lemma includes_true (s : list string) (m : string) : includes s m = true -> In m s.
Proof.
  unfold includes. rewrite existsb_exists. intros (y & Hy & E).
  apply String.eqb_eq in E. subst; exact Hy.
Qed.

Lemma NoDup_snoc (acc : list string) (m : string) :
  List.NoDup acc -> ~ In m acc -> List.NoDup (acc ++ [m]).
Proof.
  induction acc as [|a acc IH]; simpl; intros H Hn; [constructor; [intros []|constructor]|].
  inversion H as [|? ? Ha Hacc]; subst. constructor.
  - rewrite in_app_iff. intros [H'|[<-|[]]]; [contradiction|apply Hn; left; reflexivity].
  - apply IH; [exact Hacc|intros H'; apply Hn; right; exact H'].
Qed.

(** A fold that either keeps the list or appends a new element. *)
Lemma fold_grow (f : list string -> string -> list string) (R : string -> Prop)
    (l acc : list string) :
  (forall s m, f s m = s \/ (f s m = s ++ [m] /\ R m /\ ~ In m s)) ->
  exists added, fold_left f l acc = acc ++ added /\ Forall R added /\
    (forall m, In m added -> In m l) /\ (List.NoDup acc -> List.NoDup (acc ++ added)).
Proof.
  intros Hf. revert acc; induction l as [|m l IH]; intros acc; simpl.
  - exists []. rewrite app_nil_r. repeat split; auto; intros ? [].
  - destruct (Hf acc m) as [E|(E & HR & Hn)]; rewrite E.
    + destruct (IH acc) as (added & H1 & H2 & H3 & H4). exists added.
      repeat split; auto.
    + destruct (IH (acc ++ [m])) as (added & H1 & H2 & H3 & H4). exists (m :: added).
      rewrite H1, <- app_assoc. repeat split.
      * constructor; assumption.
      * intros y [<-|Hy]; [left; reflexivity|right; apply H3; exact Hy].
      * intros Hnd. replace (acc ++ m :: added) with ((acc ++ [m]) ++ added)
          by (rewrite <- app_assoc; reflexivity).
        apply H4, NoDup_snoc; assumption.
Qed.

Lemma fold_grow_iter (g : list string -> list string) (R : string -> Prop) (l : list string) :
  (forall acc, exists added, g acc = acc ++ added /\ Forall R added /\
     (forall m, In m added -> In m l) /\ (List.NoDup acc -> List.NoDup (acc ++ added))) ->
  forall n acc, exists added, Nat.iter n g acc = acc ++ added /\ Forall R added /\
     (forall m, In m added -> In m l) /\ (List.NoDup acc -> List.NoDup (acc ++ added)).
Proof.
  intros Hg n acc. induction n as [|n IH]; simpl.
  - exists []. rewrite app_nil_r. repeat split; auto; intros ? [].
  - destruct IH as (a1 & E1 & F1 & I1 & N1).
    destruct (Hg (Nat.iter n g acc)) as (a2 & E2 & F2 & I2 & N2).
    exists (a1 ++ a2). rewrite E2, E1, <- app_assoc. repeat split.
    + apply Forall_app; split; assumption.
    + intros m Hm. apply in_app_iff in Hm as [Hm|Hm]; auto.
    + intros Hnd. rewrite app_assoc. rewrite <- E1. apply N2. rewrite E1. apply N1, Hnd.
Qed.

Lemma phase1_filter (table : list (string * list string)) (l acc : list string) :
  fold_left (fun sorted model => if isChild table model then sorted else sorted ++ [model]) l acc =
  acc ++ List.filter (fun m => negb (isChild table m)) l.
Proof.
  revert acc; induction l as [|m l IH]; intros acc; simpl; [rewrite app_nil_r; reflexivity|].
  destruct (isChild table m); simpl; rewrite IH; [reflexivity|rewrite <- app_assoc; reflexivity].
Qed.

Lemma count_parents_child (table : list (string * list string)) (x : string) (n0 : nat) (p0 : string) :
  fst (fold_left (fun '(n, p) kv => if includes (snd kv) x then (S n, fst kv) else (n, p))
         table (n0, p0)) <> n0 ->
  existsb (fun item => includes item x) (map snd table) = true.
Proof.
  revert n0 p0; induction table as [|kv t IH]; intros n0 p0; simpl; [congruence|].
  destruct (includes (snd kv) x) eqn:E; [reflexivity|]. intros H. apply IH in H. exact H.
Qed.

Lemma phase3_in (l acc : list string) (m : string) :
  In m acc \/ In m l ->
  In m (fold_left (fun sorted model => if includes sorted model then sorted else sorted ++ [model]) l acc).
Proof.
  revert acc; induction l as [|y l IH]; intros acc H; simpl.
  - destruct H as [H|[]]; exact H.
  - apply IH. destruct (includes acc y) eqn:E.
    + destruct H as [H|[<-|H]]; auto. left; apply includes_true; exact E.
    + destruct H as [H|[<-|H]]; auto; left; apply in_or_app; [left; exact H|right; left; reflexivity].
Qed.

(** Claim C9, counterexample: a model name listed twice, for instance
    because two package names have the same camelCase form, is pushed twice
    by the first phase (which has no membership test), so the output repeats
    it. *)
Lemma sort_models_repeats_input :
  sortModelsByHierarchy ["aModels.X"; "aModels.X"] [] = ["aModels.X"; "aModels.X"] /\
  ~ List.NoDup (sortModelsByHierarchy ["aModels.X"; "aModels.X"] []).
Proof.
  split; [vm_compute; reflexivity|].
  vm_compute. intros H. inversion H as [|? ? Hn _]; subst. apply Hn; left; reflexivity.
Qed.

(** Claim C9 (amended).  The output of [sortModelsByHierarchy] is the list
    of input models that are nobody's child, in input order, followed by the
    models placed by the six passes (all of them children), followed by the
    rest; it holds exactly the input models, and it has no repetition when
    the input has none (the first phase copies a repeated root model). *)
Theorem sort_models_roots_first (allModelStrs : list string) (table : list (string * list string)) :
  let out := sortModelsByHierarchy allModelStrs table in
  (exists passed rest,
     out = List.filter (fun m => negb (isChild table m)) allModelStrs ++ passed ++ rest /\
     Forall (fun m => isChild table m = true) passed) /\
  (forall m, In m out <-> In m allModelStrs) /\
  (List.NoDup allModelStrs -> List.NoDup out).
Proof.
  cbv zeta. unfold sortModelsByHierarchy. cbv zeta.
  rewrite phase1_filter. cbn [app].
  set (roots := List.filter (fun m => negb (isChild table m)) allModelStrs).
  match goal with |- context [Nat.iter 6 ?g roots] => set (pass := g) end.
  assert (Hpass : forall acc, exists added, pass acc = acc ++ added /\
            Forall (fun m => isChild table m = true) added /\
            (forall m, In m added -> In m allModelStrs) /\
            (List.NoDup acc -> List.NoDup (acc ++ added))).
  { intros acc. unfold pass. apply fold_grow. intros s m. cbv beta.
    match goal with |- context [fold_left ?h table (0%nat, "")] =>
      destruct (fold_left h table (0%nat, "")) as [n p] eqn:E end.
    match goal with |- context [if ?c then _ else _] => destruct c eqn:C end;
      [right|left; reflexivity].
    split; [reflexivity|].
    apply andb_prop in C as [C1 C3]. apply andb_prop in C1 as [C0 _].
    apply Nat.eqb_eq in C0; subst n. split.
    - unfold isChild. apply (count_parents_child table _ 0 ""). rewrite E. discriminate.
    - apply includes_false. apply negb_true_iff in C3; exact C3. }
  destruct (fold_grow_iter pass _ allModelStrs Hpass 6 roots) as (passed & E2 & F2 & I2 & N2).
  rewrite E2.
  match goal with |- context [fold_left ?h allModelStrs (roots ++ passed)] =>
    set (f3 := h) end.
  assert (Hf3 : forall s m, f3 s m = s \/ (f3 s m = s ++ [m] /\ True /\ ~ In m s)).
  { intros s m. unfold f3. destruct (includes s m) eqn:E; [left; reflexivity|].
    right. split; [reflexivity|split; [exact I|apply includes_false; exact E]]. }
  destruct (fold_grow f3 (fun _ => True) allModelStrs (roots ++ passed) Hf3)
    as (rest & E3 & _ & I3 & N3).
  rewrite E3. split; [|split].
  - exists passed, rest. rewrite <- app_assoc. split; [reflexivity|exact F2].
  - intros m. split.
    + rewrite !in_app_iff. intros [[Hm|Hm]|Hm]; auto.
      unfold roots in Hm. apply filter_In in Hm as [Hm _]; exact Hm.
    + intros Hm. rewrite <- E3. apply phase3_in. right; exact Hm.
  - intros Hnd. apply N3, N2. apply List.NoDup_filter; exact Hnd.
Qed.

(* ------------------------------------------------------------------ *)
(** ** [forFields] as a map over the reached fields *)

Lemma in_reached (md : root) (ms : gmap loc (list (string * loc))) (fl : loc) :
  In fl (reached md ms) <->
  exists s pkg m ml modelData x, In (s, pkg) md /\ In (m, ml) pkg /\
    ms !! ml = Some modelData /\ get x modelData = Some fl.
Proof.
  unfold reached. rewrite in_flat_map. split.
  - intros ([s pkg] & Hs & Hin). rewrite in_flat_map in Hin.
    destruct Hin as ([m ml] & Hm & Hin). unfold model_fields in Hin.
    destruct (ms !! ml) as [modelData|] eqn:E; [|destruct Hin].
    rewrite in_flat_map in Hin. destruct Hin as (x & _ & Hx).
    destruct (get x modelData) as [fl'|] eqn:G; [|destruct Hx].
    destruct Hx as [<-|[]]. exists s, pkg, m, ml, modelData, x. auto.
  - intros (s & pkg & m & ml & modelData & x & Hs & Hm & E & G).
    exists (s, pkg). split; [exact Hs|]. rewrite in_flat_map.
    exists (m, ml). split; [exact Hm|]. unfold model_fields. rewrite E.
    rewrite in_flat_map. exists x. split.
    + apply in_keys_get. eauto.
    + rewrite G. left; reflexivity.
Qed.

Lemma models_present_spec (md : root) (ms : gmap loc (list (string * loc))) :
  models_present md ms = true ->
  forall s pkg m ml, In (s, pkg) md -> In (m, ml) pkg -> exists modelData, ms !! ml = Some modelData.
Proof.
  unfold models_present. intros H s pkg m ml Hs Hm.
  rewrite forallb_forall in H. specialize (H _ Hs). simpl in H.
  rewrite forallb_forall in H. specialize (H _ Hm). simpl in H.
  apply bool_decide_eq_true in H. destruct H as [x Hx]. eauto.
Qed.

(** [forFields] with its three loops named. *)
Definition ff_field (body : loc -> M unit) (modelData : list (string * loc)) (_ : unit)
  (field : string) : M unit :=
  match get field modelData with Some fl => body fl | None => ret tt end.

Definition ff_model (body : loc -> M unit) (_ : unit) (e : string * loc) : M unit :=
  let '(_, ml) := e in
  let* modelData := read_model ml in
  foldlM (ff_field body modelData) (keys modelData) tt.

Definition ff_sheet (body : loc -> M unit) (_ : unit) (e : string * list (string * loc)) : M unit :=
  let '(_, pkg) := e in foldlM (ff_model body) pkg tt.

Lemma forFields_eq (body : loc -> M unit) (md : root) :
  forFields body md = foldlM (ff_sheet body) md tt.
Proof. reflexivity. Qed.

Section ForFieldsMap.

Variable body : loc -> M unit.
Variable f : obj -> obj.
Variable ok : obj -> Prop.

Hypothesis Hbody : forall fl h o, fields h !! fl = Some o -> ok o ->
  body fl h = Some (tt, mkHeap (models h) (<[fl := f o]> (fields h))).
Hypothesis Hok : forall o, ok o -> ok (f o).
Hypothesis Hidem : forall o, ok o -> f (f o) = f o.

Variable h0 : heap.

(** The store after visiting the fields of [S]: those hold their image,
    the others their first value. *)
Definition map_inv (S : loc -> Prop) (h : heap) : Prop :=
  models h = models h0 /\
  (forall fl, fields h !! fl = fields h0 !! fl \/ fields h !! fl = f <$> fields h0 !! fl) /\
  (forall fl, S fl -> fields h !! fl = f <$> fields h0 !! fl) /\
  (forall fl, ~ S fl -> fields h !! fl = fields h0 !! fl).

Lemma map_inv_ext (S S' : loc -> Prop) (h : heap) :
  (forall fl, S fl <-> S' fl) -> map_inv S h -> map_inv S' h.
Proof.
  intros HS (Hm & Hor & Hin & Hout). repeat split; auto.
  - intros fl H. apply Hin, HS, H.
  - intros fl H. apply Hout. intros H'. apply H, HS, H'.
Qed.

Lemma map_inv_body (S : loc -> Prop) (fl : loc) (h : heap) :
  (exists o, fields h0 !! fl = Some o /\ ok o) ->
  map_inv S h ->
  exists h', body fl h = Some (tt, h') /\ map_inv (fun y => y = fl \/ S y) h'.
Proof.
  intros (o & E0 & Ho) (Hm & Hor & Hin & Hout).
  assert (Hcur : exists c, fields h !! fl = Some c /\ ok c /\ f c = f o).
  { destruct (Hor fl) as [E|E]; rewrite E, E0.
    - exists o; auto.
    - exists (f o); simpl; auto. }
  destruct Hcur as (c & Ec & Hc & Hfc).
  eexists; split; [apply Hbody; eauto|].
  repeat split; simpl.
  - exact Hm.
  - intros y. destruct (decide (y = fl)) as [->|Hne].
    + right. rewrite lookup_insert_eq, E0. simpl. rewrite Hfc. reflexivity.
    + rewrite lookup_insert_ne by congruence. apply Hor.
  - intros y [->|Hy].
    + rewrite lookup_insert_eq, E0. simpl. rewrite Hfc. reflexivity.
    + destruct (decide (y = fl)) as [->|Hne].
      * rewrite lookup_insert_eq, E0. simpl. rewrite Hfc. reflexivity.
      * rewrite lookup_insert_ne by congruence. apply Hin, Hy.
  - intros y Hy. rewrite lookup_insert_ne by (intros ->; apply Hy; left; reflexivity).
    apply Hout. intros H. apply Hy. right; exact H.
Qed.

Lemma map_inv_fold {B} (step : unit -> B -> M unit) (G : B -> loc -> Prop) (l : list B)
  (S : loc -> Prop) (h : heap) :
  (forall b S h, In b l -> map_inv S h ->
     exists h', step tt b h = Some (tt, h') /\ map_inv (fun y => G b y \/ S y) h') ->
  map_inv S h ->
  exists h', foldlM step l tt h = Some (tt, h') /\
    map_inv (fun y => (exists b, In b l /\ G b y) \/ S y) h'.
Proof.
  revert S h; induction l as [|b l IH]; intros S h Hstep Hi; simpl.
  - exists h. split; [reflexivity|]. eapply map_inv_ext; [|exact Hi].
    intros y. split; [auto|intros [(? & [] & _)|H]; auto].
  - destruct (Hstep b S h (or_introl eq_refl) Hi) as (h1 & E1 & Hi1).
    unfold bind. rewrite E1.
    destruct (IH _ h1 (fun b' S' h' Hb => Hstep b' S' h' (or_intror Hb)) Hi1) as (h2 & E2 & Hi2).
    exists h2. split; [exact E2|]. eapply map_inv_ext; [|exact Hi2].
    intros y. split.
    + intros [(b' & Hb' & Hg)|[Hg|Hs]]; eauto.
    + intros [(b' & [<-|Hb'] & Hg)|Hs]; eauto.
Qed.

Lemma forFields_map (md : root) :
  models_present md (models h0) = true ->
  (forall fl, In fl (reached md (models h0)) -> exists o, fields h0 !! fl = Some o /\ ok o) ->
  exists h', forFields body md h0 = Some (tt, h') /\
    models h' = models h0 /\
    forall fl, fields h' !! fl =
      if bool_decide (elem_of fl (reached md (models h0))) then f <$> fields h0 !! fl
      else fields h0 !! fl.
Proof.
  intros Hpres Hreach.
  assert (Hi0 : map_inv (fun _ => False) h0).
  { repeat split; auto. intros fl []. }
  rewrite forFields_eq.
  destruct (map_inv_fold (ff_sheet body)
    (fun '(s, pkg) y => exists m ml modelData x, In (m, ml) pkg /\
        models h0 !! ml = Some modelData /\ get x modelData = Some y)
    md (fun _ => False) h0) as (h' & E & Hi); [| exact Hi0 |].
  - intros [s pkg] S h Hs HiS.
    unfold ff_sheet.
    destruct (map_inv_fold (ff_model body)
      (fun '(m, ml) y => exists modelData x,
          models h0 !! ml = Some modelData /\ get x modelData = Some y)
      pkg S h) as (h1 & E1 & Hi1); [| exact HiS |].
    + intros [m ml] S1 h1 Hm Hi1.
      destruct (models_present_spec _ _ Hpres s pkg m ml Hs Hm) as [modelData Emd].
      assert (Hread : read_model ml h1 = Some (modelData, h1)).
      { unfold read_model. destruct Hi1 as [-> _]. rewrite Emd. reflexivity. }
      unfold ff_model, bind at 1. rewrite Hread.
      destruct (map_inv_fold (ff_field body modelData) (fun x y => get x modelData = Some y) (keys modelData) S1 h1)
        as (h2 & E2 & Hi2); [| exact Hi1 |].
      * intros x S2 h2 Hx Hi2. unfold ff_field. destruct (get x modelData) as [fl|] eqn:G.
        -- destruct (map_inv_body S2 fl h2) as (h3 & E3 & Hi3); [|exact Hi2|].
           ++ apply Hreach. apply in_reached. exists s, pkg, m, ml, modelData, x. auto.
           ++ exists h3. split; [exact E3|]. eapply map_inv_ext; [|exact Hi3].
              intros y. split; intros [Hy|Hy]; auto; left; congruence.
        -- exists h2. split; [reflexivity|]. eapply map_inv_ext; [|exact Hi2].
           intros y. split; [auto|intros [Hy|Hy]; [congruence|exact Hy]].
      * exists h2. split; [exact E2|]. eapply map_inv_ext; [|exact Hi2].
        intros y. split.
        -- intros [(x & _ & Hx)|Hy]; [left; eauto|right; exact Hy].
        -- intros [(md' & x & Emd' & Hx)|Hy]; [|right; exact Hy].
           rewrite Emd in Emd'. injection Emd' as <-. left. exists x.
           split; [apply in_keys_get; eauto|exact Hx].
    + exists h1. split; [exact E1|]. eapply map_inv_ext; [|exact Hi1].
      intros y. split.
      * intros [([m ml] & Hm & md' & x & Emd & Hx)|Hy]; [left|right; exact Hy].
        exists m, ml, md', x. auto.
      * intros [(m & ml & md' & x & Hm & Emd & Hx)|Hy]; [left|right; exact Hy].
        exists (m, ml). split; [exact Hm|]. exists md', x. auto.
  - exists h'. split; [exact E|].
    destruct Hi as (Hm & _ & Hin & Hout). split; [exact Hm|].
    intros fl. case_bool_decide as Hr; rewrite list_elem_of_In in Hr.
    + apply Hin. left. apply in_reached in Hr.
      destruct Hr as (s & pkg & m & ml & modelData & x & Hs & Hm' & Emd & Hx).
      exists (s, pkg). split; [exact Hs|]. exists m, ml, modelData, x. auto.
    + apply Hout. intros [([s pkg] & Hs & m & ml & modelData & x & Hm' & Emd & Hx)|[]].
      apply Hr. apply in_reached. exists s, pkg, m, ml, modelData, x. auto.
Qed.

End ForFieldsMap.

(** [forFields] throws when it reaches a field on which its body throws,
    the bodies run before keeping what makes it throw. *)
Lemma forFields_throws (body : loc -> M unit) (P : heap -> Prop) (md : root)
  (s : string) (pkg : list (string * loc)) (m : string) (ml : loc)
  (modelData : list (string * loc)) (x : string) (fl : loc) (h : heap) :
  (forall fl' h h', P h -> body fl' h = Some (tt, h') -> P h') ->
  (forall h, P h -> body fl h = None) ->
  (forall h, P h -> models h !! ml = Some modelData) ->
  In (s, pkg) md -> In (m, ml) pkg -> get x modelData = Some fl ->
  P h -> forFields body md h = None.
Proof.
  intros Hpres Hbad Hml Hs Hm Hx Hh.
  assert (Hf : forall md0 b h h', P h -> ff_field body md0 tt b h = Some (tt, h') -> P h').
  { intros md0 b h1 h1' H1. unfold ff_field. destruct (get b md0); [apply Hpres; exact H1|].
    unfold ret; intros [=<-]; exact H1. }
  assert (Hm' : forall e h h', P h -> ff_model body tt e h = Some (tt, h') -> P h').
  { intros [m' ml'] h1 h1' H1 E. unfold ff_model in E.
    apply bind_some in E as (md0 & h3 & E3 & E4). unfold read_model in E3.
    destruct (models h1 !! ml'); [injection E3 as <- <-|discriminate].
    eapply (foldlM_inv (fun _ h => P h)); [|exact H1|exact E4].
    intros [] b h2 [] h2' _ H2. apply Hf; exact H2. }
  rewrite forFields_eq.
  apply (foldlM_throws (fun _ h => P h)
           (fun e => existsb (fun e' => bool_decide (snd e' = ml)) (snd e))).
  - intros [] [s' pkg'] h1 [] h1' _ H1 E. unfold ff_sheet in E.
    eapply (foldlM_inv (fun _ h => P h)); [|exact H1|exact E].
    intros [] b h2 [] h2' _ H2. apply Hm'; exact H2.
  - intros [] [s' pkg'] h1 Hb H1. simpl in Hb. unfold ff_sheet.
    apply (foldlM_throws (fun _ h => P h) (fun e' => bool_decide (snd e' = ml))).
    + intros [] e h2 [] h2' _ H2. apply Hm'; exact H2.
    + intros [] [m' ml'] h2 Hb' H2. simpl in Hb'. apply bool_decide_eq_true in Hb'. subst ml'.
      unfold ff_model, bind, read_model. rewrite (Hml h2 H2).
      apply (foldlM_throws (fun _ h => P h) (fun x' => bool_decide (get x' modelData = Some fl))).
      * intros [] b h3 [] h3' _ H3. apply Hf; exact H3.
      * intros [] b h3 Hb3 H3. apply bool_decide_eq_true in Hb3.
        unfold ff_field. rewrite Hb3. apply Hbad; exact H3.
      * apply existsb_exists. exists x. split; [apply in_keys_get; eauto|].
        apply bool_decide_eq_true; exact Hx.
      * exact H2.
    + exact Hb.
    + exact H1.
  - apply existsb_exists. exists (s, pkg). split; [exact Hs|].
    apply existsb_exists. exists (m, ml). split; [exact Hm|]. apply bool_decide_eq_true; reflexivity.
  - exact Hh.
Qed.

(* ------------------------------------------------------------------ *)
(** ** [segregateAPISections] on one field object *)

Definition not_moved (kv : string * val) : bool := negb (api_moved kv).

Definition add_api (a : obj) (kv : string * val) : obj :=
  let '(k, v) := kv in set (lower k) (lower_val v) a.

Lemma get_app_notin {V} (k : string) (l1 l2 : list (string * V)) :
  ~ In k (keys l1) -> get k (l1 ++ l2) = get k l2.
Proof.
  induction l1 as [|[k0 v0] l1 IH]; simpl; intros Hk; [reflexivity|].
  destruct (String.eqb_spec k k0) as [->|]; [exfalso; apply Hk; left; reflexivity|].
  apply IH. intros H; apply Hk; right; exact H.
Qed.

Lemma del_notin {V} (k : string) (l : list (string * V)) :
  ~ In k (keys l) -> del k l = l.
Proof.
  induction l as [|[k0 v0] l IH]; simpl; intros Hk; [reflexivity|].
  destruct (String.eqb_spec k k0) as [->|]; [exfalso; apply Hk; left; reflexivity|].
  rewrite IH; [reflexivity|]. intros H; apply Hk; right; exact H.
Qed.

Lemma del_app {V} (k : string) (l1 l2 : list (string * V)) :
  del k (l1 ++ l2) = del k l1 ++ del k l2.
Proof.
  induction l1 as [|[k0 v0] l1 IH]; simpl; [reflexivity|].
  destruct (String.eqb k k0); simpl; rewrite IH; reflexivity.
Qed.

Lemma keys_filter_incl {V} (p : string * V -> bool) (l : list (string * V)) (k : string) :
  In k (keys (List.filter p l)) -> In k (keys l).
Proof.
  unfold keys. intros Hin. apply in_map_iff in Hin as ([k' w'] & <- & Hin).
  apply filter_In in Hin as [Hin _]. change k' with (fst (k', w')). apply in_map; exact Hin.
Qed.

Lemma set_not_nil {V} (k : string) (v : V) (o : list (string * V)) : set k v o <> [].
Proof. destruct o as [|[k0 v0] o]; simpl; [discriminate|]. destruct (String.eqb k k0); discriminate. Qed.

Lemma In_set {V} (k : string) (v : V) (o : list (string * V)) (kv : string * V) :
  In kv (set k v o) -> kv = (k, v) \/ In kv o.
Proof.
  induction o as [|[k0 v0] o IH]; simpl; [intros [<-|[]]; auto|].
  destruct (String.eqb k k0); simpl.
  - intros [<-|H]; auto.
  - intros [<-|H]; auto. destruct (IH H); auto.
Qed.

Lemma is_crud_api : is_crud "api" = false.
Proof. reflexivity. Qed.

Lemma NoDup_insert {A} (l1 l2 : list A) (a : A) :
  List.NoDup (l1 ++ l2) -> ~ In a (l1 ++ l2) -> List.NoDup (l1 ++ a :: l2).
Proof.
  induction l1 as [|x l1 IH]; simpl; intros Hnd Ha; [constructor; auto|].
  inversion Hnd as [|? ? Hx Hnd']; subst. constructor.
  - rewrite in_app_iff. simpl. intros [H|[->|H]]; [apply Hx; apply in_app_iff; auto|apply Ha; auto|].
    apply Hx, in_app_iff; auto.
  - apply IH; [exact Hnd'|]. intros H; apply Ha; right; exact H.
Qed.

Lemma seg_fold (rest done : obj) (api : obj) (h : heap) :
  List.NoDup (keys (done ++ rest)) -> crud_ok rest = true ->
  foldlM segregate_key (keys rest) (List.filter not_moved done ++ rest, api) h =
  Some ((List.filter not_moved (done ++ rest),
         fold_left add_api (List.filter api_moved rest) api), h).
Proof.
  revert done api; induction rest as [|[k v] rest IH]; intros done api Hnd Hok.
  - simpl. rewrite !app_nil_r. reflexivity.
  - simpl in Hok. apply andb_true_iff in Hok as [Hkv Hok].
    unfold keys in Hnd. rewrite map_app in Hnd. simpl in Hnd.
    apply NoDup_remove in Hnd as [Hnd Hk]. rewrite in_app_iff in Hk.
    assert (Hnd' : List.NoDup (keys ((done ++ [(k, v)]) ++ rest))).
    { unfold keys. rewrite <- app_assoc, map_app. simpl. apply NoDup_insert; [exact Hnd|].
      rewrite in_app_iff. intros [H|H]; apply Hk; auto. }
    assert (Hget : get k (List.filter not_moved done ++ (k, v) :: rest) = Some v).
    { rewrite get_app_notin; [simpl; rewrite String.eqb_refl; reflexivity|].
      intros H. apply keys_filter_incl in H. apply Hk; left; exact H. }
    assert (Hstep : forall (kv : string * val) (api' : obj),
      kv = (k, v) ->
      api' = (if api_moved kv then add_api api kv else api) ->
      segregate_key (List.filter not_moved done ++ kv :: rest, api) k h =
        Some ((List.filter not_moved (done ++ [kv]) ++ rest, api'), h) ->
      foldlM segregate_key (keys (kv :: rest)) (List.filter not_moved done ++ kv :: rest, api) h =
      Some ((List.filter not_moved (done ++ kv :: rest),
             fold_left add_api (List.filter api_moved (kv :: rest)) api), h)).
    { intros kv api' -> -> E. cbn [keys map foldlM fst]. unfold bind at 1. rewrite E.
      change (map fst rest) with (keys rest). rewrite IH by (exact Hnd' || exact Hok).
      rewrite <- app_assoc. cbn [app List.filter].
      destruct (api_moved (k, v)); reflexivity. }
    apply Hstep with (api' := if api_moved (k, v) then add_api api (k, v) else api); [reflexivity..|].
    unfold segregate_key. cbn [fst]. fold (is_crud k).
    destruct (is_crud k) eqn:Ec.
    + destruct v as [b| | | |]; simpl in Hkv; try discriminate. rewrite Hget.
      destruct (existsb (String.eqb (lower b)) ["required"; "optional"]) eqn:Eb.
      * assert (Hm : api_moved (k, VStr b) = true).
        { unfold api_moved. rewrite Ec, Eb. reflexivity. }
        rewrite Hm. unfold ret. rewrite del_app. cbn [del]. rewrite String.eqb_refl.
        rewrite (del_notin k rest), (del_notin k (List.filter not_moved done)).
        -- rewrite List.filter_app. cbn [List.filter].
           replace (not_moved (k, VStr b)) with false by (unfold not_moved; rewrite Hm; reflexivity).
           rewrite app_nil_r. reflexivity.
        -- intros H. apply keys_filter_incl in H. apply Hk; left; exact H.
        -- intros H; apply Hk; right; exact H.
      * assert (Hm : api_moved (k, VStr b) = false).
        { unfold api_moved. rewrite Ec, Eb. reflexivity. }
        rewrite Hm. unfold ret. rewrite List.filter_app, <- app_assoc. cbn [List.filter].
        replace (not_moved (k, VStr b)) with true by (unfold not_moved; rewrite Hm; reflexivity).
        reflexivity.
    + assert (Hm : api_moved (k, v) = false).
      { unfold api_moved. rewrite Ec. reflexivity. }
      rewrite Hm. unfold ret. rewrite List.filter_app, <- app_assoc. cbn [List.filter].
      replace (not_moved (k, v)) with true by (unfold not_moved; rewrite Hm; reflexivity).
      reflexivity.
Qed.

Lemma seg_fold_none (rest done : obj) (api : obj) (h : heap) :
  List.NoDup (keys (done ++ rest)) -> crud_ok rest = false ->
  foldlM segregate_key (keys rest) (List.filter not_moved done ++ rest, api) h = None.
Proof.
  revert done api; induction rest as [|[k v] rest IH]; intros done api Hnd Hok; [discriminate|].
  unfold keys in Hnd. rewrite map_app in Hnd. simpl in Hnd.
  apply NoDup_remove in Hnd as [Hnd Hk]. rewrite in_app_iff in Hk.
  assert (Hnd' : List.NoDup (keys ((done ++ [(k, v)]) ++ rest))).
  { unfold keys. rewrite <- app_assoc, map_app. simpl. apply NoDup_insert; [exact Hnd|].
    rewrite in_app_iff. intros [H|H]; apply Hk; auto. }
  assert (Hget : get k (List.filter not_moved done ++ (k, v) :: rest) = Some v).
  { rewrite get_app_notin; [simpl; rewrite String.eqb_refl; reflexivity|].
    intros H. apply keys_filter_incl in H. apply Hk; left; exact H. }
  cbn [keys map foldlM fst]. unfold bind at 1.
  simpl in Hok. destruct (negb (is_crud k) || match v with VStr _ => true | _ => false end) eqn:Ekv.
  - simpl in Hok.
    assert (Hrest : foldlM segregate_key (keys rest)
              (List.filter not_moved (done ++ [(k, v)]) ++ rest,
               if api_moved (k, v) then add_api api (k, v) else api) h = None)
      by (apply IH; [exact Hnd'|exact Hok]).
    unfold segregate_key at 1. cbn [fst]. fold (is_crud k).
    destruct (is_crud k) eqn:Ec.
    + destruct v as [b| | | |]; simpl in Ekv; try discriminate. rewrite Hget.
      destruct (existsb (String.eqb (lower b)) ["required"; "optional"]) eqn:Eb.
      * assert (Hm : api_moved (k, VStr b) = true).
        { unfold api_moved. rewrite Ec, Eb. reflexivity. }
        rewrite Hm in Hrest. unfold ret. rewrite del_app. cbn [del]. rewrite String.eqb_refl.
        rewrite (del_notin k rest), (del_notin k (List.filter not_moved done)).
        -- rewrite List.filter_app in Hrest. cbn [List.filter] in Hrest.
           replace (not_moved (k, VStr b)) with false in Hrest
             by (unfold not_moved; rewrite Hm; reflexivity).
           rewrite app_nil_r in Hrest. exact Hrest.
        -- intros H. apply keys_filter_incl in H. apply Hk; left; exact H.
        -- intros H; apply Hk; right; exact H.
      * assert (Hm : api_moved (k, VStr b) = false).
        { unfold api_moved. rewrite Ec, Eb. reflexivity. }
        rewrite Hm in Hrest. unfold ret. rewrite List.filter_app, <- app_assoc in Hrest.
        cbn [List.filter] in Hrest.
        replace (not_moved (k, VStr b)) with true in Hrest
          by (unfold not_moved; rewrite Hm; reflexivity).
        exact Hrest.
    + assert (Hm : api_moved (k, v) = false).
      { unfold api_moved. rewrite Ec. reflexivity. }
      rewrite Hm in Hrest. unfold ret. rewrite List.filter_app, <- app_assoc in Hrest.
      cbn [List.filter] in Hrest.
      replace (not_moved (k, v)) with true in Hrest
        by (unfold not_moved; rewrite Hm; reflexivity).
      exact Hrest.
  - apply orb_false_iff in Ekv as [Ec Ev]. apply negb_false_iff in Ec.
    unfold segregate_key at 1. cbn [fst]. fold (is_crud k). rewrite Ec, Hget.
    destruct v; try discriminate; reflexivity.
Qed.

Lemma segregate_key_heap (l : list string) (acc r : obj * obj) (h h' : heap) :
  foldlM segregate_key l acc h = Some (r, h') -> h' = h.
Proof.
  intros E. apply (foldlM_inv (fun _ h1 => h1 = h) segregate_key l acc r h h'); [|reflexivity|exact E].
  intros [o a] b h1 a' h1' _ ->. unfold segregate_key.
  destruct (existsb _ _); [|unfold ret; congruence].
  destruct (get b o) as [[]|]; try (unfold throw; discriminate).
  destruct (existsb _ _); unfold ret; congruence.
Qed.

Lemma segregate_field_ok (fl : loc) (h : heap) (o : obj) :
  fields h !! fl = Some o -> List.NoDup (keys o) -> crud_ok o = true ->
  segregate_field fl h = Some (tt, mkHeap (models h) (<[fl := segregated o]> (fields h))).
Proof.
  intros Eo Hnd Hok. unfold segregate_field, bind at 1, read_field. rewrite Eo.
  pose proof (seg_fold o [] [] h Hnd Hok) as E. simpl in E.
  unfold bind at 1. rewrite E. unfold segregated, api_of.
  destruct (List.filter api_moved o) as [|kv l] eqn:F; [reflexivity|].
  cbn [fold_left].
  assert (Hne : forall l' a, a <> [] -> fold_left add_api l' a <> []).
  { intros l'. induction l' as [|[k v] l' IH]; intros a Ha; simpl; [exact Ha|]. apply IH, set_not_nil. }
  destruct (fold_left add_api l (add_api [] kv)) eqn:Ea.
  - exfalso. revert Ea. apply Hne. destruct kv; apply set_not_nil.
  - rewrite <- Ea. unfold write_field. do 4 f_equal.
Qed.

Lemma segregate_field_none (fl : loc) (h : heap) (o : obj) :
  fields h !! fl = Some o -> List.NoDup (keys o) -> crud_ok o = false ->
  segregate_field fl h = None.
Proof.
  intros Eo Hnd Hok. unfold segregate_field, bind at 1, read_field. rewrite Eo.
  pose proof (seg_fold_none o [] [] h Hnd Hok) as E. simpl in E.
  unfold bind at 1. rewrite E. reflexivity.
Qed.

Lemma segregate_field_frame (fl : loc) (h h' : heap) :
  segregate_field fl h = Some (tt, h') ->
  models h' = models h /\ forall y, y <> fl -> fields h' !! y = fields h !! y.
Proof.
  unfold segregate_field, read_field. intros E.
  apply bind_some in E as (o & h1 & E1 & E2).
  destruct (fields h !! fl); [injection E1 as <- <-|discriminate].
  apply bind_some in E2 as ([o' a] & h2 & E3 & E4).
  apply segregate_key_heap in E3 as ->.
  destruct a; unfold write_field in E4; injection E4 as <-; simpl;
    (split; [reflexivity|intros y Hy; apply lookup_insert_ne; congruence]).
Qed.

Lemma segregated_entries (o : obj) (kv : string * val) :
  In kv (segregated o) -> In kv o /\ api_moved kv = false \/ kv = ("api", VObj (api_of (List.filter api_moved o))).
Proof.
  unfold segregated. destruct (List.filter api_moved o) as [|x l] eqn:F.
  - intros H. apply filter_In in H as [H1 H2]. left. split; [exact H1|].
    apply negb_true_iff; exact H2.
  - intros H. apply In_set in H as [->|H]; [right; reflexivity|].
    apply filter_In in H as [H1 H2]. left. split; [exact H1|]. apply negb_true_iff; exact H2.
Qed.

Lemma segregated_not_moved (o : obj) (kv : string * val) :
  In kv (segregated o) -> api_moved kv = false.
Proof.
  intros H. apply segregated_entries in H as [[_ H]| ->]; [exact H|reflexivity].
Qed.

Lemma segregated_fixed (o : obj) :
  (forall kv, In kv o -> api_moved kv = false) -> segregated o = o.
Proof.
  intros H. unfold segregated.
  replace (List.filter api_moved o) with (@nil (string * val)).
  - apply filter_all. intros kv Hkv. unfold not_moved. rewrite H; auto.
  - symmetry. induction o as [|x o IH]; simpl; [reflexivity|].
    rewrite H by (left; reflexivity). apply IH. intros; apply H; right; auto.
Qed.

Lemma segregated_idem (o : obj) : segregated (segregated o) = segregated o.
Proof. apply segregated_fixed. apply segregated_not_moved. Qed.

Lemma segregated_ok (o : obj) :
  List.NoDup (keys o) /\ crud_ok o = true ->
  List.NoDup (keys (segregated o)) /\ crud_ok (segregated o) = true.
Proof.
  intros [Hnd Hok]. split.
  - unfold segregated. destruct (List.filter api_moved o).
    + apply keys_filter_NoDup; exact Hnd.
    + apply NoDup_keys_set, keys_filter_NoDup; exact Hnd.
  - unfold crud_ok in *. rewrite forallb_forall in *. intros [k v] Hkv.
    apply segregated_entries in Hkv as [[Hkv _]|E].
    + apply (Hok _ Hkv).
    + injection E as -> ->. reflexivity.
Qed.

(** ** [replaceWebAppTypesWithModelType] on one field object *)

Lemma set_set {V} (k : string) (v v' : V) (o : list (string * V)) :
  set k v (set k v' o) = set k v o.
Proof.
  induction o as [|[k0 v0] o IH]; simpl.
  - rewrite String.eqb_refl; reflexivity.
  - destruct (String.eqb k k0) eqn:E; simpl; [rewrite String.eqb_refl; reflexivity|].
    rewrite E, IH; reflexivity.
Qed.

Lemma heap_eta (h : heap) : h = mkHeap (models h) (fields h).
Proof. destruct h; reflexivity. Qed.

Lemma replace_type_ok (types : string -> option val) (fl : loc) (h : heap) (o : obj) :
  fields h !! fl = Some o -> type_ok o = true ->
  replace_type types fl h = Some (tt, mkHeap (models h) (<[fl := typed types o]> (fields h))).
Proof.
  intros Eo Hok. unfold replace_type, bind, read_field. rewrite Eo.
  assert (Hsame : Some (tt, h) = Some (tt, mkHeap (models h) (<[fl := o]> (fields h)))).
  { rewrite insert_id by exact Eo. rewrite <- heap_eta. reflexivity. }
  unfold type_ok in Hok. unfold typed.
  destruct (get "Type" o) as [T|]; [|exact Hsame].
  destruct (truthy T) eqn:Et; destruct T as [t| | | |]; cbv beta iota in Hok |- *;
    try rewrite Et in Hok; rewrite ?Et; try discriminate; try exact Hsame.
  destruct (types (lower t)) as [v|]; [|exact Hsame].
  destruct (truthy v); [reflexivity|exact Hsame].
Qed.

Lemma replace_type_none (types : string -> option val) (fl : loc) (h : heap) (o : obj) :
  fields h !! fl = Some o -> type_ok o = false -> replace_type types fl h = None.
Proof.
  intros Eo Hok. unfold replace_type, bind, read_field. rewrite Eo.
  unfold type_ok in Hok. destruct (get "Type" o) as [T|]; [|discriminate].
  destruct (truthy T) eqn:Et; destruct T; cbv beta iota in Hok |- *;
    try rewrite Et in Hok; rewrite ?Et; try (simpl in Hok; discriminate); reflexivity.
Qed.

Lemma replace_type_frame (types : string -> option val) (fl : loc) (h h' : heap) :
  replace_type types fl h = Some (tt, h') ->
  models h' = models h /\ forall y, y <> fl -> fields h' !! y = fields h !! y.
Proof.
  unfold replace_type, read_field. intros E.
  apply bind_some in E as (o & h1 & E1 & E2).
  destruct (fields h !! fl); [injection E1 as <- <-|discriminate].
  repeat (match type of E2 with context [match ?x with _ => _ end] => destruct x end).
  all: try (unfold throw in E2; discriminate).
  all: injection E2 as <-; simpl;
    (split; [reflexivity|intros y Hy; rewrite ?lookup_insert_ne by congruence; reflexivity]).
Qed.

Lemma typed_type (types : string -> option val) (o : obj) :
  get "Type" (typed types o) = get "Type" o.
Proof.
  unfold typed. repeat case_match;
    first [reflexivity | congruence | (rewrite get_set_ne by discriminate; congruence)].
Qed.

Lemma typed_idem (types : string -> option val) (o : obj) :
  typed types (typed types o) = typed types o.
Proof.
  unfold typed at 1. rewrite typed_type. unfold typed.
  destruct (get "Type" o) as [[t| | | |]|]; try reflexivity.
  destruct (truthy (VStr t)); [|reflexivity].
  destruct (types (lower t)) as [v|]; [|reflexivity].
  destruct (truthy v); [apply set_set|reflexivity].
Qed.

Lemma typed_ok (types : string -> option val) (o : obj) :
  type_ok o = true -> type_ok (typed types o) = true.
Proof. unfold type_ok. rewrite typed_type. auto. Qed.

(** ** The passes over all fields *)

(** [segregateAPISections] rewrites every field object reached from
    [modelsData] into [segregated] form, once even when the object is shared,
    and leaves the models and every other field object unchanged. *)
Theorem segregateAPISections_moves_api (modelsData : root) (h : heap) :
  models_present modelsData (models h) = true ->
  (forall fl, In fl (reached modelsData (models h)) ->
     exists o, fields h !! fl = Some o /\ List.NoDup (keys o) /\ crud_ok o = true) ->
  exists h', segregateAPISections modelsData h = Some (tt, h') /\
    models h' = models h /\
    forall fl, fields h' !! fl =
      if bool_decide (elem_of fl (reached modelsData (models h)))
      then segregated <$> fields h !! fl else fields h !! fl.
Proof.
  intros Hpres Hreach. unfold segregateAPISections.
  apply (forFields_map segregate_field segregated
           (fun o => List.NoDup (keys o) /\ crud_ok o = true)).
  - intros fl h1 o Eo [Hnd Hok]. apply segregate_field_ok; assumption.
  - apply segregated_ok.
  - intros o _. apply segregated_idem.
  - exact Hpres.
  - intros fl Hfl. destruct (Hreach fl Hfl) as (o & Eo & Hnd & Hok). eauto.
Qed.

(** [segregateAPISections] throws when a field object it reaches has a
    CRUD-named key ([create], [read], [update], [delete], in any case) whose
    value is not a string. *)
Theorem segregateAPISections_throws (modelsData : root) (h : heap) (fl : loc) (o : obj) :
  In fl (reached modelsData (models h)) -> fields h !! fl = Some o ->
  List.NoDup (keys o) -> crud_ok o = false ->
  segregateAPISections modelsData h = None.
Proof.
  intros Hfl Eo Hnd Hok. apply in_reached in Hfl as (s & pkg & m & ml & md0 & x & Hs & Hm & Emd & Hx).
  unfold segregateAPISections.
  apply (forFields_throws segregate_field
           (fun h' => models h' = models h /\ fields h' !! fl = Some o)
           modelsData s pkg m ml md0 x fl h); try assumption.
  - intros fl' h1 h1' [Hm1 Ho1] E.
    assert (fl' <> fl).
    { intros ->. rewrite (segregate_field_none fl h1 o Ho1 Hnd Hok) in E. discriminate. }
    apply segregate_field_frame in E as [Hm2 Hf2]. split; [congruence|].
    rewrite Hf2 by congruence. exact Ho1.
  - intros h1 [_ Ho1]. apply (segregate_field_none fl h1 o Ho1 Hnd Hok).
  - intros h1 [Hm1 _]. rewrite Hm1. exact Emd.
  - split; [reflexivity|exact Eo].
Qed.

(** [replaceWebAppTypesWithModelType] rewrites every field object reached
    from [modelsData] into [typed] form (its [typeFromTypes] set to the
    registry entry of its lower-cased [Type], when that entry is truthy),
    once even when the object is shared, and leaves the models and every
    other field object unchanged. *)
Theorem replaceWebAppTypes_sets_typeFromTypes (types : string -> option val)
  (modelsData : root) (h : heap) :
  models_present modelsData (models h) = true ->
  (forall fl, In fl (reached modelsData (models h)) ->
     exists o, fields h !! fl = Some o /\ type_ok o = true) ->
  exists h', replaceWebAppTypesWithModelType types modelsData h = Some (tt, h') /\
    models h' = models h /\
    forall fl, fields h' !! fl =
      if bool_decide (elem_of fl (reached modelsData (models h)))
      then typed types <$> fields h !! fl else fields h !! fl.
Proof.
  intros Hpres Hreach. unfold replaceWebAppTypesWithModelType.
  apply (forFields_map (replace_type types) (typed types) (fun o => type_ok o = true)).
  - intros fl h1 o Eo Hok. apply replace_type_ok; assumption.
  - apply typed_ok.
  - intros o _. apply typed_idem.
  - exact Hpres.
  - exact Hreach.
Qed.

(** [replaceWebAppTypesWithModelType] throws when a field object it reaches
    has a truthy [Type] that is not a string (a number, [true], an object). *)
Theorem replaceWebAppTypes_throws (types : string -> option val)
  (modelsData : root) (h : heap) (fl : loc) (o : obj) :
  In fl (reached modelsData (models h)) -> fields h !! fl = Some o -> type_ok o = false ->
  replaceWebAppTypesWithModelType types modelsData h = None.
Proof.
  intros Hfl Eo Hok. apply in_reached in Hfl as (s & pkg & m & ml & md0 & x & Hs & Hm & Emd & Hx).
  unfold replaceWebAppTypesWithModelType.
  apply (forFields_throws (replace_type types)
           (fun h' => models h' = models h /\ fields h' !! fl = Some o)
           modelsData s pkg m ml md0 x fl h); try assumption.
  - intros fl' h1 h1' [Hm1 Ho1] E.
    assert (fl' <> fl).
    { intros ->. rewrite (replace_type_none types fl h1 o Ho1 Hok) in E. discriminate. }
    apply replace_type_frame in E as [Hm2 Hf2]. split; [congruence|].
    rewrite Hf2 by congruence. exact Ho1.
  - intros h1 [_ Ho1]. apply (replace_type_none types fl h1 o Ho1 Hok).
  - intros h1 [Hm1 _]. rewrite Hm1. exact Emd.
  - split; [reflexivity|exact Eo].
Qed.

Lemma segregateAPISections_moves_api_witness :
  models_present sample_modelsData (models sample_store) = true /\
  (forall fl, In fl (reached sample_modelsData (models sample_store)) ->
     exists o, fields sample_store !! fl = Some o /\ List.NoDup (keys o) /\ crud_ok o = true) /\
  exists h', segregateAPISections sample_modelsData sample_store = Some (tt, h') /\
    models h' = models sample_store /\
    forall fl, fields h' !! fl =
      if bool_decide (elem_of fl (reached sample_modelsData (models sample_store)))
      then segregated <$> fields sample_store !! fl else fields sample_store !! fl.
Proof.
  assert (H1 : models_present sample_modelsData (models sample_store) = true) by reflexivity.
  assert (H2 : forall fl, In fl (reached sample_modelsData (models sample_store)) ->
     exists o, fields sample_store !! fl = Some o /\ List.NoDup (keys o) /\ crud_ok o = true).
  { intros fl Hfl. vm_compute in Hfl.
    repeat destruct Hfl as [<-|Hfl]; try destruct Hfl;
      (eexists; split; [reflexivity|split; [apply nodup_keys_NoDup; reflexivity|reflexivity]]). }
  split; [exact H1|]. split; [exact H2|].
  exact (segregateAPISections_moves_api sample_modelsData sample_store H1 H2).
Defined.

Lemma segregateAPISections_throws_witness :
  In 3%nat (reached sample_modelsData (models sample_bad_store)) /\
  fields sample_bad_store !! 3%nat = Some [("Type", VNum 1%float)] /\
  List.NoDup (keys [("Type", VNum 1%float)]) /\ crud_ok [("Type", VNum 1%float); ("create", VBool true)] = false /\
  segregateAPISections sample_modelsData
    (mkHeap (models sample_bad_store) (<[3%nat := [("Type", VNum 1%float); ("create", VBool true)]]> (fields sample_bad_store))) = None.
Proof.
  assert (H1 : In 3%nat (reached sample_modelsData
      (models (mkHeap (models sample_bad_store)
         (<[3%nat := [("Type", VNum 1%float); ("create", VBool true)]]> (fields sample_bad_store)))))).
  { vm_compute. intuition. }
  split; [vm_compute; intuition|]. split; [reflexivity|]. split; [apply nodup_keys_NoDup; reflexivity|].
  split; [reflexivity|].
  apply (segregateAPISections_throws sample_modelsData _ 3%nat
           [("Type", VNum 1%float); ("create", VBool true)] H1);
    [reflexivity|apply nodup_keys_NoDup; reflexivity|reflexivity].
Defined.

Lemma replaceWebAppTypes_sets_typeFromTypes_witness :
  models_present sample_modelsData (models sample_store) = true /\
  (forall fl, In fl (reached sample_modelsData (models sample_store)) ->
     exists o, fields sample_store !! fl = Some o /\ type_ok o = true) /\
  exists h', replaceWebAppTypesWithModelType sample_types sample_modelsData sample_store = Some (tt, h') /\
    models h' = models sample_store /\
    forall fl, fields h' !! fl =
      if bool_decide (elem_of fl (reached sample_modelsData (models sample_store)))
      then typed sample_types <$> fields sample_store !! fl else fields sample_store !! fl.
Proof.
  assert (H1 : models_present sample_modelsData (models sample_store) = true) by reflexivity.
  assert (H2 : forall fl, In fl (reached sample_modelsData (models sample_store)) ->
     exists o, fields sample_store !! fl = Some o /\ type_ok o = true).
  { intros fl Hfl. vm_compute in Hfl.
    repeat destruct Hfl as [<-|Hfl]; try destruct Hfl; (eexists; split; reflexivity). }
  split; [exact H1|]. split; [exact H2|].
  exact (replaceWebAppTypes_sets_typeFromTypes sample_types sample_modelsData sample_store H1 H2).
Defined.

Lemma replaceWebAppTypes_throws_witness :
  In 3%nat (reached sample_modelsData (models sample_bad_store)) /\
  fields sample_bad_store !! 3%nat = Some [("Type", VNum 1%float)] /\
  type_ok [("Type", VNum 1%float)] = false /\
  replaceWebAppTypesWithModelType sample_types sample_modelsData sample_bad_store = None.
Proof.
  assert (H1 : In 3%nat (reached sample_modelsData (models sample_bad_store))) by (vm_compute; intuition).
  split; [exact H1|]. split; [reflexivity|]. split; [reflexivity|].
  apply (replaceWebAppTypes_throws sample_types sample_modelsData sample_bad_store 3%nat
           [("Type", VNum 1%float)] H1); reflexivity.
Defined.

(* ------------------------------------------------------------------ *)
(** ** The import list of a model *)

Lemma push_new_NoDup (x : string) (l : list string) :
  List.NoDup l -> List.NoDup (push_new x l).
Proof.
  unfold push_new. destruct (existsb (String.eqb x) l) eqn:E; [auto|].
  intros H. apply NoDup_insert with (l2 := []); rewrite app_nil_r; [exact H|].
  intros Hin. assert (existsb (String.eqb x) l = true); [|congruence].
  apply existsb_exists. exists x. split; [exact Hin|apply String.eqb_refl].
Qed.

Lemma addToImports_NoDup (t : option val) (l : list string) :
  List.NoDup l -> List.NoDup (addToImports t l).
Proof.
  intros H. unfold addToImports. repeat case_match; auto; apply push_new_NoDup; exact H.
Qed.

Lemma resolve_field_NoDup (num_of : val -> float) (to_str : val -> string) (f : obj) (l : list string) :
  List.NoDup l -> List.NoDup (snd (resolve_field num_of to_str f l)).
Proof.
  intros H. unfold resolve_field. destruct (createFieldVariables f) as [f1 t]. simpl.
  unfold setPrimarykey. destruct (truthy_opt _); apply addToImports_NoDup; [exact H|].
  apply addToImports_NoDup; exact H.
Qed.

Lemma loop1_step_NoDup (modulePath pkg : string) (st : model_state) (x : string) :
  List.NoDup (imports st) -> List.NoDup (imports (loop1_step modulePath pkg st x)).
Proof.
  intros H. unfold loop1_step. destruct (get x (mfields st)) as [o|]; [|exact H].
  destruct (createFieldVariables o) as [field t]. unfold createRelationShips. cbn [mfields imports].
  rewrite get_set_eq. destruct (has_dot x); unfold updateField; cbn [imports];
    [|destruct (negb _); exact H].
  destruct (String.eqb _ _); cbn [imports]; destruct (negb _); cbn [imports];
    auto using push_new_NoDup.
Qed.

Lemma loop2_step_NoDup (num_of : val -> float) (to_str : val -> string) (st : model_state) (x : string) :
  List.NoDup (imports st) -> List.NoDup (imports (loop2_step num_of to_str st x)).
Proof.
  intros H. unfold loop2_step. destruct (get x (mfields st)) as [o|]; [|exact H].
  pose proof (resolve_field_NoDup num_of to_str o (imports st) H) as H'.
  destruct (resolve_field num_of to_str o (imports st)) as [field imp].
  unfold updateField. destruct (negb _); exact H'.
Qed.

(** The import list [processModels] renders for a model never holds the same
    import twice: every push ([addToImports], the local package imports of
    [createRelationShips]) checks [imports.includes] first. *)
Theorem process_model_imports_nodup (modulePath : string) (num_of : val -> float)
  (to_str : val -> string) (pkg model : string) (fields : list (string * obj))
  (table : list (string * list string)) :
  List.NoDup (imports (fst (process_model modulePath num_of to_str pkg model fields table))).
Proof.
  unfold process_model. cbn [fst].
  assert (H1 : forall ks st, List.NoDup (imports st) ->
            List.NoDup (imports (fold_left (loop1_step modulePath pkg) ks st))).
  { induction ks as [|x ks IH]; intros st H; simpl; [exact H|]. apply IH, loop1_step_NoDup, H. }
  assert (H2 : forall ks st, List.NoDup (imports st) ->
            List.NoDup (imports (fold_left (loop2_step num_of to_str) ks st))).
  { induction ks as [|x ks IH]; intros st H; simpl; [exact H|]. apply IH, loop2_step_NoDup, H. }
  cbv zeta. cbn [fst]. apply H2, H1. constructor.
Qed.

(* ------------------------------------------------------------------ *)
(** ** More of the second field loop *)

Lemma sf_cmp_refl (a : SpecFloat.spec_float) :
  a <> SpecFloat.S754_nan -> SpecFloat.SFcompare a a = Some Eq.
Proof.
  intros H. destruct a as [[]|[]| |[] m e]; simpl; try reflexivity; try congruence;
  rewrite ?Z.compare_refl, ?Pos.compare_cont_refl; reflexivity.
Qed.

Lemma sf_cmp_some (a b : SpecFloat.spec_float) :
  a <> SpecFloat.S754_nan -> b <> SpecFloat.S754_nan -> exists c, SpecFloat.SFcompare a b = Some c.
Proof. intros Ha Hb. destruct a, b; try congruence; eexists; reflexivity. Qed.

Lemma flt_nan_sf (x : float) : PrimFloat.is_nan x = true -> Prim2SF x = SpecFloat.S754_nan.
Proof.
  unfold PrimFloat.is_nan. rewrite FloatAxioms.eqb_spec. unfold SpecFloat.SFeqb.
  destruct (Prim2SF x) eqn:E; try reflexivity; rewrite sf_cmp_refl by discriminate; discriminate.
Qed.

Lemma flt_not_nan_sf (x : float) : PrimFloat.is_nan x = false -> Prim2SF x <> SpecFloat.S754_nan.
Proof.
  unfold PrimFloat.is_nan. rewrite FloatAxioms.eqb_spec. intros H E. rewrite E in H. discriminate.
Qed.

(** Between numbers that are not NaN, [x < y] is [!(y <= x)]. *)
Lemma flt_ltb_negb (x y : float) :
  PrimFloat.is_nan x = false -> PrimFloat.is_nan y = false ->
  PrimFloat.ltb x y = negb (PrimFloat.leb y x).
Proof.
  intros Hx Hy. apply flt_not_nan_sf in Hx, Hy.
  rewrite FloatAxioms.ltb_spec, FloatAxioms.leb_spec. unfold SpecFloat.SFltb, SpecFloat.SFleb.
  rewrite (SFcompare_swap (Prim2SF x) (Prim2SF y)).
  destruct (sf_cmp_some _ _ Hx Hy) as [c ->]. destruct c; reflexivity.
Qed.

(** Every comparison with NaN is false. *)
Lemma flt_nan_cmp (x y : float) :
  PrimFloat.is_nan x = true ->
  PrimFloat.leb x y = false /\ PrimFloat.leb y x = false /\
  PrimFloat.ltb x y = false /\ PrimFloat.ltb y x = false.
Proof.
  intros Hx. apply flt_nan_sf in Hx.
  rewrite !FloatAxioms.ltb_spec, !FloatAxioms.leb_spec, Hx.
  unfold SpecFloat.SFltb, SpecFloat.SFleb. destruct (Prim2SF y); simpl; auto.
Qed.

Lemma get_set_opt_ne (k k' : string) (v : option val) (o : obj) :
  k <> k' -> get k (set_opt k' v o) = get k o.
Proof.
  intros H. destruct v; simpl; [apply get_set_ne; exact H|].
  rewrite get_del. destruct (String.eqb_spec k k'); congruence.
Qed.

Lemma get_setDefaultFieldType (k : string) (f : obj) :
  k <> "type" -> k <> "Length" -> get k (setDefaultFieldType f) = get k f.
Proof.
  intros H1 H2. unfold setDefaultFieldType.
  destruct (get "typeFromTypes" f) as [t|]; [|apply get_set_opt_ne; exact H1].
  destruct (is_object t); [|apply get_set_ne; exact H1]. cbv zeta.
  destruct (truthy_opt (obj_prop t "type")), (truthy_opt (obj_prop t "length"));
    rewrite ?get_set_opt_ne by assumption; reflexivity.
Qed.

Section ResolveMore.

Variable num_of : val -> float.
Variable to_str : val -> string.

Lemma setPrimarykey_In (f : obj) (imp : list string) (s : string) :
  In s imp -> In s (setPrimarykey f imp).
Proof.
  intros H. unfold setPrimarykey. destruct (truthy_opt _); [exact H|].
  simpl. apply push_new_In; exact H.
Qed.

Lemma cfv_str_type (f : obj) (s : string) :
  get "typeFromTypes" f = Some (VStr s) -> s <> "" ->
  createFieldVariables f = (f, Some (VStr s)).
Proof.
  intros H Hs. unfold createFieldVariables. rewrite H. simpl.
  destruct (String.eqb_spec s ""); [congruence|reflexivity].
Qed.

End ResolveMore.

Lemma get_setTimeType (k : string) (f : obj) :
  k <> "type" -> k <> "misc" -> get k (setTimeType f) = get k f.
Proof.
  intros H1 H2. unfold setTimeType. destruct (is_str _ _); [|reflexivity]. cbv zeta.
  destruct (truthy_opt (get "NotNull" f)), (truthy_opt (get "AutoCreate" f));
    rewrite ?get_set_ne by assumption; reflexivity.
Qed.

Lemma get_cfv_fst (k : string) (f : obj) :
  k <> "length" -> get k (fst (createFieldVariables f)) = get k f.
Proof.
  intros H. unfold createFieldVariables.
  destruct (get "typeFromTypes" f) as [t|]; [|reflexivity].
  destruct (truthy t); [|reflexivity]. destruct (is_object t); [|reflexivity]. cbn [fst].
  destruct (truthy_opt (obj_prop t "length")); [|reflexivity].
  destruct (obj_prop t "length"); [apply get_set_ne; exact H|reflexivity].
Qed.

(** A [time.Time] field: its type becomes the pointer [*time.Time] unless
    [NotNull] is truthy, it gets [misc = 'autoCreateTime'] when [AutoCreate]
    is truthy, and the model imports ["time"]. *)
Theorem resolve_field_time (num_of : val -> float) (to_str : val -> string)
  (f : obj) (imp : list string) :
  get "typeFromTypes" f = Some (VStr "time.Time") ->
  get "type" (fst (resolve_field num_of to_str f imp)) =
    Some (VStr (if truthy_opt (get "NotNull" f) then "time.Time" else "*time.Time")) /\
  get "misc" (fst (resolve_field num_of to_str f imp)) =
    (if truthy_opt (get "AutoCreate" f) then Some (VStr "autoCreateTime") else get "misc" f) /\
  In (dq ++ "time" ++ dq)%string (snd (resolve_field num_of to_str f imp)).
Proof.
  intros H.
  set (g := setFieldLength (setDefaultValue to_str (set "type" (VStr "time.Time") f))).
  assert (Hg : forall k, k <> "type" -> k <> "DefaultValue" -> k <> "Length" ->
            get k g = get k f) by (intros; apply get_resolve_prefix; assumption).
  assert (Ht : get "typeFromTypes" g = Some (VStr "time.Time"))
    by (rewrite Hg; [exact H|discriminate..]).
  assert (Hty : get "type" g = Some (VStr "time.Time")).
  { unfold g. rewrite get_setFieldLength, get_setDefaultValue by discriminate. apply get_set_eq. }
  assert (E : fst (resolve_field num_of to_str f imp) = setTimeType g).
  { rewrite (resolve_field_str num_of to_str f imp "time.Time" H). fold g.
    assert (Ht' : get "typeFromTypes" (setTimeType g) = Some (VStr "time.Time"))
      by (rewrite get_setTimeType by discriminate; exact Ht).
    rewrite (setFloatType_id num_of)
      by (rewrite get_setIntType by discriminate; rewrite Ht'; reflexivity).
    apply (setIntType_id num_of). rewrite Ht'; reflexivity. }
  rewrite E. unfold setTimeType. rewrite Ht.
  change (is_str (Some (VStr "time.Time")) "time.Time") with true. cbv iota zeta.
  rewrite (Hg "NotNull"), (Hg "AutoCreate") by discriminate.
  split; [|split].
  - destruct (truthy_opt (get "NotNull" f)), (truthy_opt (get "AutoCreate" f));
      rewrite ?get_set_ne by discriminate; rewrite ?get_set_eq; try exact Hty; reflexivity.
  - destruct (truthy_opt (get "NotNull" f)), (truthy_opt (get "AutoCreate" f));
      rewrite ?get_set_eq; try reflexivity; rewrite ?get_set_ne by discriminate;
      apply Hg; discriminate.
  - unfold resolve_field. rewrite (cfv_str_type f "time.Time" H) by discriminate. cbn [snd].
    apply setPrimarykey_In.
    change (addToImports (Some (VStr "time.Time")) imp) with (push_new (dq ++ "time" ++ dq)%string imp).
    apply push_new_self.
Qed.

(** A [string] field keeps the type [string]; a [DefaultValue] [d] becomes
    the quoted text ['d']; its [Length] is its [length] when present, else
    its [MaximumLength] when present, else left as it was. *)
Theorem resolve_field_string (num_of : val -> float) (to_str : val -> string)
  (f : obj) (imp : list string) :
  get "typeFromTypes" f = Some (VStr "string") ->
  get "type" (fst (resolve_field num_of to_str f imp)) = Some (VStr "string") /\
  get "DefaultValue" (fst (resolve_field num_of to_str f imp)) =
    option_map (fun d => VStr ("'" ++ to_str d ++ "'")%string) (get "DefaultValue" f) /\
  get "Length" (fst (resolve_field num_of to_str f imp)) =
    match get "length" f with
    | Some v => Some v
    | None => match get "MaximumLength" f with Some v => Some v | None => get "Length" f end
    end.
Proof.
  intros H.
  set (f1 := set "type" (VStr "string") f).
  set (f2 := setDefaultValue to_str f1).
  assert (H1 : forall k, k <> "type" -> get k f1 = get k f) by (intros; apply get_set_ne; assumption).
  assert (H2 : forall k, k <> "DefaultValue" -> get k f2 = get k f1)
    by (intros; apply get_setDefaultValue; assumption).
  assert (Ht : get "typeFromTypes" (setFieldLength f2) = Some (VStr "string")).
  { rewrite get_setFieldLength, H2, H1 by discriminate. exact H. }
  assert (E : fst (resolve_field num_of to_str f imp) = setFieldLength f2).
  { rewrite (resolve_field_str num_of to_str f imp "string" H). fold f1 f2.
    assert (Ht' : get "typeFromTypes" (setTimeType (setFieldLength f2)) = Some (VStr "string"))
      by (rewrite setTimeType_id; rewrite Ht; reflexivity).
    rewrite (setFloatType_id num_of)
      by (rewrite get_setIntType by discriminate; rewrite Ht'; reflexivity).
    rewrite (setIntType_id num_of) by (rewrite Ht'; reflexivity).
    apply setTimeType_id. rewrite Ht; reflexivity. }
  rewrite E. split; [|split].
  - rewrite get_setFieldLength, H2 by discriminate. apply get_set_eq.
  - rewrite get_setFieldLength by discriminate. unfold f2, setDefaultValue.
    rewrite (H1 "DefaultValue"), (H1 "typeFromTypes"), H by discriminate.
    destruct (get "DefaultValue" f) eqn:Ed; [apply get_set_eq|].
    rewrite H1 by discriminate. exact Ed.
  - unfold setFieldLength. rewrite !H2, !H1 by discriminate.
    destruct (get "length" f); [apply get_set_eq|].
    destruct (get "MaximumLength" f); [apply get_set_eq|].
    rewrite H2, H1 by discriminate. reflexivity.
Qed.

(** An [int] field with numeric [Minimum] [mn] and [Maximum] [mx], neither
    NaN, resolves to [uint32] or [uint64] when [mn >= 0] (by [mx] against
    2^32-1) and to [int32] or [int64] when [mn < 0] (by [mx] against
    2^31-1): one of the four widths always applies. *)
Theorem resolve_int_two_bounds (num_of : val -> float) (to_str : val -> string)
  (f : obj) (imp : list string) (mn mx : float) :
  get "typeFromTypes" f = Some (VStr "int") ->
  get "Minimum" f = Some (VNum mn) -> get "Maximum" f = Some (VNum mx) ->
  PrimFloat.is_nan mn = false -> PrimFloat.is_nan mx = false ->
  get "type" (fst (resolve_field num_of to_str f imp)) =
    Some (VStr (if PrimFloat.leb 0%float mn
                then if PrimFloat.leb mx 4294967295%float then "uint32" else "uint64"
                else if PrimFloat.leb mx 2147483647%float then "int32" else "int64")).
Proof.
  intros Hint Hmin Hmax Hn1 Hn2. rewrite (resolve_field_int num_of to_str f imp Hint).
  set (g := setFieldLength (setDefaultValue to_str (set "type" (VStr "int") f))).
  assert (Hg : forall k, k <> "type" -> k <> "DefaultValue" -> k <> "Length" ->
            get k g = get k f) by (intros; apply get_resolve_prefix; assumption).
  assert (Ht : get "typeFromTypes" g = Some (VStr "int")) by (rewrite Hg; [exact Hint|discriminate..]).
  unfold setIntType. rewrite Ht. cbv beta iota zeta.
  rewrite (Hg "Minimum"), (Hg "Maximum"), Hmin, Hmax by discriminate.
  cbn -[get set PrimFloat.leb PrimFloat.ltb].
  rewrite (flt_ltb_negb 4294967295%float mx), (flt_ltb_negb mn 0%float),
    (flt_ltb_negb 2147483647%float mx) by (reflexivity || assumption).
  destruct (PrimFloat.leb 0%float mn), (PrimFloat.leb mx 4294967295%float),
    (PrimFloat.leb mx 2147483647%float); simpl; apply get_set_eq.
Qed.

(** An [int] field without [Minimum] and [Maximum] resolves to [int64]; one
    whose [Minimum] or [Maximum] is present but converts to NaN (a cell that
    is not a number) matches none of the four widths and keeps the type
    [int]. *)
Theorem resolve_int_unbounded_or_nan (num_of : val -> float) (to_str : val -> string)
  (f : obj) (imp : list string) :
  get "typeFromTypes" f = Some (VStr "int") ->
  (get "Minimum" f = None -> get "Maximum" f = None ->
     get "type" (fst (resolve_field num_of to_str f imp)) = Some (VStr "int64")) /\
  (forall v, get "Minimum" f = Some v \/ get "Maximum" f = Some v ->
     PrimFloat.is_nan (to_number num_of (Some v)) = true ->
     get "type" (fst (resolve_field num_of to_str f imp)) = Some (VStr "int")).
Proof.
  intros Hint. rewrite (resolve_field_int num_of to_str f imp Hint).
  set (g := setFieldLength (setDefaultValue to_str (set "type" (VStr "int") f))).
  assert (Hg : forall k, k <> "type" -> k <> "DefaultValue" -> k <> "Length" ->
            get k g = get k f) by (intros; apply get_resolve_prefix; assumption).
  assert (Ht : get "typeFromTypes" g = Some (VStr "int")) by (rewrite Hg; [exact Hint|discriminate..]).
  assert (Hty : get "type" g = Some (VStr "int")).
  { unfold g. rewrite get_setFieldLength, get_setDefaultValue by discriminate. apply get_set_eq. }
  unfold setIntType. rewrite Ht. cbv beta iota zeta.
  rewrite (Hg "Minimum"), (Hg "Maximum") by discriminate. split.
  - intros -> ->. apply get_set_eq.
  - intros v Hv Hnan.
    destruct (flt_nan_cmp _ 0%float Hnan) as (A1 & A2 & A3 & A4).
    destruct (flt_nan_cmp _ 4294967295%float Hnan) as (B1 & B2 & B3 & B4).
    destruct (flt_nan_cmp _ 2147483647%float Hnan) as (C1 & C2 & C3 & C4).
    destruct Hv as [Hv|Hv]; rewrite Hv;
      [destruct (get "Maximum" f)|destruct (get "Minimum" f)]; cbv beta iota zeta;
      rewrite ?A1, ?A2, ?A3, ?A4, ?B1, ?B2, ?B3, ?B4, ?C1, ?C2, ?C3, ?C4, ?andb_false_r;
      exact Hty.
Qed.

(** A field whose registry entry [typeFromTypes] is an object with a truthy
    [type] [ty] and a truthy [length] [L] resolves to type [ty] and [Length]
    [L], whatever its own [MaximumLength] or [length], and keeps its
    [DefaultValue] unquoted even when [ty] is ["string"]. *)
Theorem resolve_field_object (num_of : val -> float) (to_str : val -> string)
  (f : obj) (imp : list string) (t : obj) (ty L : val) :
  get "typeFromTypes" f = Some (VObj t) ->
  get "type" t = Some ty -> truthy ty = true ->
  get "length" t = Some L -> truthy L = true ->
  get "type" (fst (resolve_field num_of to_str f imp)) = Some ty /\
  get "Length" (fst (resolve_field num_of to_str f imp)) = Some L /\
  get "DefaultValue" (fst (resolve_field num_of to_str f imp)) = get "DefaultValue" f.
Proof.
  intros H Hty Hty' HL HL'.
  set (f1 := set "length" L f).
  assert (E1 : createFieldVariables f = (f1, Some ty)).
  { unfold createFieldVariables. rewrite H. cbn [truthy is_object obj_prop].
    rewrite HL, Hty. cbn [truthy_opt]. rewrite HL'. reflexivity. }
  assert (T1 : get "typeFromTypes" f1 = Some (VObj t)) by (unfold f1; rewrite get_set_ne by discriminate; exact H).
  set (f2 := set "Length" L (set "type" ty f1)).
  assert (E2 : setDefaultFieldType f1 = f2).
  { unfold setDefaultFieldType. rewrite T1. cbn [is_object obj_prop]. rewrite Hty, HL.
    cbn [truthy_opt set_opt]. rewrite Hty', HL'. reflexivity. }
  assert (T2 : get "typeFromTypes" f2 = Some (VObj t))
    by (unfold f2; rewrite !get_set_ne by discriminate; exact T1).
  set (f3 := setDefaultValue to_str f2).
  assert (D3 : forall k, get k f3 = get k f2).
  { intros k. unfold f3, setDefaultValue. rewrite T2. cbn [is_str].
    destruct (get "DefaultValue" f2) as [dv|] eqn:Ed; [|reflexivity].
    rewrite get_set. destruct (String.eqb_spec k "DefaultValue") as [->|]; [exact (eq_sym Ed)|reflexivity]. }
  set (f4 := setFieldLength f3).
  assert (T4 : get "typeFromTypes" f4 = Some (VObj t))
    by (unfold f4; rewrite get_setFieldLength, D3 by discriminate; exact T2).
  assert (E : fst (resolve_field num_of to_str f imp) = f4).
  { unfold resolve_field. rewrite E1. cbn [fst]. rewrite E2. fold f3 f4.
    rewrite (setFloatType_id num_of)
      by (rewrite get_setIntType, get_setTimeType by discriminate; rewrite T4; reflexivity).
    rewrite (setIntType_id num_of) by (rewrite get_setTimeType by discriminate; rewrite T4; reflexivity).
    apply setTimeType_id. rewrite T4; reflexivity. }
  rewrite E. split; [|split].
  - unfold f4. rewrite get_setFieldLength, D3 by discriminate. unfold f2.
    rewrite get_set_ne by discriminate. apply get_set_eq.
  - unfold f4, setFieldLength. rewrite (D3 "length"). unfold f2.
    rewrite !get_set_ne by discriminate. unfold f1. rewrite get_set_eq. apply get_set_eq.
  - unfold f4. rewrite get_setFieldLength, D3 by discriminate. unfold f2, f1.
    rewrite !get_set_ne by discriminate. reflexivity.
Qed.

(** A field with no [typeFromTypes] (its [Type] is not in the registry)
    loses any [type] it had: [setDefaultFieldType] assigns it [undefined]. *)
Theorem resolve_field_untyped (num_of : val -> float) (to_str : val -> string)
  (f : obj) (imp : list string) :
  get "typeFromTypes" f = None ->
  get "type" (fst (resolve_field num_of to_str f imp)) = None.
Proof.
  intros H. unfold resolve_field.
  assert (E1 : createFieldVariables f = (f, get "Type" f))
    by (unfold createFieldVariables; rewrite H; reflexivity).
  rewrite E1. cbn [fst].
  assert (E2 : setDefaultFieldType f = del "type" f)
    by (unfold setDefaultFieldType; rewrite H; reflexivity).
  rewrite E2.
  assert (T : get "typeFromTypes" (setFieldLength (setDefaultValue to_str (del "type" f))) = None).
  { rewrite get_setFieldLength, get_setDefaultValue, get_del by discriminate. exact H. }
  rewrite (setFloatType_id num_of)
    by (rewrite get_setIntType, get_setTimeType by discriminate; rewrite T; reflexivity).
  rewrite (setIntType_id num_of) by (rewrite get_setTimeType by discriminate; rewrite T; reflexivity).
  rewrite setTimeType_id by (rewrite T; reflexivity).
  rewrite get_setFieldLength, get_setDefaultValue, get_del by discriminate. reflexivity.
Qed.

(** Every field whose [Primary] is not truthy adds the import of
    [github.com/google/uuid], whatever its own type. *)
Theorem resolve_field_uuid_import (num_of : val -> float) (to_str : val -> string)
  (f : obj) (imp : list string) :
  truthy_opt (get "Primary" f) = false ->
  In ("uuid " ++ dq ++ "github.com/google/uuid" ++ dq)%string (snd (resolve_field num_of to_str f imp)).
Proof.
  intros H. unfold resolve_field.
  pose proof (get_cfv_fst "Primary" f) as Hp.
  destruct (createFieldVariables f) as [f1 ty]. cbn [fst snd] in *.
  unfold setPrimarykey. rewrite get_setDefaultFieldType, Hp, H by discriminate.
  change (addToImports (Some (VStr "uuid.UUID")) (addToImports ty imp)) with
    (push_new ("uuid " ++ dq ++ "github.com/google/uuid" ++ dq)%string (addToImports ty imp)).
  apply push_new_self.
Qed.

Lemma resolve_field_time_witness :
  get "typeFromTypes" [("typeFromTypes", VStr "time.Time"); ("AutoCreate", VBool true)]
    = Some (VStr "time.Time") /\
  get "type" (fst (resolve_field sample_num_of sample_to_str
    [("typeFromTypes", VStr "time.Time"); ("AutoCreate", VBool true)] [])) =
    Some (VStr "*time.Time") /\
  get "misc" (fst (resolve_field sample_num_of sample_to_str
    [("typeFromTypes", VStr "time.Time"); ("AutoCreate", VBool true)] [])) =
    Some (VStr "autoCreateTime") /\
  In (dq ++ "time" ++ dq)%string (snd (resolve_field sample_num_of sample_to_str
    [("typeFromTypes", VStr "time.Time"); ("AutoCreate", VBool true)] [])).
Proof.
  split; [reflexivity|].
  exact (resolve_field_time sample_num_of sample_to_str
    [("typeFromTypes", VStr "time.Time"); ("AutoCreate", VBool true)] [] eq_refl).
Defined.

Lemma resolve_field_string_witness :
  get "typeFromTypes" [("typeFromTypes", VStr "string"); ("DefaultValue", VStr "n/a");
                       ("MaximumLength", VNum 40%float)] = Some (VStr "string") /\
  get "type" (fst (resolve_field sample_num_of (fun v => match v with VStr s => s | _ => "" end)
    [("typeFromTypes", VStr "string"); ("DefaultValue", VStr "n/a"); ("MaximumLength", VNum 40%float)] []))
    = Some (VStr "string") /\
  get "DefaultValue" (fst (resolve_field sample_num_of (fun v => match v with VStr s => s | _ => "" end)
    [("typeFromTypes", VStr "string"); ("DefaultValue", VStr "n/a"); ("MaximumLength", VNum 40%float)] []))
    = Some (VStr "'n/a'") /\
  get "Length" (fst (resolve_field sample_num_of (fun v => match v with VStr s => s | _ => "" end)
    [("typeFromTypes", VStr "string"); ("DefaultValue", VStr "n/a"); ("MaximumLength", VNum 40%float)] []))
    = Some (VNum 40%float).
Proof.
  split; [reflexivity|].
  exact (resolve_field_string sample_num_of (fun v => match v with VStr s => s | _ => "" end)
    [("typeFromTypes", VStr "string"); ("DefaultValue", VStr "n/a"); ("MaximumLength", VNum 40%float)]
    [] eq_refl).
Defined.

Lemma resolve_int_two_bounds_witness :
  PrimFloat.is_nan 0%float = false /\ PrimFloat.is_nan 65535%float = false /\
  get "type" (fst (resolve_field sample_num_of sample_to_str
    [("typeFromTypes", VStr "int"); ("Minimum", VNum 0%float); ("Maximum", VNum 65535%float)] []))
    = Some (VStr "uint32").
Proof.
  split; [reflexivity|]. split; [reflexivity|].
  exact (resolve_int_two_bounds sample_num_of sample_to_str
    [("typeFromTypes", VStr "int"); ("Minimum", VNum 0%float); ("Maximum", VNum 65535%float)] []
    0%float 65535%float eq_refl eq_refl eq_refl eq_refl eq_refl).
Defined.

Lemma resolve_int_unbounded_or_nan_witness :
  PrimFloat.is_nan (to_number sample_num_of (Some (VStr "ten"))) = true /\
  get "type" (fst (resolve_field sample_num_of sample_to_str
    [("typeFromTypes", VStr "int"); ("Maximum", VStr "ten")] [])) = Some (VStr "int").
Proof.
  split; [reflexivity|].
  apply (proj2 (resolve_int_unbounded_or_nan sample_num_of sample_to_str
    [("typeFromTypes", VStr "int"); ("Maximum", VStr "ten")] [] eq_refl) (VStr "ten")).
  - right; reflexivity.
  - reflexivity.
Defined.

Lemma resolve_field_object_witness :
  get "type" (fst (resolve_field sample_num_of sample_to_str
    [("typeFromTypes", VObj [("type", VStr "string"); ("length", VNum 255%float)]);
     ("MaximumLength", VNum 40%float); ("DefaultValue", VStr "x")] [])) = Some (VStr "string") /\
  get "Length" (fst (resolve_field sample_num_of sample_to_str
    [("typeFromTypes", VObj [("type", VStr "string"); ("length", VNum 255%float)]);
     ("MaximumLength", VNum 40%float); ("DefaultValue", VStr "x")] [])) = Some (VNum 255%float) /\
  get "DefaultValue" (fst (resolve_field sample_num_of sample_to_str
    [("typeFromTypes", VObj [("type", VStr "string"); ("length", VNum 255%float)]);
     ("MaximumLength", VNum 40%float); ("DefaultValue", VStr "x")] [])) = Some (VStr "x").
Proof.
  exact (resolve_field_object sample_num_of sample_to_str
    [("typeFromTypes", VObj [("type", VStr "string"); ("length", VNum 255%float)]);
     ("MaximumLength", VNum 40%float); ("DefaultValue", VStr "x")] []
    [("type", VStr "string"); ("length", VNum 255%float)] (VStr "string") (VNum 255%float)
    eq_refl eq_refl eq_refl eq_refl eq_refl).
Defined.

Lemma resolve_field_untyped_witness :
  get "typeFromTypes" [("Type", VStr "blob"); ("type", VStr "bytes")] = None /\
  get "type" (fst (resolve_field sample_num_of sample_to_str
    [("Type", VStr "blob"); ("type", VStr "bytes")] [])) = None.
Proof.
  split; [reflexivity|].
  exact (resolve_field_untyped sample_num_of sample_to_str
    [("Type", VStr "blob"); ("type", VStr "bytes")] [] eq_refl).
Defined.

Lemma resolve_field_uuid_import_witness :
  truthy_opt (get "Primary" [("typeFromTypes", VStr "int"); ("Primary", VBool false)]) = false /\
  In ("uuid " ++ dq ++ "github.com/google/uuid" ++ dq)%string
    (snd (resolve_field sample_num_of sample_to_str
      [("typeFromTypes", VStr "int"); ("Primary", VBool false)] [])).
Proof.
  split; [reflexivity|].
  exact (resolve_field_uuid_import sample_num_of sample_to_str
    [("typeFromTypes", VStr "int"); ("Primary", VBool false)] [] eq_refl).
Defined.

(* ================================================================== *)
(** * More of webapp.ts *)

Lemma str_app_cons (c : ascii) (a b : string) : (String c a ++ b)%string = String c (a ++ b).
Proof. reflexivity. Qed.

Lemma str_app_assoc (a b c : string) : ((a ++ b) ++ c)%string = (a ++ b ++ c)%string.
Proof. induction a as [|x a IH]; [reflexivity|rewrite !str_app_cons; f_equal; exact IH]. Qed.

Lemma str_app_nil_r (a : string) : (a ++ "")%string = a.
Proof. induction a as [|x a IH]; [reflexivity|rewrite !str_app_cons; f_equal; exact IH]. Qed.

Lemma str_forall_app (p : ascii -> bool) (a b : string) :
  str_forall p (a ++ b)%string = str_forall p a && str_forall p b.
Proof. induction a as [|x a IH]; [reflexivity|rewrite str_app_cons; cbn [str_forall]; rewrite IH, andb_assoc; reflexivity]. Qed.

Lemma prefix_app (w s : string) : String.prefix w (w ++ s)%string = true.
Proof.
  induction w as [|c w IH]; [destruct s; reflexivity|].
  rewrite str_app_cons; simpl.
  destruct (ascii_dec c c) as [_|n]; [exact IH|contradiction].
Qed.

Lemma substring_all (s : string) : substring 0 (String.length s) s = s.
Proof. induction s as [|c s IH]; [reflexivity|simpl; f_equal; exact IH]. Qed.

Lemma substring_app (w s : string) :
  substring (String.length w) (String.length (w ++ s) - String.length w) (w ++ s) = s.
Proof.
  induction w as [|c w IH].
  - simpl. rewrite Nat.sub_0_r. apply substring_all.
  - rewrite str_app_cons. exact IH.
Qed.

Lemma lit_app (w s : string) (k : string -> option string) : lit w (w ++ s)%string k = k s.
Proof. unfold lit. rewrite prefix_app, substring_app. reflexivity. Qed.

Lemma prefix_inv (w b : string) : String.prefix w b = true -> exists b', b = (w ++ b')%string.
Proof.
  revert b; induction w as [|c w IH]; intros b H; [exists b; reflexivity|].
  destruct b as [|c' b]; [discriminate|]. simpl in H.
  destruct (ascii_dec c c') as [<-|_]; [|discriminate].
  destruct (IH b H) as [b' ->]. exists b'; reflexivity.
Qed.

(** Greedy runs. *)

Lemma star_run (p : ascii -> bool) (a s : string) (k : string -> option string) (r : string) :
  str_forall p a = true -> head_not p s -> k s = Some r -> star p (a ++ s)%string k = Some r.
Proof.
  induction a as [|c a IH]; simpl; intros Ha Hs Hk.
  - destruct s as [|c s]; simpl; [exact Hk|]. simpl in Hs. rewrite Hs. exact Hk.
  - apply andb_prop in Ha as [Hc Ha]. rewrite Hc, (IH Ha Hs Hk). reflexivity.
Qed.

Lemma star_max (p : ascii -> bool) (a s : string) (k : string -> option string) :
  str_forall p a = true -> head_not p s ->
  (forall c t, p c = true -> k (String c t) = None) ->
  star p (a ++ s)%string k = k s.
Proof.
  induction a as [|c a IH]; simpl; intros Ha Hs Hk.
  - destruct s as [|c s]; simpl; [reflexivity|]. simpl in Hs. rewrite Hs. reflexivity.
  - apply andb_prop in Ha as [Hc Ha]. rewrite Hc, (IH Ha Hs Hk), Hk by exact Hc.
    destruct (k s); reflexivity.
Qed.

(** Lines. *)

Lemma split_nl_line (l rest : string) :
  no_lf l = true -> (rest = "" \/ exists r, rest = (LF ++ r)%string) ->
  hd "" (split_nl (l ++ rest)%string) = l.
Proof.
  unfold no_lf. induction l as [|c l IH]; simpl; intros Hl Hr.
  - destruct Hr as [->|[r ->]]; reflexivity.
  - apply andb_prop in Hl as [Hc Hl]. apply negb_true_iff in Hc. rewrite Hc.
    specialize (IH Hl Hr). destruct (split_nl (l ++ rest)); simpl in *; subst; reflexivity.
Qed.

Lemma plus_not_space_no_ws (t : string) :
  str_forall (fun c => negb (is_ws c)) t = true ->
  star not_space t (fun r => plus is_ws r Some) = None.
Proof.
  induction t as [|c t IH]; simpl; intros H; [reflexivity|].
  apply andb_prop in H as [Hc H]. rewrite (IH H). apply negb_true_iff in Hc. rewrite Hc.
  destruct (not_space c); reflexivity.
Qed.

(** The module path on the first line. *)
Lemma readModulePath_line (w sp p rest : string) :
  w <> "" -> str_forall not_space w = true -> no_lf w = true ->
  str_forall is_ws sp = true -> no_lf sp = true ->
  no_lf p = true -> head_not is_ws p ->
  (rest = "" \/ exists r, rest = (LF ++ r)%string) ->
  readModulePath (Some (w ++ " " ++ sp ++ p ++ rest)%string) = p.
Proof.
  intros Hw Hws Hwl Hsp Hspl Hpl Hp Hr.
  unfold readModulePath, readFirstLine; cbn [option_map].
  replace (w ++ " " ++ sp ++ p ++ rest)%string with ((w ++ " " ++ sp ++ p) ++ rest)%string
    by (rewrite !str_app_assoc; reflexivity).
  rewrite split_nl_line.
  2: { unfold no_lf in *. rewrite !str_forall_app, Hwl, Hspl, Hpl. reflexivity. }
  2: exact Hr.
  destruct w as [|c w]; [contradiction|]. rewrite !str_app_cons. cbn [String.eqb].
  unfold removeModuleStrAndSpaces, replace_anchored, plus.
  cbn [str_forall] in Hws. apply andb_prop in Hws as [Hc Hws]. rewrite Hc.
  rewrite (star_run _ w (" " ++ sp ++ p)%string _ p Hws); [reflexivity|reflexivity|].
  rewrite str_app_cons. change (is_ws " ") with true.
  apply (star_run is_ws sp p); [exact Hsp|exact Hp|reflexivity].
Qed.

Lemma str_forall_impl (p q : ascii -> bool) (s : string) :
  (forall c, p c = true -> q c = true) -> str_forall p s = true -> str_forall q s = true.
Proof.
  intros Hpq; induction s as [|c s IH]; cbn [str_forall]; [reflexivity|].
  intros H; apply andb_prop in H as [Hc H]. rewrite (Hpq c Hc), (IH H). reflexivity.
Qed.


Lemma remove_dq_no (s : string) : str_forall no_dq (remove_dq s) = true.
Proof.
  induction s as [|c s IH]; cbn [remove_dq]; [reflexivity|].
  destruct (Ascii.eqb c (ascii_of_nat 34)) eqn:E; [exact IH|].
  cbn [str_forall]. rewrite IH. unfold no_dq. rewrite E. reflexivity.
Qed.

Lemma remove_dq_id (s : string) : str_forall no_dq s = true -> remove_dq s = s.
Proof.
  induction s as [|c s IH]; cbn [remove_dq str_forall]; [reflexivity|].
  unfold no_dq. intros H; apply andb_prop in H as [Hc H]. apply negb_true_iff in Hc.
  rewrite Hc, (IH H). reflexivity.
Qed.

Lemma remove_dq_app (a b : string) : remove_dq (a ++ b)%string = (remove_dq a ++ remove_dq b)%string.
Proof.
  induction a as [|c a IH]; [reflexivity|]. rewrite str_app_cons. cbn [remove_dq].
  destruct (Ascii.eqb c (ascii_of_nat 34)); rewrite IH; reflexivity.
Qed.

Lemma trailing_spec (s : string) :
  trailing_sp_tab s Some = if str_forall sp_tab s then Some "" else None.
Proof.
  unfold trailing_sp_tab. induction s as [|c s IH]; [reflexivity|].
  cbn [star str_forall]. destruct (sp_tab c); cbn [andb]; [|reflexivity].
  rewrite IH. destruct (str_forall sp_tab s); reflexivity.
Qed.

(** No space or tab at the end. *)

Lemma str_snoc_cons (c0 c : ascii) (r u : string) :
  String c0 r = (u ++ String c "")%string ->
  (r = "" /\ u = "" /\ c = c0) \/ (exists u', u = String c0 u' /\ r = (u' ++ String c "")%string).
Proof.
  destruct u as [|c1 u]; rewrite ?str_app_cons; cbn [String.append]; intros H.
  - injection H as -> ->. left; auto.
  - injection H as -> ->. right. exists u; auto.
Qed.

Lemma replace_trailing_spec (s : string) :
  let r := replace_unanchored trailing_sp_tab s in
  (exists t, s = (r ++ t)%string) /\ (r = "" -> str_forall sp_tab s = true) /\ no_trailing r.
Proof.
  induction s as [|c s IH]; cbn zeta.
  - cbn. split; [exists ""; reflexivity|]. split; [reflexivity|].
    intros u c H. destruct u; discriminate.
  - cbn zeta in IH. destruct IH as ([t Ht] & Hnil & Hnt).
    cbn [replace_unanchored]. rewrite trailing_spec.
    destruct (str_forall sp_tab (String c s)) eqn:E.
    + split; [exists (String c s); reflexivity|]. split; [reflexivity|].
      intros u c' H. destruct u; discriminate.
    + destruct (str_forall sp_tab s) eqn:Es.
      * assert (Hr' : replace_unanchored trailing_sp_tab s = "").
        { destruct s as [|c1 s1]; [reflexivity|].
          cbn [replace_unanchored]. rewrite trailing_spec, Es. reflexivity. }
        rewrite Hr'.
        split; [exists s; reflexivity|]. split; [discriminate|].
        cbn [str_forall] in E. rewrite Es, andb_true_r in E.
        intros u c' H. apply str_snoc_cons in H as [(_ & _ & ->)|(u' & _ & H)]; [exact E|destruct u'; discriminate].
      * set (r' := replace_unanchored trailing_sp_tab s) in *.
        split; [exists t; rewrite Ht; reflexivity|]. split; [discriminate|].
        intros u c' H. apply str_snoc_cons in H as [(Hr & _ & _)|(u' & _ & H)].
        -- specialize (Hnil Hr). congruence.
        -- exact (Hnt u' c' H).
Qed.

Lemma replace_trailing_id (v : string) : no_trailing v -> replace_unanchored trailing_sp_tab v = v.
Proof.
  induction v as [|c v IH]; intros H; [reflexivity|].
  cbn [replace_unanchored]. rewrite trailing_spec.
  destruct (str_forall sp_tab (String c v)) eqn:E.
  - exfalso. cbn [str_forall] in E. apply andb_prop in E as [Ec Ev].
    destruct (replace_trailing_spec v) as (_ & _ & _).
    (* the last character of a nonempty run of spaces and tabs *)
    assert (Hl : forall c0 w, str_forall sp_tab w = true -> sp_tab c0 = true ->
                 exists u c1, String c0 w = (u ++ String c1 "")%string /\ sp_tab c1 = true).
    { intros c0 w; revert c0; induction w as [|c2 w IHw]; intros c0 Hw Hc0.
      - exists "", c0; split; [reflexivity|exact Hc0].
      - cbn [str_forall] in Hw. apply andb_prop in Hw as [Hc2 Hw].
        destruct (IHw c2 Hw Hc2) as (u & c1 & Hu & Hc1).
        exists (String c0 u), c1. split; [rewrite str_app_cons, <- Hu; reflexivity|exact Hc1]. }
    destruct (Hl c v Ev Ec) as (u & c1 & Hu & Hc1). rewrite (H u c1 Hu) in Hc1. discriminate.
  - f_equal. apply IH. intros u c' Hu. apply (H (String c u) c'). rewrite str_app_cons, <- Hu. reflexivity.
Qed.

Lemma find_cfg_none (lines : list string) :
  find_cfg lines = None <-> Forall (fun l => String.prefix "cfgFileName = " (trim l) = false) lines.
Proof.
  induction lines as [|l ls IH]; cbn [find_cfg].
  - split; [constructor|reflexivity].
  - destruct (String.prefix "cfgFileName = " (trim l)) eqn:E.
    + split; [discriminate|intros H; inversion H; congruence].
    + rewrite IH. split; [intros H; constructor; assumption|intros H; inversion H; assumption].
Qed.

Lemma find_cfg_some (lines : list string) (v : string) :
  find_cfg lines = Some v -> exists l, In l lines /\ v = cfg_value l.
Proof.
  induction lines as [|l ls IH]; cbn [find_cfg]; [discriminate|].
  destruct (String.prefix "cfgFileName = " (trim l)).
  - intros H; injection H as <-. exists l; split; [left|]; reflexivity.
  - intros H. destruct (IH H) as (l' & Hin & ->). exists l'; split; [right; exact Hin|reflexivity].
Qed.

Lemma ltrim_ws (a b : string) :
  str_forall is_ws a = true -> head_not is_ws b -> ltrim (a ++ b)%string = b.
Proof.
  induction a as [|c a IH]; intros Ha Hb.
  - destruct b as [|c b]; [reflexivity|]. change (ltrim (String c b) = String c b).
    cbn [ltrim]. cbn in Hb. rewrite Hb. reflexivity.
  - rewrite str_app_cons. cbn [ltrim]. cbn [str_forall] in Ha. apply andb_prop in Ha as [Hc Ha].
    rewrite Hc. exact (IH Ha Hb).
Qed.

Lemma rtrim_last (u : string) (c : ascii) :
  is_ws c = false -> rtrim (u ++ String c "")%string = (u ++ String c "")%string.
Proof.
  intros Hc. induction u as [|c0 u IH].
  - change (rtrim (String c "") = String c ""). cbn [rtrim]. rewrite Hc, andb_false_r. reflexivity.
  - rewrite str_app_cons. cbn [rtrim]. rewrite IH.
    destruct u; reflexivity.
Qed.

(** [findLinesStartingWithCfgFileName] gives no value exactly when no line of the file, once trimmed, starts with [cfgFileName = ]. *)
Theorem findLinesStartingWithCfgFileName_not_found (fileContent : string) :
  findLinesStartingWithCfgFileName fileContent = None <->
  Forall (fun line => String.prefix "cfgFileName = " (trim line) = false) (split_nl fileContent).
Proof. exact (find_cfg_none (split_nl fileContent)). Qed.

(** A value found by [findLinesStartingWithCfgFileName] contains no double quote and does not end in a space or a tab. *)
Theorem findLinesStartingWithCfgFileName_value_shape (fileContent v : string)
    (H : findLinesStartingWithCfgFileName fileContent = Some v) :
  str_forall no_dq v = true /\ no_trailing v.
Proof.
  apply find_cfg_some in H as (l & _ & ->). unfold cfg_value.
  destruct (replace_trailing_spec (remove_dq (replace_anchored cfg_assign l))) as ([t Ht] & _ & Hnt).
  split; [|exact Hnt].
  pose proof (remove_dq_no (replace_anchored cfg_assign l)) as Hq.
  rewrite Ht, str_forall_app in Hq. apply andb_prop in Hq as [Hq _]. exact Hq.
Qed.

(** When the first matching line is an indented [cfgFileName = \x22v\x22] with [v] free of quotes and trailing blanks, [findLinesStartingWithCfgFileName] returns [v]. *)
Theorem findLinesStartingWithCfgFileName_extracts (fileContent : string) (pre post : list string)
    (ind v : string)
    (Hlines : split_nl fileContent =
              pre ++ (ind ++ "cfgFileName = " ++ dq ++ v ++ dq)%string :: post)
    (Hpre : Forall (fun line => String.prefix "cfgFileName = " (trim line) = false) pre)
    (Hind : str_forall sp_tab ind = true) (Hv : str_forall no_dq v = true) (Hvt : no_trailing v) :
  findLinesStartingWithCfgFileName fileContent = Some v.
Proof.
  unfold findLinesStartingWithCfgFileName. rewrite Hlines. clear Hlines.
  induction Hpre as [|l pre Hl _ IH]; cbn [app find_cfg]; [|rewrite Hl; exact IH].
  assert (Hws : str_forall is_ws ind = true).
  { apply (str_forall_impl sp_tab); [|exact Hind].
    intros c Hc. unfold sp_tab in Hc. apply orb_prop in Hc as [Hc|Hc];
      apply Ascii.eqb_eq in Hc; subst; reflexivity. }
  assert (Htrim : trim (ind ++ "cfgFileName = " ++ dq ++ v ++ dq)%string =
                  ("cfgFileName = " ++ dq ++ v ++ dq)%string).
  { unfold trim. rewrite ltrim_ws by (exact Hws || exact eq_refl).
    replace ("cfgFileName = " ++ dq ++ v ++ dq)%string
      with (("cfgFileName = " ++ dq ++ v) ++ String (ascii_of_nat 34) "")%string
      by (rewrite !str_app_assoc; reflexivity).
    apply rtrim_last. reflexivity. }
  rewrite Htrim, prefix_app. f_equal.
  unfold cfg_value, replace_anchored, cfg_assign.
  rewrite (star_run sp_tab ind ("cfgFileName = " ++ dq ++ v ++ dq)%string _ (dq ++ v ++ dq)%string Hind);
    [|exact eq_refl|].
  - rewrite remove_dq_app, remove_dq_app, (remove_dq_id v Hv). cbn [remove_dq]. cbn.
    rewrite str_app_nil_r. apply replace_trailing_id, Hvt.
  - change ("cfgFileName = " ++ dq ++ v ++ dq)%string
      with ("cfgFileName" ++ " = " ++ dq ++ v ++ dq)%string.
    rewrite lit_app.
    change (" = " ++ dq ++ v ++ dq)%string with (" " ++ "= " ++ dq ++ v ++ dq)%string.
    apply (star_run sp_tab " " ("= " ++ dq ++ v ++ dq)%string); [reflexivity|reflexivity|].
    change ("= " ++ dq ++ v ++ dq)%string with ("=" ++ " " ++ dq ++ v ++ dq)%string.
    rewrite lit_app.
    apply (star_run sp_tab " " (dq ++ v ++ dq)%string); reflexivity.
Qed.


Lemma str_app_nil_l (s : string) : ("" ++ s)%string = s.
Proof. reflexivity. Qed.

Lemma nonblank_split (l : string) :
  str_forall is_ws l = false ->
  exists a b, l = (a ++ b)%string /\ str_forall is_ws a = true /\ head_not is_ws b /\ b <> "".
Proof.
  induction l as [|c l IH]; cbn [str_forall]; [discriminate|].
  destruct (is_ws c) eqn:Ec; cbn [andb]; intros H.
  - destruct (IH H) as (a & b & -> & Ha & Hb & Hne).
    exists (String c a), b. rewrite str_app_cons. cbn [str_forall]. rewrite Ec, Ha. auto.
  - exists "", (String c l). split; [reflexivity|]. split; [reflexivity|]. split; [exact Ec|discriminate].
Qed.

Lemma prefix_app_lt (w s t : string) :
  no_lt w = true -> tail_ok t -> String.prefix w (s ++ t)%string = String.prefix w s.
Proof.
  unfold no_lt. revert s; induction w as [|c w IH]; intros s Hw Ht.
  - destruct s, t; reflexivity.
  - cbn [str_forall] in Hw. apply andb_prop in Hw as [Hc Hw]. apply negb_true_iff in Hc.
    destruct s as [|c' s].
    + rewrite str_app_nil_l. destruct Ht as [->|(c1 & t' & -> & Hc1)]; [reflexivity|].
      cbn [String.prefix]. destruct (ascii_dec c c1) as [<-|_]; [congruence|reflexivity].
    + rewrite str_app_cons. cbn [String.prefix]. destruct (ascii_dec c c'); [exact (IH s Hw Ht)|reflexivity].
Qed.

Lemma comment_delims_skip (n : nat) (bol : bool) (c : ascii) (s : string) :
  comment_delims (S n) bol (String c s) = String c (comment_delims n (is_line_terminator c) s).
Proof. reflexivity. Qed.

Lemma comment_delims_none (bol : bool) (c : ascii) (s : string) :
  (bol = false \/ delim_re (String c s) Some = None) ->
  comment_delims 0 bol (String c s) = String c (comment_delims 0 (is_line_terminator c) s).
Proof.
  intros [->|H]; [reflexivity|]. destruct bol; [|reflexivity].
  cbn [comment_delims]. rewrite H. reflexivity.
Qed.

Lemma comment_delims_some (c : ascii) (s r : string) :
  delim_re (String c s) Some = Some r ->
  comment_delims 0 true (String c s) =
  ("// " ++ String c (comment_delims (pred (String.length (String c s) - String.length r))
                        (is_line_terminator c) s))%string.
Proof. intros H. cbn [comment_delims]. rewrite H. reflexivity. Qed.

Lemma copy_nolt (x y : string) :
  no_lt x = true -> comment_delims 0 false (x ++ y)%string = (x ++ comment_delims 0 false y)%string.
Proof.
  unfold no_lt. induction x as [|c x IH]; intros Hx; [reflexivity|].
  cbn [str_forall] in Hx. apply andb_prop in Hx as [Hc Hx]. apply negb_true_iff in Hc.
  rewrite !str_app_cons, comment_delims_none by (left; reflexivity). rewrite Hc, (IH Hx). reflexivity.
Qed.

Lemma skip_copy (x y : string) :
  no_lt x = true ->
  comment_delims (String.length x) false (x ++ y)%string = (x ++ comment_delims 0 false y)%string.
Proof.
  unfold no_lt. induction x as [|c x IH]; intros Hx; [reflexivity|].
  cbn [str_forall] in Hx. apply andb_prop in Hx as [Hc Hx]. apply negb_true_iff in Hc.
  rewrite !str_app_cons. cbn [String.length]. rewrite comment_delims_skip, Hc, (IH Hx). reflexivity.
Qed.

Lemma delim_lit_ws (w : string) (c : ascii) (u : string) :
  w = right_delim \/ w = left_delim -> is_ws c = true -> lit w (String c u) Some = None.
Proof.
  intros Hw Hc. unfold lit.
  assert (Hh : exists c0 w', w = String c0 w' /\ is_ws c0 = false).
  { destruct Hw as [-> | ->]; do 2 eexists; split; [reflexivity|reflexivity|reflexivity|reflexivity]. }
  destruct Hh as (c0 & w' & -> & Hc0). cbn [String.prefix].
  destruct (ascii_dec c0 c) as [<-|_]; [congruence|reflexivity].
Qed.

Lemma lit_delim (w b t : string) :
  no_lt w = true -> tail_ok t ->
  (String.prefix w b = false -> lit w (b ++ t)%string Some = None) /\
  (forall b', b = (w ++ b')%string -> lit w (b ++ t)%string Some = Some (b' ++ t)%string).
Proof.
  intros Hw Ht. split.
  - intros H. unfold lit. rewrite prefix_app_lt by assumption. rewrite H. reflexivity.
  - intros b' ->. rewrite str_app_assoc, lit_app. reflexivity.
Qed.

Lemma line_match (x b' t : string) :
  no_lt x = true -> no_lt b' = true -> x <> "" ->
  delim_re (x ++ b' ++ t)%string Some = Some (b' ++ t)%string ->
  comment_delims 0 true (x ++ b' ++ t)%string = ("// " ++ x ++ b' ++ comment_delims 0 false t)%string.
Proof.
  intros Hx Hb Hne H. destruct x as [|c x]; [contradiction|].
  rewrite str_app_cons in *. rewrite (comment_delims_some _ _ _ H).
  cbn [String.length]. rewrite !string_length_append.
  replace (pred (S (String.length x + (String.length b' + String.length t)) -
                 (String.length b' + String.length t))) with (String.length x) by lia.
  unfold no_lt in Hx. cbn [str_forall] in Hx. apply andb_prop in Hx as [Hc Hx].
  apply negb_true_iff in Hc. rewrite Hc, skip_copy by exact Hx. rewrite copy_nolt by exact Hb.
  reflexivity.
Qed.

Lemma line_match_lf (x b' t : string) :
  no_lt x = true -> no_lt b' = true -> x <> "" ->
  delim_re (LF ++ x ++ b' ++ t)%string Some = Some (b' ++ t)%string ->
  comment_delims 0 true (LF ++ x ++ b' ++ t)%string = ("// " ++ LF ++ x ++ b' ++ comment_delims 0 false t)%string.
Proof.
  intros Hx Hb Hne H. change (LF ++ x ++ b' ++ t)%string with (String (ascii_of_nat 10) (x ++ b' ++ t)) in *.
  rewrite (comment_delims_some _ _ _ H).
  destruct x as [|c x]; [contradiction|]. rewrite !str_app_cons.
  cbn [String.length]. rewrite !string_length_append.
  replace (pred (S (S (String.length x + (String.length b' + String.length t))) -
                 (String.length b' + String.length t))) with (S (String.length x)) by lia.
  rewrite comment_delims_skip.
  unfold no_lt in Hx. cbn [str_forall] in Hx. apply andb_prop in Hx as [Hc Hx].
  apply negb_true_iff in Hc. rewrite Hc, skip_copy by exact Hx. rewrite copy_nolt by exact Hb.
  reflexivity.
Qed.


Lemma delim_re_star (a s : string) :
  str_forall is_ws a = true -> head_not is_ws s -> delim_re (a ++ s)%string Some = delim_alt s.
Proof.
  intros Ha Hs. unfold delim_re. apply star_max; [exact Ha|exact Hs|].
  intros c u Hc. rewrite !delim_lit_ws by (auto || exact Hc). reflexivity.
Qed.

Lemma delim_nonempty (w : string) : w = right_delim \/ w = left_delim -> no_lt w = true /\ w <> "".
Proof. intros [-> | ->]; split; (reflexivity || discriminate). Qed.

Lemma no_lt_app (x y : string) : no_lt (x ++ y)%string = no_lt x && no_lt y.
Proof. unfold no_lt. apply str_forall_app. Qed.

Lemma app_nonempty_r (x y : string) : y <> "" -> (x ++ y)%string <> "".
Proof. destruct x; [auto|discriminate]. Qed.

Lemma line_match_w (a w b' t : string) :
  w = right_delim \/ w = left_delim -> no_lt (a ++ w ++ b')%string = true ->
  delim_re ((a ++ w ++ b') ++ t)%string Some = Some (b' ++ t)%string ->
  comment_delims 0 true ((a ++ w ++ b') ++ t)%string =
  (("// " ++ a ++ w ++ b') ++ comment_delims 0 false t)%string.
Proof.
  intros Hw Hl H. destruct (delim_nonempty w Hw) as [_ Hne].
  rewrite !no_lt_app in Hl. apply andb_prop in Hl as [Ha Hl]. apply andb_prop in Hl as [Hw' Hb].
  replace ((a ++ w ++ b') ++ t)%string with ((a ++ w) ++ b' ++ t)%string in *
    by (rewrite !str_app_assoc; reflexivity).
  rewrite line_match.
  - rewrite !str_app_assoc. reflexivity.
  - rewrite no_lt_app, Ha, Hw'. reflexivity.
  - exact Hb.
  - apply app_nonempty_r, Hne.
  - exact H.
Qed.

Lemma line_step (l t : string) :
  no_lt l = true -> str_forall is_ws l = false -> tail_ok t ->
  comment_delims 0 true (l ++ t)%string = (comment_line l ++ comment_delims 0 false t)%string.
Proof.
  intros Hl Hnb Ht.
  destruct (nonblank_split l Hnb) as (a & b & -> & Ha & Hb & Hne).
  assert (Hl' := Hl). rewrite no_lt_app in Hl'. apply andb_prop in Hl' as [Hla Hlb].
  assert (Htrim : ltrim (a ++ b)%string = b) by (apply ltrim_ws; assumption).
  assert (Hd : delim_re ((a ++ b) ++ t)%string Some = delim_alt (b ++ t)%string).
  { rewrite str_app_assoc. apply delim_re_star; [exact Ha|].
    destruct b as [|c b]; [contradiction|exact Hb]. }
  unfold comment_line, is_delim_line. rewrite Htrim.
  destruct (lit_delim right_delim b t eq_refl Ht) as [Rn Rs].
  destruct (lit_delim left_delim b t eq_refl Ht) as [Ln Ls].
  destruct (String.prefix right_delim b) eqn:E1; [|destruct (String.prefix left_delim b) eqn:E2]; cbn [orb].
  - destruct (prefix_inv _ _ E1) as [b' Eb].
    assert (Hm : delim_alt (b ++ t)%string = Some (b' ++ t)%string)
      by (unfold delim_alt; rewrite (Rs b' Eb); reflexivity).
    subst b. apply line_match_w; [left; reflexivity|exact Hl|rewrite Hd; exact Hm].
  - destruct (prefix_inv _ _ E2) as [b' Eb].
    assert (Hm : delim_alt (b ++ t)%string = Some (b' ++ t)%string)
      by (unfold delim_alt; rewrite (Rn eq_refl), (Ls b' Eb); reflexivity).
    subst b. apply line_match_w; [right; reflexivity|exact Hl|rewrite Hd; exact Hm].
  - assert (Hm : delim_alt (b ++ t)%string = None)
      by (unfold delim_alt; rewrite (Rn eq_refl), (Ln eq_refl); reflexivity).
    rewrite Hm in Hd. clear Rn Rs Ln Ls Hm.
    destruct (a ++ b)%string as [|c l'] eqn:Eab; [destruct a; [contradiction|discriminate]|].
    rewrite str_app_cons in *. rewrite comment_delims_none by (right; exact Hd).
    unfold no_lt in Hl. cbn [str_forall] in Hl. apply andb_prop in Hl as [Hc Hl].
    apply negb_true_iff in Hc. rewrite Hc, copy_nolt by exact Hl. reflexivity.
Qed.

Lemma blank_line (l : string) :
  no_lt l = true -> str_forall is_ws l = true ->
  comment_delims 0 true l = l /\ comment_line l = l.
Proof.
  intros Hl Hb. split.
  - destruct l as [|c l']; [reflexivity|].
    assert (Hd : delim_re (String c l') Some = None).
    { rewrite <- (str_app_nil_r (String c l')). rewrite delim_re_star by (exact Hb || exact I).
      reflexivity. }
    rewrite comment_delims_none by (right; exact Hd).
    unfold no_lt in Hl. cbn [str_forall] in Hl. apply andb_prop in Hl as [Hc Hl].
    apply negb_true_iff in Hc. rewrite Hc.
    rewrite <- (str_app_nil_r l') at 1. rewrite copy_nolt by exact Hl.
    rewrite str_app_nil_r. reflexivity.
  - unfold comment_line, is_delim_line.
    rewrite <- (str_app_nil_r l), ltrim_ws by (exact Hb || exact I). reflexivity.
Qed.

Lemma lf_step (r : string) :
  comment_delims 0 false (LF ++ r)%string = (LF ++ comment_delims 0 true r)%string.
Proof. reflexivity. Qed.

Lemma cr_step (r : string) :
  comment_delims 0 false (CR ++ r)%string = (CR ++ comment_delims 0 true r)%string.
Proof. reflexivity. Qed.

Lemma concat_cons (sep x : string) (xs : list string) :
  xs <> [] -> String.concat sep (x :: xs) = (x ++ sep ++ String.concat sep xs)%string.
Proof. destruct xs; [contradiction|reflexivity]. Qed.

Lemma concat_empty_cons (x : string) (xs : list string) :
  String.concat "" (x :: xs) = (x ++ String.concat "" xs)%string.
Proof. destruct xs; [rewrite str_app_nil_r; reflexivity|reflexivity]. Qed.

Lemma concat_sep (sep l0 : string) (ls : list string) :
  String.concat sep (l0 :: ls) = (l0 ++ String.concat "" (map (fun l => sep ++ l) ls))%string.
Proof.
  revert l0; induction ls as [|l1 ls IH]; intros l0.
  - cbn. rewrite str_app_nil_r. reflexivity.
  - rewrite concat_cons by discriminate. rewrite IH. cbn [map]. rewrite concat_empty_cons.
    rewrite !str_app_assoc. reflexivity.
Qed.

Lemma crlf_step (l t : string) :
  no_lt l = true -> str_forall is_ws l = false -> tail_ok t ->
  comment_delims 0 false (CR ++ LF ++ l ++ t)%string =
  (CR ++ (if is_delim_line l then "// " else "") ++ LF ++ l ++ comment_delims 0 false t)%string.
Proof.
  intros Hl Hnb Ht. rewrite cr_step. f_equal.
  destruct (nonblank_split l Hnb) as (a & b & -> & Ha & Hb & Hne).
  assert (Hl' := Hl). rewrite no_lt_app in Hl'. apply andb_prop in Hl' as [Hla Hlb].
  assert (Htrim : ltrim (a ++ b)%string = b) by (apply ltrim_ws; assumption).
  assert (Hd : delim_re (LF ++ (a ++ b) ++ t)%string Some = delim_alt (b ++ t)%string).
  { replace (LF ++ (a ++ b) ++ t)%string with ((LF ++ a) ++ b ++ t)%string
      by (rewrite !str_app_assoc; reflexivity).
    apply delim_re_star; [rewrite str_forall_app, Ha; reflexivity|].
    destruct b as [|c b]; [contradiction|exact Hb]. }
  unfold is_delim_line. rewrite Htrim.
  destruct (lit_delim right_delim b t eq_refl Ht) as [Rn Rs].
  destruct (lit_delim left_delim b t eq_refl Ht) as [Ln Ls].
  assert (Hm : forall w b', w = right_delim \/ w = left_delim -> b = (w ++ b')%string ->
                 delim_alt (b ++ t)%string = Some (b' ++ t)%string ->
                 comment_delims 0 true (LF ++ (a ++ b) ++ t)%string =
                 ("// " ++ LF ++ (a ++ b) ++ comment_delims 0 false t)%string).
  { intros w b' Hw -> Hm. destruct (delim_nonempty w Hw) as [Hwl Hwne].
    rewrite no_lt_app in Hlb. apply andb_prop in Hlb as [_ Hb'].
    replace (LF ++ (a ++ w ++ b') ++ t)%string with (LF ++ (a ++ w) ++ b' ++ t)%string in *
      by (rewrite !str_app_assoc; reflexivity).
    rewrite line_match_lf.
    - rewrite !str_app_assoc. reflexivity.
    - rewrite no_lt_app, Hla, Hwl. reflexivity.
    - exact Hb'.
    - apply app_nonempty_r, Hwne.
    - rewrite Hd. exact Hm. }
  destruct (String.prefix right_delim b) eqn:E1; [|destruct (String.prefix left_delim b) eqn:E2]; cbn [orb].
  - destruct (prefix_inv _ _ E1) as [b' Eb].
    apply (Hm right_delim b'); [left; reflexivity|exact Eb|].
    unfold delim_alt; rewrite (Rs b' Eb); reflexivity.
  - destruct (prefix_inv _ _ E2) as [b' Eb].
    apply (Hm left_delim b'); [right; reflexivity|exact Eb|].
    unfold delim_alt; rewrite (Rn eq_refl), (Ls b' Eb); reflexivity.
  - assert (Hn : delim_alt (b ++ t)%string = None)
      by (unfold delim_alt; rewrite (Rn eq_refl), (Ln eq_refl); reflexivity).
    rewrite Hn in Hd.
    change (LF ++ (a ++ b) ++ t)%string with (String (ascii_of_nat 10) ((a ++ b) ++ t)) in *.
    rewrite comment_delims_none by (right; exact Hd).
    change (is_line_terminator (ascii_of_nat 10)) with true.
    rewrite line_step by assumption.
    unfold comment_line, is_delim_line. rewrite Htrim, E1, E2. reflexivity.
Qed.

(** On LF-separated lines, none blank except possibly the last, [removeDelims] comments out exactly the lines whose first non-blank text is a template delimiter, and leaves the others unchanged. *)
Theorem removeDelims_lf_lines (ls : list string) (last : string)
    (Hls : Forall (fun l => no_lt l = true /\ str_forall is_ws l = false) ls)
    (Hlast : no_lt last = true) :
  removeDelims (String.concat LF (ls ++ [last])) = String.concat LF (map comment_line (ls ++ [last])).
Proof.
  unfold removeDelims. induction Hls as [|l ls [Hl Hnb] _ IH].
  - cbn [app String.concat map]. destruct (str_forall is_ws last) eqn:E.
    + destruct (blank_line last Hlast E) as [H1 H2]. rewrite H1, H2. reflexivity.
    + rewrite <- (str_app_nil_r last) at 1. rewrite line_step by (auto; left; reflexivity).
      change (comment_delims 0 false "") with "". apply str_app_nil_r.
  - cbn [app map]. rewrite !concat_cons by (destruct ls; discriminate).
    rewrite line_step; [|exact Hl|exact Hnb|right; eexists _, _; split; reflexivity].
    rewrite lf_step, IH. reflexivity.
Qed.

(** On CRLF-separated non-blank lines, [removeDelims] puts the comment marker of a delimiter line between the CR and the LF that precede it, so the CR stays at the end of the previous line. *)
Theorem removeDelims_crlf_lines (l0 : string) (ls : list string)
    (Hls : Forall (fun l => no_lt l = true /\ str_forall is_ws l = false) (l0 :: ls)) :
  removeDelims (String.concat (CR ++ LF) (l0 :: ls)) =
  (comment_line l0 ++
   String.concat "" (map (fun l => CR ++ (if is_delim_line l then "// " else "") ++ LF ++ l) ls))%string.
Proof.
  unfold removeDelims. rewrite concat_sep.
  inversion Hls as [|? ? [Hl0 Hnb0] Hrest]; subst.
  rewrite line_step; [f_equal|exact Hl0|exact Hnb0|].
  - clear Hls. induction Hrest as [|l ls [Hl Hnb] _ IH]; [reflexivity|].
    cbn [map]. rewrite !concat_empty_cons.
    rewrite !str_app_assoc. rewrite crlf_step; [|exact Hl|exact Hnb|].
    + rewrite IH. reflexivity.
    + destruct ls; [left; reflexivity|right; cbn [map]; rewrite concat_empty_cons; eexists _, _; split; reflexivity].
  - destruct ls; [left; reflexivity|right; cbn [map]; rewrite concat_empty_cons; eexists _, _; split; reflexivity].
Qed.

(** For a go.mod whose first line is a keyword, one space, optional blanks and a path, [readModulePath] returns the path. *)
Theorem readModulePath_reads_module_path (w sp p rest : string)
    (Hw : w <> "") (Hws : str_forall not_space w = true) (Hwl : no_lf w = true)
    (Hsp : str_forall is_ws sp = true) (Hspl : no_lf sp = true)
    (Hpl : no_lf p = true) (Hp : head_not is_ws p)
    (Hrest : rest = "" \/ exists r, rest = (LF ++ r)%string) :
  readModulePath (Some (w ++ " " ++ sp ++ p ++ rest)%string) = p.
Proof. exact (readModulePath_line w sp p rest Hw Hws Hwl Hsp Hspl Hpl Hp Hrest). Qed.

(** For a go.mod with CRLF line ends, [readModulePath] returns the path followed by the CR character. *)
Theorem readModulePath_keeps_cr (w sp p rest : string)
    (Hw : w <> "") (Hws : str_forall not_space w = true) (Hwl : no_lf w = true)
    (Hsp : str_forall is_ws sp = true) (Hspl : no_lf sp = true)
    (Hpl : no_lf p = true) (Hp : p <> "") (Hph : head_not is_ws p) :
  readModulePath (Some (w ++ " " ++ sp ++ p ++ CR ++ LF ++ rest)%string) = (p ++ CR)%string.
Proof.
  replace (p ++ CR ++ LF ++ rest)%string with ((p ++ CR) ++ LF ++ rest)%string
    by (rewrite str_app_assoc; reflexivity).
  apply readModulePath_line; try assumption.
  - unfold no_lf in *. rewrite str_forall_app, Hpl. reflexivity.
  - destruct p as [|c p]; [contradiction|exact Hph].
  - right. exists rest. reflexivity.
Qed.

Lemma no_ws_no_lf (l : string) : str_forall (fun c => negb (is_ws c)) l = true -> no_lf l = true.
Proof.
  unfold no_lf. apply str_forall_impl. intros c Hc.
  destruct (Ascii.eqb c (ascii_of_nat 10)) eqn:E; [|reflexivity].
  apply Ascii.eqb_eq in E. subst. discriminate.
Qed.

(** [readModulePath] gives the empty string with no file, an empty file or an empty first line, and returns a first line without blanks unchanged. *)
Theorem readModulePath_fallbacks :
  readModulePath None = "" /\
  readModulePath (Some "") = "" /\
  (forall rest, readModulePath (Some (LF ++ rest)%string) = "") /\
  (forall l rest, l <> "" -> str_forall (fun c => negb (is_ws c)) l = true ->
     (rest = "" \/ exists r, rest = (LF ++ r)%string) ->
     readModulePath (Some (l ++ rest)%string) = l).
Proof.
  split; [reflexivity|]. split; [reflexivity|]. split; [intros rest; reflexivity|].
  intros l rest Hne Hl Hr. unfold readModulePath, readFirstLine; cbn [option_map].
  rewrite split_nl_line by (exact (no_ws_no_lf l Hl) || exact Hr).
  destruct l as [|c t]; [contradiction|]. cbn [String.eqb].
  unfold removeModuleStrAndSpaces, replace_anchored, plus.
  cbn [str_forall] in Hl. apply andb_prop in Hl as [Hc Ht].
  assert (Hns : not_space c = true).
  { unfold not_space. destruct (Ascii.eqb c " ") eqn:E; [|reflexivity].
    apply Ascii.eqb_eq in E. subst. discriminate. }
  rewrite Hns, plus_not_space_no_ws by exact Ht. reflexivity.
Qed.

(** [listModelPackages] *)
Lemma push_new_iff (x y : string) (l : list string) : In y (push_new x l) <-> In y l \/ y = x.
Proof.
  unfold push_new. destruct (existsb (String.eqb x) l) eqn:E.
  - split; [auto|intros [H| ->]; [exact H|]].
    apply existsb_exists in E as (z & Hz & Exz). apply String.eqb_eq in Exz. subst. exact Hz.
  - rewrite in_app_iff. simpl. split; intros [H|H]; auto; destruct H as [H|[]]; auto.
Qed.

Lemma fold_push_new (f : string -> string) (ps : list string) (acc : list string) :
  List.NoDup acc ->
  let r := fold_left (fun acc p => push_new (f p) acc) ps acc in
  List.NoDup r /\ (forall x, In x r <-> In x acc \/ exists p, In p ps /\ x = f p).
Proof.
  revert acc; induction ps as [|p ps IH]; intros acc Hnd; cbn zeta; cbn [fold_left].
  - split; [exact Hnd|]. intros x; split; [auto|intros [H|(q & [] & _)]; exact H].
  - destruct (IH (push_new (f p) acc) (push_new_NoDup _ _ Hnd)) as [Hnd' Hin].
    split; [exact Hnd'|]. intros x. rewrite Hin, push_new_iff. split.
    + intros [[H| ->]|(q & Hq & ->)]; [left; exact H|right; exists p; split; [left|]; reflexivity|].
      right. exists q. split; [right; exact Hq|reflexivity].
    + intros [H|(q & [<-|Hq] & ->)]; [left; left; exact H|left; right; reflexivity|].
      right. exists q. split; [exact Hq|reflexivity].
Qed.

(** [listModelPackages] starts with the config import, followed by the import strings of the given packages, each once, and nothing else. *)
Theorem listModelPackages_imports (packages : list string) (modulePath : string) :
  exists imports,
    listModelPackages packages modulePath = (dq ++ modulePath ++ "/config" ++ dq)%string :: imports /\
    List.NoDup imports /\
    (forall x, In x imports <-> exists p, In p packages /\ x = modelImportStr modulePath p).
Proof.
  destruct (fold_push_new (modelImportStr modulePath) packages [] ltac:(constructor)) as [Hnd Hin].
  eexists. split; [reflexivity|]. split; [exact Hnd|].
  intros x. rewrite Hin. split; [intros [[]|H]; exact H|intros H; right; exact H].
Qed.

(** On a name of two or more characters, [packageTitleCase] upper-cases the first character and keeps the rest. *)
Theorem packageTitleCase_capitalizes (c : ascii) (s : string) (Hs : s <> "") :
  packageTitleCase (String c s) = Some (String (upper_ascii c) s).
Proof.
  unfold packageTitleCase, js_slice. cbn [String.length upper].
  assert (Hn : (String.length s > 0)%nat) by (destruct s; [contradiction|cbn; lia]).
  rewrite (proj2 (Z.ltb_lt _ _)) by lia.
  replace (Z.max 0 (Z.of_nat (S (String.length s)) + - (Z.of_nat (S (String.length s)) - 1)))
    with 1%Z by lia.
  change (Z.to_nat 1) with 1%nat. cbn [substring].
  replace (S (String.length s) - 1)%nat with (String.length s) by lia.
  rewrite substring_all. reflexivity.
Qed.

(** [packageTitleCase] has no value on the empty name, and on a one-character name it returns the upper-cased character followed by the character again. *)
Theorem packageTitleCase_short (c : ascii) :
  packageTitleCase "" = None /\
  packageTitleCase (String c "") = Some (String (upper_ascii c) (String c "")).
Proof. split; reflexivity. Qed.

(** The model of a dotted field is a child *)
Lemma get_has_dot (n : nat) (s : string) : String.get n s = Some "."%char -> has_dot s = true.
Proof.
  revert n; induction s as [|c s IH]; intros n H; [destruct n; discriminate|].
  cbn [has_dot]. destruct (Ascii.eqb c ".") eqn:E; [reflexivity|].
  destruct n as [|n]; cbn in H.
  - injection H as ->. discriminate.
  - exact (IH n H).
Qed.

Lemma prefix_models_false (pkg m : string) :
  has_dot pkg = false -> pkg <> "" ->
  String.prefix "Models." (pkg ++ "Models." ++ m)%string = false.
Proof.
  intros Hd Hne. destruct (String.prefix "Models." (pkg ++ "Models." ++ m)%string) eqn:E; [|reflexivity].
  exfalso. destruct (prefix_inv _ _ E) as [s' Hs'].
  assert (G : String.get 6 (pkg ++ "Models." ++ m)%string = Some "."%char) by (rewrite Hs'; reflexivity).
  destruct (Nat.lt_ge_cases 6 (String.length pkg)) as [Hlt|Hge].
  - rewrite <- append_correct1 in G by exact Hlt. apply get_has_dot in G. congruence.
  - assert (Hk : exists k, 6 = (k + String.length pkg)%nat /\ (k < 6)%nat).
    { exists (6 - String.length pkg)%nat. destruct pkg; [contradiction|cbn [String.length] in *; lia]. }
    destruct Hk as (k & Hk & Hk6). rewrite Hk, <- append_correct2 in G.
    destruct k as [|[|[|[|[|[|k]]]]]]; try lia; vm_compute in G; discriminate G.
Qed.

Lemma replace_first_eq (pat rep s : string) :
  replace_first pat rep s =
  if String.prefix pat s
  then (rep ++ substring (String.length pat) (String.length s - String.length pat) s)%string
  else match s with
       | EmptyString => EmptyString
       | String c s' => String c (replace_first pat rep s')
       end.
Proof. destruct s; reflexivity. Qed.

Lemma replace_first_models (pkg m : string) :
  has_dot pkg = false ->
  replace_first "Models." "." (pkg ++ "Models." ++ m)%string = (pkg ++ "." ++ m)%string.
Proof.
  induction pkg as [|c pkg IH]; intros Hd.
  - rewrite str_app_nil_l, replace_first_eq, prefix_app, substring_app. reflexivity.
  - rewrite replace_first_eq, prefix_models_false by (exact Hd || discriminate).
    rewrite !str_app_cons. f_equal. apply IH.
    cbn [has_dot] in Hd. destruct (Ascii.eqb c "."); [discriminate|exact Hd].
Qed.

Lemma last_dotted_fold_some (ks : list string) (p0 : option string) :
  existsb has_dot ks = true \/ p0 <> None ->
  fold_left (fun p x => if has_dot x then Some x else p) ks p0 <> None.
Proof.
  revert p0; induction ks as [|x ks IH]; intros p0 H; cbn [fold_left existsb] in *.
  - destruct H as [H|H]; [discriminate|exact H].
  - apply IH. destruct (has_dot x) eqn:E; [right; discriminate|].
    destruct H as [H|H]; [left; exact H|right; exact H].
Qed.

(** When a model in a package without dots has a dotted field, [process_model] records it as a child, so [isChild] holds for its qualified model name. *)
Theorem process_model_marks_child (modulePath : string) (num_of : val -> float)
    (to_str : val -> string) (pkg model : string) (fields : list (string * obj))
    (table : list (string * list string))
    (Hnd : List.NoDup (keys fields)) (Hpkg : has_dot pkg = false)
    (Hdot : existsb has_dot (keys fields) = true) :
  isChild (snd (process_model modulePath num_of to_str pkg model fields table))
          (pkg ++ "Models." ++ model)%string = true.
Proof.
  pose proof (process_model_parent modulePath num_of to_str pkg model fields table Hnd) as Hp.
  destruct (last_dotted (keys fields)) as [p|] eqn:Ep;
    [|exfalso; exact (last_dotted_fold_some (keys fields) None (or_introl Hdot) Ep)].
  assert (Hpd : has_dot p = true)
    by (apply (last_dotted_fold_dot (keys fields) None); [discriminate|exact Ep]).
  unfold process_model in *; cbn [fst snd] in *. rewrite Hp, has_dot_truthy by exact Hpd.
  unfold isChild. rewrite replace_first_models by exact Hpkg.
  apply existsb_exists. unfold record_child.
  destruct (get p table) as [l|].
  - exists (l ++ [(pkg ++ "." ++ model)%string]). split.
    + apply in_map_iff. exists (p, l ++ [(pkg ++ "." ++ model)%string]).
      split; [reflexivity|apply get_In, get_set_eq].
    + unfold includes. apply existsb_exists. exists (pkg ++ "." ++ model)%string.
      split; [apply in_or_app; right; left; reflexivity|apply String.eqb_refl].
  - exists [(pkg ++ "." ++ model)%string]. split.
    + apply in_map_iff. exists (p, [(pkg ++ "." ++ model)%string]).
      split; [reflexivity|apply get_In, get_set_eq].
    + unfold includes. apply existsb_exists. exists (pkg ++ "." ++ model)%string.
      split; [left; reflexivity|apply String.eqb_refl].
Qed.

(** A value that the trailing-blank replacement leaves unchanged has no
    trailing blank. *)
Lemma no_trailing_of (v : string) : replace_unanchored trailing_sp_tab v = v -> no_trailing v.
Proof.
  intros H. destruct (replace_trailing_spec v) as (_ & _ & Hn). cbn zeta in Hn.
  rewrite H in Hn. exact Hn.
Qed.

Lemma findLinesStartingWithCfgFileName_value_shape_witness :
  findLinesStartingWithCfgFileName
    ("package config" ++ LF ++ String (ascii_of_nat 9) "cfgFileName = " ++ dq ++ "app.yaml" ++ dq
     ++ "  " ++ LF)%string = Some "app.yaml" /\
  str_forall no_dq "app.yaml" = true /\ no_trailing "app.yaml".
Proof.
  split; [vm_compute; reflexivity|].
  apply (findLinesStartingWithCfgFileName_value_shape
    ("package config" ++ LF ++ String (ascii_of_nat 9) "cfgFileName = " ++ dq ++ "app.yaml" ++ dq
     ++ "  " ++ LF)%string "app.yaml").
  vm_compute; reflexivity.
Defined.

Lemma findLinesStartingWithCfgFileName_extracts_witness :
  findLinesStartingWithCfgFileName
    ("package config" ++ LF ++ String (ascii_of_nat 9) "cfgFileName = " ++ dq ++ "config.yaml" ++ dq
     ++ LF)%string = Some "config.yaml".
Proof.
  apply (findLinesStartingWithCfgFileName_extracts _ ["package config"] [""]
           (String (ascii_of_nat 9) "") "config.yaml").
  - vm_compute; reflexivity.
  - repeat constructor.
  - reflexivity.
  - reflexivity.
  - apply no_trailing_of. vm_compute; reflexivity.
Defined.

Lemma removeDelims_lf_lines_witness :
  removeDelims (String.concat LF
    (["var doc = &swag.Spec{"; String (ascii_of_nat 9) left_delim;
      String (ascii_of_nat 9) right_delim] ++ ["}"])) =
  String.concat LF
    ["var doc = &swag.Spec{"; ("// " ++ String (ascii_of_nat 9) left_delim)%string;
     ("// " ++ String (ascii_of_nat 9) right_delim)%string; "}"].
Proof.
  apply (removeDelims_lf_lines
    ["var doc = &swag.Spec{"; String (ascii_of_nat 9) left_delim;
     String (ascii_of_nat 9) right_delim] "}").
  - repeat constructor.
  - reflexivity.
Defined.

Lemma removeDelims_crlf_lines_witness :
  removeDelims (String.concat (CR ++ LF)
    ["var doc = &swag.Spec{"; String (ascii_of_nat 9) left_delim; "}"]) =
  ("var doc = &swag.Spec{" ++ CR ++ "// " ++ LF ++ String (ascii_of_nat 9) left_delim
   ++ CR ++ LF ++ "}")%string.
Proof.
  rewrite (removeDelims_crlf_lines "var doc = &swag.Spec{"
    [String (ascii_of_nat 9) left_delim; "}"]).
  - reflexivity.
  - repeat constructor.
Defined.

Lemma readModulePath_reads_module_path_witness :
  readModulePath (Some ("module github.com/acme/shop" ++ LF ++ LF ++ "go 1.21" ++ LF)%string)
    = "github.com/acme/shop".
Proof.
  apply (readModulePath_reads_module_path "module" "" "github.com/acme/shop"
           (LF ++ LF ++ "go 1.21" ++ LF)%string).
  - discriminate.
  - reflexivity.
  - reflexivity.
  - reflexivity.
  - reflexivity.
  - reflexivity.
  - reflexivity.
  - right. eexists. reflexivity.
Defined.

Lemma readModulePath_keeps_cr_witness :
  readModulePath (Some ("module  github.com/acme/shop" ++ CR ++ LF ++ "go 1.21" ++ CR ++ LF)%string)
    = ("github.com/acme/shop" ++ CR)%string.
Proof.
  apply (readModulePath_keeps_cr "module" " " "github.com/acme/shop"
           ("go 1.21" ++ CR ++ LF)%string).
  - discriminate.
  - reflexivity.
  - reflexivity.
  - reflexivity.
  - reflexivity.
  - reflexivity.
  - discriminate.
  - reflexivity.
Defined.

Lemma packageTitleCase_capitalizes_witness :
  packageTitleCase "users" = Some "Users".
Proof. exact (packageTitleCase_capitalizes "u" "sers" ltac:(discriminate)). Defined.

Lemma process_model_marks_child_witness :
  isChild (snd (process_model "example.com/app" sample_num_of sample_to_str "orders" "Order"
    [("users.User", [("Type", VStr "users.User")]); ("amount", [("Type", VStr "int")])] []))
    "ordersModels.Order" = true.
Proof.
  apply (process_model_marks_child "example.com/app" sample_num_of sample_to_str "orders" "Order"
    [("users.User", [("Type", VStr "users.User")]); ("amount", [("Type", VStr "int")])] []).
  - apply nodup_keys_NoDup. reflexivity.
  - reflexivity.
  - reflexivity.
Defined.
